(** * Perceiver (perceiver_pytorch.py): a shallow embedding and its properties

    The embedding follows [src/perceiver_pytorch/perceiver_pytorch.py].

    - Python exceptions are the [Err] results of an error monad.
    - Tensors are nested lists indexed by their rank ([tensor A r]); the
      element type and the elementary functions of the numeric runtime
      (torch) are the fields of the class [Runtime].
    - Module instances live in a heap of objects; a reference is a heap
      index, so that two positions of [Perceiver.layers] hold the same
      instance exactly when they hold the same reference.
    - Construction and [forward] run in a state-and-error monad [M] over
      the heap, the random generator's position and a trace of the calls
      made to attention and to the rotary position service.
    - [nn.Dropout] is the identity in [forward]: the model describes modules
      in evaluation mode (or with a zero dropout probability); sampling a
      dropout mask belongs to the runtime.
    - [softmax] is the runtime's: the exponentials are taken of the
      differences to the largest score of the row, as torch computes them. *)

From Stdlib Require Import ZArith QArith Qround Qcanon Lia.
From stdpp Require Import base option list.

Close Scope Qc_scope.

Set Default Proof Using "Type".

(** ** Errors *)

Inductive error : Type :=
  | AssertionError
  | ValueError
  | ZeroDivisionError
  | KeyError
  | TypeError
  | RuntimeError
  | EinopsError.

Inductive result (A : Type) : Type :=
  | Ok (a : A)
  | Err (e : error).
Arguments Ok {A} a.
Arguments Err {A} e.

#[global] Instance result_ret : MRet result := @Ok.
#[global] Instance result_bind : MBind result :=
  λ A B f m, match m with Ok a => f a | Err e => Err e end.
#[global] Instance result_fmap : FMap result :=
  λ A B f m, match m with Ok a => Ok (f a) | Err e => Err e end.

Definition is_ok {A} (m : result A) : Prop := ∃ a, m = Ok a.

(** ** The numeric runtime

    [scalar] is the element type of a tensor (and of a Python float); the
    functions are the ones the source calls on it. *)

Class Runtime : Type := {
  scalar : Type;
  fzero : scalar;
  fone : scalar;
  fadd : scalar → scalar → scalar;
  fsub : scalar → scalar → scalar;
  fmul : scalar → scalar → scalar;
  fdiv : scalar → scalar → scalar;
  fexp : scalar → scalar;
  (** the larger of two scalars *)
  fmax : scalar → scalar → scalar;
  fsqrt : scalar → scalar;
  fsin : scalar → scalar;
  fcos : scalar → scalar;
  fgelu : scalar → scalar;
  (** [fpow b e] is [b ** e] *)
  fpow : scalar → scalar → scalar;
  (** [math.pi] *)
  fpi : scalar;
  (** a Python number as a scalar *)
  fof_Q : Q → scalar;
  (** [math.log] of a positive Python number *)
  flog : Q → scalar;
  (** the test [x == 0.0] *)
  fis_zero : scalar → bool;
  (** [dim_head ** -0.5] *)
  finv_sqrt : Z → scalar;
  (** [-torch.finfo(dtype).max] *)
  max_neg_value : scalar;
  (** the [n]-th draw of the random generator that initialises parameters *)
  sample : nat → scalar;
}.

Section Tensors.
Context {rt : Runtime}.

(** ** Tensors *)

Fixpoint tensor (A : Type) (r : nat) : Type :=
  match r with
  | 0 => A
  | S r' => list (tensor A r')
  end.

Definition vec : Type := list scalar.
Definition mat : Type := list vec.
Definition T3 : Type := list mat.

(** elementwise application *)
Fixpoint tmap {A B} (f : A → B) (r : nat) : tensor A r → tensor B r :=
  match r with
  | 0 => f
  | S r' => map (tmap f r')
  end.

(** [x.unsqueeze(-1)] *)
Fixpoint unsqueeze_last {A} (r : nat) : tensor A r → tensor A (S r) :=
  match r with
  | 0 => λ a, [a]
  | S r' => map (unsqueeze_last r')
  end.

(** a function of the vectors along the last axis *)
Fixpoint at_last {A B} (f : list A → result (list B)) (r : nat)
  : tensor A (S r) → result (tensor B (S r)) :=
  match r with
  | 0 => f
  | S r' => mapM (at_last f r')
  end.

(** every element replaced by a vector, which becomes the last axis *)
Fixpoint texpand {A B} (f : A → list B) (r : nat) : tensor A r → tensor B (S r) :=
  match r with
  | 0 => f
  | S r' => map (texpand f r')
  end.

(** two lists of the same length, pairwise ([RuntimeError] otherwise) *)
Definition zip_exact {A B C} (f : A → B → result C) (xs : list A) (ys : list B)
  : result (list C) :=
  if length xs =? length ys
  then mapM (λ p, f p.1 p.2) (zip xs ys)
  else Err RuntimeError.

(** [torch.cat((x, y), dim=-1)]: the other axes must have equal sizes *)
Fixpoint cat_last {A} (r : nat) : tensor A (S r) → tensor A (S r) → result (tensor A (S r)) :=
  match r with
  | 0 => λ v w, Ok (v ++ w)
  | S r' => zip_exact (cat_last r')
  end.

(** broadcasting of a binary operation along one axis: equal sizes pair
    up, a size of one is repeated *)
Definition broadcast2 {A B C} (f : A → B → C) (v : list A) (w : list B)
  : result (list C) :=
  if length v =? length w then Ok (zip_with f v w)
  else match v, w with
       | [a], _ => Ok (map (f a) w)
       | _, [b] => Ok (map (λ a, f a b) v)
       | _, _ => Err RuntimeError
       end.

(** [torch.linspace(start, end, steps)] *)
Definition linspace_values (start stop : scalar) (steps : Z) : list scalar :=
  if (steps =? 1)%Z then [start]
  else
    let step := fdiv (fsub stop start) (fof_Q (inject_Z (steps - 1))) in
    map (λ i, fadd start (fmul (fof_Q (inject_Z (Z.of_nat i))) step))
        (seq 0 (Z.to_nat steps)).

Definition linspace (start stop : scalar) (steps : Z) : result (list scalar) :=
  if (steps <? 0)%Z then Err RuntimeError
  else Ok (linspace_values start stop steps).

(** [torch.logspace(start, end, steps, base)] *)
Definition logspace (start stop : scalar) (steps : Z) (base : scalar)
  : result (list scalar) :=
  l ← linspace start stop steps;
  Ok (map (fpow base) l).

(** [math.log(x)] *)
Definition py_log (x : Q) : result scalar :=
  if Qle_bool x 0 then Err ValueError else Ok (flog x).

(** [a / b] on Python floats *)
Definition py_div (a b : scalar) : result scalar :=
  if fis_zero b then Err ZeroDivisionError else Ok (fdiv a b).

(** ** fourier_encode *)

Definition fourier_encode {r : nat} (x : tensor scalar r)
    (max_freq : Q) (num_bands : Z) (base : Q) : result (tensor scalar (S r)) :=
  let x := unsqueeze_last r x in
  let orig_x := x in
  lmf ← py_log (max_freq / 2);
  lb ← py_log base;
  stop ← py_div lmf lb;
  scales ← logspace (fof_Q 0) stop num_bands (fof_Q base);
  x ← at_last (λ v, broadcast2 fmul v scales) r x;
  let x := tmap (λ a, fmul a fpi) (S r) x in
  x ← cat_last r (tmap fsin (S r) x) (tmap fcos (S r) x);
  cat_last r x orig_x.

(** the features of one coordinate, as the specification lists them *)
Definition fourier_features (scales : list scalar) (x : scalar) : list scalar :=
  map (λ s, fsin (fmul (fmul x s) fpi)) scales
  ++ map (λ s, fcos (fmul (fmul x s) fpi)) scales
  ++ [x].


(** ** Helpers on lists *)

(** [n] consecutive blocks of [d] elements *)
Definition cells {A} (n d : nat) (l : list A) : list (list A) :=
  map (λ i, take d (drop (i * d) l)) (seq 0 n).

(** a list of the given length, or a single element repeated to it *)
Definition expand_to {A} (n : nat) (l : list A) : result (list A) :=
  if length l =? n then Ok l
  else match l with
       | [a] => Ok (replicate n a)
       | _ => Err RuntimeError
       end.

Definition vsum (v : vec) : scalar := foldr fadd fzero v.

(** the sum of the rows of a matrix *)
Definition sum_rows (m : mat) : vec :=
  foldr (zip_with fadd) (replicate (length (default [] (head m))) fzero) m.

Definition dot (v w : vec) : result scalar :=
  if length v =? length w then Ok (vsum (zip_with fmul v w)) else Err RuntimeError.

Fixpoint flatten_all {A} (r : nat) : tensor A r → list A :=
  match r with
  | 0 => λ a, [a]
  | S r' => λ l, concat (map (flatten_all r') l)
  end.

(** [range(n)] *)
Definition py_range (n : Z) : list Z := map Z.of_nat (seq 0 (Z.to_nat n)).

(** ** The rotary position service

    Modelled from the spec: the module [perceiver_pytorch.rotary] is not
    among the sources. [make_table seq_len dim_head] is the rotation table
    of [SinusoidalEmbeddings(dim_head)] for a sequence of [seq_len] latents;
    [rotate_vec tbl n v] is the rotation of a query or key vector [v] that
    stands at sequence position [n]. *)

Class Rotary : Type := {
  Table : Type;
  make_table : nat → Z → Table;
  rotate_vec : Table → nat → vec → vec;
}.
Context {rot : Rotary}.

Record SinusoidalEmbeddings : Type := { se_dim : Z }.

(** ** Modules and the heap *)

Record LayerNorm : Type := {
  normalized_shape : Z;
  ln_weight : vec;
  ln_bias : vec;
}.

Record Linear : Type := {
  in_features : Z;
  out_features : Z;
  weight : mat;
  bias : option vec;
}.

(** [to_out] is [nn.Sequential(nn.Linear(inner_dim, query_dim), nn.Dropout(dropout))] *)
Record Attention : Type := {
  scale : scalar;
  heads : Z;
  to_q : Linear;
  to_kv : Linear;
  to_out : Linear * Q;
}.

(** [net] is [nn.Sequential(nn.Linear, GEGLU(), nn.Dropout, nn.Linear)] *)
Record FeedForward : Type := {
  net_0 : Linear;
  net_2 : Q;
  net_3 : Linear;
}.

Record PreNorm : Type := {
  fn : nat;
  norm : LayerNorm;
  norm_context : option LayerNorm;
}.

Inductive Obj : Type :=
  | OParameter (w : mat)
  | OAttention (a : Attention)
  | OFeedForward (f : FeedForward)
  | OPreNorm (p : PreNorm)
  | OSequential (ln : LayerNorm) (lin : Linear).

(** a boolean mask [batch, ...] of any rank *)
Record Mask : Type := {
  mask_rank : nat;
  mask_data : tensor bool (S mask_rank);
}.

(** the calls the trace records *)
Inductive Event : Type :=
  | EvSinuEmb (seq_len : nat) (tbl : Table)
  | EvAttention (has_context : bool) (pos_emb : option Table)
  | EvRotary (q k : T3) (tbl : Table).

Record State : Type := {
  heap : list Obj;
  rng : nat;
  trace : list Event;
}.

(** ** The monad of construction and forward *)

Definition M (A : Type) : Type := State → result (A * State).

#[global] Instance M_ret : MRet M := λ A a st, Ok (a, st).
#[global] Instance M_bind : MBind M :=
  λ A B f m st, match m st with Ok (a, st') => f a st' | Err e => Err e end.

Definition run {A} (m : M A) (st : State) : result (A * State) := m st.

Definition lift {A} (m : result A) : M A :=
  λ st, match m with Ok a => Ok (a, st) | Err e => Err e end.

Definition fail {A} (e : error) : M A := λ _, Err e.

Definition alloc (o : Obj) : M nat :=
  λ st, Ok (length (heap st),
            {| heap := heap st ++ [o]; rng := rng st; trace := trace st |}).

Definition deref (r : nat) : M Obj :=
  λ st, match heap st !! r with
        | Some o => Ok (o, st)
        | None => Err RuntimeError
        end.

Definition emit (e : Event) : M unit :=
  λ st, Ok ((), {| heap := heap st; rng := rng st; trace := trace st ++ [e] |}).

(** [n] draws of the generator *)
Definition draw_vec (n : nat) : M vec :=
  λ st, Ok (map (λ j, sample (rng st + j)) (seq 0 n),
            {| heap := heap st; rng := rng st + n; trace := trace st |}).

Definition draw_mat (rows cols : nat) : M mat :=
  λ st, Ok (map (λ i, map (λ j, sample (rng st + i * cols + j)) (seq 0 cols)) (seq 0 rows),
            {| heap := heap st; rng := rng st + rows * cols; trace := trace st |}).

Fixpoint foldlM {A B} (f : A → B → M A) (a : A) (l : list B) : M A :=
  match l with
  | [] => mret a
  | b :: l' => a' ← f a b; foldlM f a' l'
  end.

(** the runtime refuses a tensor with a negative size *)
Definition sizes_ok (sizes : list Z) : bool := forallb (λ d, 0 <=? d)%Z sizes.

(** [torch.randn(rows, cols)] *)
Definition randn (rows cols : Z) : M mat :=
  if sizes_ok [rows; cols] then draw_mat (Z.to_nat rows) (Z.to_nat cols)
  else fail RuntimeError.

(** ** Constructors of the modules *)

(** [nn.LayerNorm(dim)] *)
Definition LayerNorm_init (dim : Z) : M LayerNorm :=
  if sizes_ok [dim]
  then mret {| normalized_shape := dim;
               ln_weight := replicate (Z.to_nat dim) fone;
               ln_bias := replicate (Z.to_nat dim) fzero |}
  else fail RuntimeError.

(** [nn.Linear(in_features, out_features, bias)] *)
Definition Linear_init (in_f out_f : Z) (with_bias : bool) : M Linear :=
  if sizes_ok [out_f; in_f] then
    w ← draw_mat (Z.to_nat out_f) (Z.to_nat in_f);
    b ← (if with_bias then v ← draw_vec (Z.to_nat out_f); mret (Some v)
         else mret None);
    mret {| in_features := in_f; out_features := out_f; weight := w; bias := b |}
  else fail RuntimeError.

(** [nn.Dropout(p)] *)
Definition Dropout_init (p : Q) : M Q :=
  if Qle_bool 0 p && Qle_bool p 1 then mret p else fail ValueError.

(** [Attention.__init__] *)
Definition Attention_init (query_dim : Z) (context_dim : option Z)
    (heads dim_head : Z) (dropout : Q) : M Attention :=
  let inner_dim := (dim_head * heads)%Z in
  let context_dim := default query_dim context_dim in
  if (dim_head =? 0)%Z then fail ZeroDivisionError else
  let scale := finv_sqrt dim_head in
  to_q ← Linear_init query_dim inner_dim false;
  to_kv ← Linear_init context_dim (inner_dim * 2) false;
  out ← Linear_init inner_dim query_dim true;
  p ← Dropout_init dropout;
  mret {| scale := scale; heads := heads; to_q := to_q; to_kv := to_kv;
          to_out := (out, p) |}.

(** [FeedForward.__init__] *)
Definition FeedForward_init (dim mult : Z) (dropout : Q) : M FeedForward :=
  l0 ← Linear_init dim (dim * mult * 2) true;
  p ← Dropout_init dropout;
  l3 ← Linear_init (dim * mult) dim true;
  mret {| net_0 := l0; net_2 := p; net_3 := l3 |}.

(** [PreNorm.__init__] *)
Definition PreNorm_init (dim : Z) (fn : nat) (context_dim : option Z) : M PreNorm :=
  n ← LayerNorm_init dim;
  nc ← match context_dim with
       | Some d => c ← LayerNorm_init d; mret (Some c)
       | None => mret None
       end;
  mret {| fn := fn; norm := n; norm_context := nc |}.

(** ** cache_fn

    The closure's [cache] cell is passed in and handed back. *)
Definition cache_fn {A} (f : M A) (_cache : bool) (cache : option A)
  : M (A * option A) :=
  if negb _cache then a ← f; mret (a, cache)
  else match cache with
       | Some c => mret (c, cache)
       | None => a ← f; mret (a, Some a)
       end.

(** ** forward of the modules *)

(** [nn.Dropout] in evaluation mode *)
Definition Dropout_forward {A} (p : Q) (x : A) : A := x.

(** [F.layer_norm] over the last axis, [eps = 1e-5] *)
Definition LayerNorm_vec (self : LayerNorm) (v : vec) : result vec :=
  if (Z.of_nat (length v) =? normalized_shape self)%Z then
    let n := fof_Q (inject_Z (normalized_shape self)) in
    let mean := fdiv (vsum v) n in
    let centred := map (λ a, fsub a mean) v in
    let var := fdiv (vsum (map (λ a, fmul a a) centred)) n in
    let std := fsqrt (fadd var (fof_Q (1 # 100000))) in
    Ok (zip_with fadd
          (zip_with fmul (map (λ a, fdiv a std) centred) (ln_weight self))
          (ln_bias self))
  else Err RuntimeError.

Definition LayerNorm_forward (self : LayerNorm) (x : T3) : result T3 :=
  mapM (mapM (LayerNorm_vec self)) x.

(** [F.linear]: [x @ weight.T + bias] over the last axis *)
Definition Linear_vec (self : Linear) (v : vec) : result vec :=
  if (Z.of_nat (length v) =? in_features self)%Z then
    y ← mapM (λ w, dot v w) (weight self);
    Ok (match bias self with
        | Some b => zip_with fadd y b
        | None => y
        end)
  else Err RuntimeError.

Definition Linear_forward (self : Linear) (x : T3) : result T3 :=
  mapM (mapM (Linear_vec self)) x.

(** [a, b = v.chunk(2, dim=-1)]: a single element gives one chunk only *)
Definition chunk2 (v : vec) : result (vec * vec) :=
  if length v =? 1 then Err ValueError
  else
    let c := (length v + 1) / 2 in
    Ok (take c v, drop c v).

Definition chunk2_last (x : T3) : result (T3 * T3) :=
  ps ← mapM (mapM chunk2) x;
  Ok (map (map fst) ps, map (map snd) ps).

(** [GEGLU.forward] *)
Definition GEGLU_vec (v : vec) : result vec :=
  '(x, gates) ← chunk2 v;
  broadcast2 fmul x (map fgelu gates).

(** [FeedForward.forward] *)
Definition FeedForward_forward (self : FeedForward) (x : T3) : result T3 :=
  x ← Linear_forward (net_0 self) x;
  x ← mapM (mapM GEGLU_vec) x;
  let x := Dropout_forward (net_2 self) x in
  Linear_forward (net_3 self) x.

(** [rearrange(t, "n (h d) -> h n d", h=h)] on one example *)
Definition split_vec (h : nat) (v : vec) : result (list vec) :=
  if length v mod h =? 0 then Ok (cells h (length v / h) v) else Err EinopsError.

Definition split_heads (h : Z) (m : mat) : result (list mat) :=
  if (h <=? 0)%Z then Err EinopsError
  else
    rows ← mapM (split_vec (Z.to_nat h)) m;
    Ok (map (λ k, map (λ r, default [] (r !! k)) rows) (seq 0 (Z.to_nat h))).

(** [rearrange(t, "b n (h d) -> (b h) n d", h=h)] *)
Definition rearrange_split (h : Z) (t : T3) : result T3 :=
  hs ← mapM (split_heads h) t;
  Ok (concat hs).

(** [h] matrices [n, d] side by side: [n, (h d)] *)
Definition merge_group (g : list mat) : mat :=
  map (λ i, concat (map (λ m, default [] (m !! i)) g))
      (seq 0 (length (default [] (head g)))).

(** [rearrange(out, "(b h) n d -> b n (h d)", h=h)] *)
Definition rearrange_merge (h : Z) (t : T3) : result T3 :=
  if (h <=? 0)%Z then Err EinopsError
  else
    let hn := Z.to_nat h in
    if length t mod hn =? 0
    then Ok (map merge_group (cells (length t / hn) hn t))
    else Err EinopsError.

(** [einsum("b i d, b j d -> b i j", q, k)] *)
Definition einsum_qk (q k : T3) : result T3 :=
  zip_exact (λ Q K, mapM (λ qi, mapM (λ kj, dot qi kj) K) Q) q k.

Definition weighted_sum (a : vec) (V : mat) : result vec :=
  if length a =? length V
  then Ok (sum_rows (zip_with (λ w row, map (fmul w) row) a V))
  else Err RuntimeError.

(** [einsum("b i j, b j d -> b i d", attn, v)] *)
Definition einsum_av (attn v : T3) : result T3 :=
  zip_exact (λ A V, mapM (λ a, weighted_sum a V) A) attn v.

(** the largest element of a vector *)
Definition vmax (v : vec) : scalar :=
  match v with
  | [] => fzero
  | a :: r => foldl fmax a r
  end.

(** [softmax] along one axis, as torch computes it: the exponentials are
    those of the differences to the largest element *)
Definition softmax (v : vec) : vec :=
  let m := vmax v in
  let e := map (λ a, fexp (fsub a m)) v in
  let s := vsum e in
  map (λ a, fdiv a s) e.

(** [rearrange(mask, "b ... -> b (...)")] *)
Definition flatten_mask (m : Mask) : list (list bool) :=
  map (flatten_all (mask_rank m)) (mask_data m).

(** [repeat(mask, "b j -> (b h) () j", h=h)] *)
Definition repeat_mask (h : Z) (m : list (list bool)) : result (list (list (list bool))) :=
  if (h <? 0)%Z then Err EinopsError
  else Ok (concat (map (λ row, replicate (Z.to_nat h) [row]) m)).

(** [sim.masked_fill_(~mask, value)], the mask broadcast to [sim] *)
Definition masked_fill (sim : T3) (mask : list (list (list bool))) (value : scalar)
  : result T3 :=
  mk ← expand_to (length sim) mask;
  mapM (λ p : mat * list (list bool),
          mrows ← expand_to (length p.1) p.2;
          mapM (λ q : vec * list bool,
                  mrow ← expand_to (length q.1) q.2;
                  Ok (zip_with (λ s (keep : bool), if keep then s else value) q.1 mrow))
               (zip p.1 mrows))
       (zip sim mk).

(** the projections of [Attention.forward], heads folded into the batch *)
Definition qkv_heads (self : Attention) (x : T3) (context : option T3)
  : result (T3 * T3 * T3) :=
  let h := heads self in
  q ← Linear_forward (to_q self) x;
  let context := default x context in
  kv ← Linear_forward (to_kv self) context;
  '(k, v) ← chunk2_last kv;
  q ← rearrange_split h q;
  k ← rearrange_split h k;
  v ← rearrange_split h v;
  Ok (q, k, v).

(** [apply_rotary_emb(q, k, pos_emb)] *)
Definition apply_rotary_emb (q k : T3) (pos_emb : Table) : M (T3 * T3) :=
  _ ← emit (EvRotary q k pos_emb);
  mret (map (imap (rotate_vec pos_emb)) q, map (imap (rotate_vec pos_emb)) k).

(** [sim], the scores before the softmax: the scaled products of queries
    and keys, the masked positions filled with [max_neg_value] *)
Definition Attention_sim (self : Attention) (q k : T3) (mask : option Mask) : result T3 :=
  let h := heads self in
  sim ← einsum_qk q k;
  let sim := map (map (map (λ s, fmul s (scale self)))) sim in
  match mask with
  | Some mask =>
      let mask := flatten_mask mask in
      mask ← repeat_mask h mask;
      masked_fill sim mask max_neg_value
  | None => Ok sim
  end.

(** [attn], the attention weights: [sim.softmax(dim=-1)] *)
Definition Attention_attn (self : Attention) (q k : T3) (mask : option Mask) : result T3 :=
  sim ← Attention_sim self q k mask;
  Ok (map (map softmax) sim).

(** [Attention.forward] from the scores on *)
Definition attend (self : Attention) (q k v : T3) (mask : option Mask) : result T3 :=
  let h := heads self in
  attn ← Attention_attn self q k mask;
  out ← einsum_av attn v;
  out ← rearrange_merge h out;
  out ← Linear_forward (to_out self).1 out;
  Ok (Dropout_forward (to_out self).2 out).

(** [Attention.forward] *)
Definition Attention_forward (self : Attention) (x : T3) (context : option T3)
    (mask : option Mask) (pos_emb : option Table) : M T3 :=
  _ ← emit (EvAttention (bool_decide (is_Some context)) pos_emb);
  '(q, k, v) ← lift (qkv_heads self x context);
  '(q, k) ← match pos_emb with
            | Some pos_emb => apply_rotary_emb q k pos_emb
            | None => mret (q, k)
            end;
  lift (attend self q k v mask).

(** the keyword arguments of a sublayer call *)
Record Kwargs : Type := {
  kw_context : option T3;
  kw_mask : option Mask;
  kw_pos_emb : option Table;
}.

Definition no_kwargs : Kwargs :=
  {| kw_context := None; kw_mask := None; kw_pos_emb := None |}.

(** [self.fn(x, **kwargs)] *)
Definition call_fn (fn : nat) (x : T3) (kwargs : Kwargs) : M T3 :=
  o ← deref fn;
  match o with
  | OAttention a =>
      Attention_forward a x (kw_context kwargs) (kw_mask kwargs) (kw_pos_emb kwargs)
  | OFeedForward f =>
      match kw_context kwargs, kw_mask kwargs, kw_pos_emb kwargs with
      | None, None, None => lift (FeedForward_forward f x)
      | _, _, _ => fail TypeError
      end
  | _ => fail TypeError
  end.

(** [PreNorm.forward] *)
Definition PreNorm_forward (self : PreNorm) (x : T3) (kwargs : Kwargs) : M T3 :=
  x ← lift (LayerNorm_forward (norm self) x);
  kwargs ← match norm_context self with
           | Some norm_context =>
               match kw_context kwargs with
               | Some context =>
                   normed_context ← lift (LayerNorm_forward norm_context context);
                   mret {| kw_context := Some normed_context;
                           kw_mask := kw_mask kwargs;
                           kw_pos_emb := kw_pos_emb kwargs |}
               | None => fail KeyError
               end
           | None => mret kwargs
           end;
  call_fn (fn self) x kwargs.

(** a call of the sublayer that the reference [r] holds *)
Definition call (r : nat) (x : T3) (kwargs : Kwargs) : M T3 :=
  o ← deref r;
  match o with
  | OPreNorm p => PreNorm_forward p x kwargs
  | _ => fail TypeError
  end.

(** ** Perceiver *)

(** the keyword arguments of [Perceiver.__init__] *)
Record Config : Type := {
  num_freq_bands : Z;
  depth : Z;
  max_freq : Q;
  freq_base : Q;
  input_channels : Z;
  input_axis : Z;
  num_latents : Z;
  latent_dim : Z;
  cross_heads : Z;
  latent_heads : Z;
  cross_dim_head : Z;
  latent_dim_head : Z;
  num_classes : Z;
  attn_dropout : Q;
  ff_dropout : Q;
  weight_tie_layers : bool;
  fourier_encode_data : bool;
  self_per_cross_attn : Z;
  self_attn_rel_pos : bool;
}.

(** one entry of [self.layers]: [[cross_attn, cross_ff, self_attns]] *)
Record Layer : Type := {
  cross_attn : nat;
  cross_ff : nat;
  self_attns : list (nat * nat);
}.

(** the attributes of a [Perceiver]; [latents] and [to_logits] are references *)
Record Perceiver : Type := {
  self_input_axis : Z;
  self_max_freq : Q;
  self_num_freq_bands : Z;
  self_freq_base : Q;
  self_fourier_encode_data : bool;
  latents : nat;
  layers : list Layer;
  to_logits : nat;
  sinu_emb : option SinusoidalEmbeddings;
}.

Definition get_cross_attn (c : Config) (input_dim : Z) : M nat :=
  a ← Attention_init (latent_dim c) (Some input_dim) (cross_heads c)
        (cross_dim_head c) (attn_dropout c);
  fn ← alloc (OAttention a);
  p ← PreNorm_init (latent_dim c) fn (Some input_dim);
  alloc (OPreNorm p).

Definition get_cross_ff (c : Config) : M nat :=
  f ← FeedForward_init (latent_dim c) 4 (ff_dropout c);
  fn ← alloc (OFeedForward f);
  p ← PreNorm_init (latent_dim c) fn None;
  alloc (OPreNorm p).

Definition get_latent_attn (c : Config) : M nat :=
  a ← Attention_init (latent_dim c) None (latent_heads c)
        (latent_dim_head c) (attn_dropout c);
  fn ← alloc (OAttention a);
  p ← PreNorm_init (latent_dim c) fn None;
  alloc (OPreNorm p).

Definition get_latent_ff (c : Config) : M nat :=
  f ← FeedForward_init (latent_dim c) 4 (ff_dropout c);
  fn ← alloc (OFeedForward f);
  p ← PreNorm_init (latent_dim c) fn None;
  alloc (OPreNorm p).

(** the [cache] cells of the four cached factories *)
Record Caches : Type := {
  cache_cross_attn : option nat;
  cache_cross_ff : option nat;
  cache_latent_attn : option nat;
  cache_latent_ff : option nat;
}.

Definition no_caches : Caches :=
  {| cache_cross_attn := None; cache_cross_ff := None;
     cache_latent_attn := None; cache_latent_ff := None |}.

(** one round of [for _ in range(self_per_cross_attn)] *)
Definition build_self_attn (c : Config) (should_cache : bool)
    (acc : list (nat * nat) * Caches) (_i : Z) : M (list (nat * nat) * Caches) :=
  '(la, cla) ← cache_fn (get_latent_attn c) should_cache (cache_latent_attn acc.2);
  '(lf, clf) ← cache_fn (get_latent_ff c) should_cache (cache_latent_ff acc.2);
  mret (acc.1 ++ [(la, lf)],
        {| cache_cross_attn := cache_cross_attn acc.2;
           cache_cross_ff := cache_cross_ff acc.2;
           cache_latent_attn := cla;
           cache_latent_ff := clf |}).

(** one round of [for i in range(depth)] *)
Definition build_layer (c : Config) (input_dim : Z)
    (acc : list Layer * Caches) (i : Z) : M (list Layer * Caches) :=
  let should_cache := (0 <? i)%Z && weight_tie_layers c in
  '(self_attns, caches) ←
    foldlM (build_self_attn c should_cache) ([], acc.2)
           (py_range (self_per_cross_attn c));
  '(ca, cca) ← cache_fn (get_cross_attn c input_dim) should_cache
                 (cache_cross_attn caches);
  '(cf, ccf) ← cache_fn (get_cross_ff c) should_cache (cache_cross_ff caches);
  mret (acc.1 ++ [{| cross_attn := ca; cross_ff := cf; self_attns := self_attns |}],
        {| cache_cross_attn := cca;
           cache_cross_ff := ccf;
           cache_latent_attn := cache_latent_attn caches;
           cache_latent_ff := cache_latent_ff caches |}).

(** [Perceiver.__init__] *)
Definition Perceiver_init (c : Config) : M Perceiver :=
  let fourier_channels :=
    if fourier_encode_data c
    then (input_axis c * ((num_freq_bands c * 2) + 1))%Z
    else 0%Z in
  let input_dim := (fourier_channels + input_channels c)%Z in
  w ← randn (num_latents c) (latent_dim c);
  latents ← alloc (OParameter w);
  '(layers, _) ← foldlM (build_layer c input_dim) ([], no_caches) (py_range (depth c));
  ln ← LayerNorm_init (latent_dim c);
  lin ← Linear_init (latent_dim c) (num_classes c) true;
  to_logits ← alloc (OSequential ln lin);
  let sinu_emb :=
    if self_attn_rel_pos c then Some {| se_dim := latent_dim_head c |} else None in
  mret {| self_input_axis := input_axis c;
          self_max_freq := max_freq c;
          self_num_freq_bands := num_freq_bands c;
          self_freq_base := freq_base c;
          self_fourier_encode_data := fourier_encode_data c;
          latents := latents;
          layers := layers;
          to_logits := to_logits;
          sinu_emb := sinu_emb |}.

(** [t.shape]; a nested list that is not rectangular is not a tensor. An
    axis of size zero forgets the sizes of the axes after it. *)
Fixpoint shape_of {A} (r : nat) : tensor A r → option (list nat) :=
  match r with
  | 0 => λ _, Some []
  | S r' => λ l,
      match l with
      | [] => Some (0 :: replicate r' 0)
      | x :: xs =>
          s ← shape_of r' x;
          if forallb (λ y, bool_decide (shape_of r' y = Some s)) xs
          then Some (length l :: s)
          else None
      end
  end.

(** [torch.stack] of the [torch.meshgrid] of [r] axis positions, [dim=-1] *)
Fixpoint meshgrid_stack (r : nat) (axis_pos : list vec) (coords : vec)
  : tensor scalar (S r) :=
  match r with
  | 0 => coords
  | S r' =>
      match axis_pos with
      | [] => []
      | a :: rest => map (λ c, meshgrid_stack r' rest (coords ++ [c])) a
      end
  end.

Definition stack_meshgrid (r : nat) (axis_pos : list vec) : result (tensor scalar (S r)) :=
  match r with
  | 0 => Err RuntimeError
  | S _ => Ok (meshgrid_stack r axis_pos [])
  end.

(** [rearrange(t, "... n d -> ... (n d)")] *)
Fixpoint merge_last2 {A} (r : nat) : tensor A (S (S r)) → tensor A (S r) :=
  match r with
  | 0 => λ l, concat l
  | S r' => map (merge_last2 r')
  end.

(** [rearrange(t, "... d -> (...) d")] on one example *)
Fixpoint flatten_lead {A} (r : nat) : tensor A (S r) → list (list A) :=
  match r with
  | 0 => λ v, [v]
  | S r' => λ l, concat (map (flatten_lead r') l)
  end.

(** [SinusoidalEmbeddings.forward(x)] *)
Definition SinusoidalEmbeddings_forward (self : SinusoidalEmbeddings) (x : T3) : M Table :=
  let n := length (default [] (head x)) in
  let tbl := make_table n (se_dim self) in
  _ ← emit (EvSinuEmb n tbl);
  mret tbl.

(** [x = f(x) + x] *)
Definition add3 (y x : T3) : result T3 :=
  zip_exact (zip_exact (zip_exact (λ a b, Ok (fadd a b)))) y x.

Definition residual (f : T3 → M T3) (x : T3) : M T3 :=
  y ← f x;
  lift (add3 y x).

(** the body of [for self_attn, self_ff in self_attns] *)
Definition self_block (pos_emb : option Table) (x : T3) (blk : nat * nat) : M T3 :=
  x ← residual (λ x, call blk.1 x
         {| kw_context := None; kw_mask := None; kw_pos_emb := pos_emb |}) x;
  residual (λ x, call blk.2 x no_kwargs) x.

(** the body of [for cross_attn, cross_ff, self_attns in self.layers] *)
Definition layer_group (data : T3) (mask : option Mask) (pos_emb : option Table)
    (x : T3) (l : Layer) : M T3 :=
  x ← residual (λ x, call (cross_attn l) x
         {| kw_context := Some data; kw_mask := mask; kw_pos_emb := None |}) x;
  x ← residual (λ x, call (cross_ff l) x no_kwargs) x;
  foldlM (self_block pos_emb) x (self_attns l).

(** the Fourier-encoded positions, concatenated to the channels of [data] *)
Definition encode_positions {r : nat} (self : Perceiver)
    (axis : list nat) (data : tensor scalar (S (S r))) : result (tensor scalar (S (S r))) :=
  axis_pos ← mapM (λ size, linspace (fof_Q (-1)) (fof_Q 1) (Z.of_nat size)) axis;
  pos ← stack_meshgrid r axis_pos;
  enc_pos ← fourier_encode pos (self_max_freq self) (self_num_freq_bands self)
              (self_freq_base self);
  let enc_pos := merge_last2 r enc_pos in
  let enc_pos := replicate (length data) enc_pos in
  cat_last (S r) data enc_pos.

(** [Perceiver.forward] up to the end of the loop over the layers: the
    latent array [x] *)
Definition Perceiver_latents {r : nat} (self : Perceiver)
    (data : tensor scalar (S (S r))) (mask : option Mask) : M T3 :=
  match shape_of (S (S r)) data with
  | None => fail TypeError
  | Some shape =>
      let b := length data in
      let axis := take r (drop 1 shape) in
      if negb (Z.of_nat (length axis) =? self_input_axis self)%Z
      then fail AssertionError
      else
        data ← (if self_fourier_encode_data self
                then lift (encode_positions self axis data)
                else mret data);
        let data := map (flatten_lead r) data in
        o ← deref (latents self);
        match o with
        | OParameter w =>
            let x := replicate b w in
            pos_emb ← match sinu_emb self with
                      | Some e => tbl ← SinusoidalEmbeddings_forward e x; mret (Some tbl)
                      | None => mret None
                      end;
            foldlM (layer_group data mask pos_emb) x (layers self)
        | _ => fail TypeError
        end
  end.

(** [x.mean(dim=-2)] on one example *)
Definition mean_rows (m : mat) : vec :=
  map (λ s, fdiv s (fof_Q (inject_Z (Z.of_nat (length m))))) (sum_rows m).

(** [Perceiver.forward] *)
Definition Perceiver_forward {r : nat} (self : Perceiver)
    (data : tensor scalar (S (S r))) (mask : option Mask) : M (list vec) :=
  x ← Perceiver_latents self data mask;
  let x := map mean_rows x in
  o ← deref (to_logits self);
  match o with
  | OSequential ln lin =>
      x ← lift (mapM (LayerNorm_vec ln) x);
      lift (mapM (Linear_vec lin) x)
  | _ => fail TypeError
  end.

(** ** Predicates of the statements *)

(** the scales of [fourier_encode], when its arguments are valid *)
Definition fourier_scales (max_freq : Q) (num_bands : Z) (base : Q) : list scalar :=
  map (fpow (fof_Q base))
      (linspace_values (fof_Q 0) (fdiv (flog (max_freq / 2)) (flog base)) num_bands).

(** the sublayer at [r] is a [PreNorm], allocated right after the module
    it wraps *)
Definition is_sublayer (h : list Obj) (r : nat) : Prop :=
  ∃ p, h !! r = Some (OPreNorm p) ∧ r = S (fn p) ∧
       match h !! fn p with
       | Some (OAttention _) | Some (OFeedForward _) => True
       | _ => False
       end.

(** [r] was allocated between [st] and [st'] *)
Definition fresh_ref (st st' : State) (r : nat) : Prop :=
  length (heap st) ≤ r < length (heap st') ∧ is_sublayer (heap st') r.

Definition layer_refs (l : Layer) : list nat :=
  cross_attn l :: cross_ff l :: flat_map (λ b, [b.1; b.2]) (self_attns l).

(** a factory: one module and the [PreNorm] around it *)
Definition factory (f : M nat) : Prop :=
  ∀ st r st', run f st = Ok (r, st') →
    heap st `prefix_of` heap st' ∧ fresh_ref st st' r.

(** a factory adds two objects to the heap, the module and its [PreNorm] *)
Definition builds_two (f : M nat) : Prop :=
  ∀ st r st', run f st = Ok (r, st') → length (heap st') = length (heap st) + 2.

(** the two cells of the latent factories are filled together *)
Definition latent_caches_paired (cs : Caches) : Prop :=
  is_Some (cache_latent_attn cs) ↔ is_Some (cache_latent_ff cs).

(** every factory that a layer of [n] self-attention blocks calls has a
    cached instance *)
Definition caches_full (n : nat) (cs : Caches) : Prop :=
  is_Some (cache_cross_attn cs) ∧ is_Some (cache_cross_ff cs)
  ∧ (0 < n → is_Some (cache_latent_attn cs) ∧ is_Some (cache_latent_ff cs)).

Definition cached_ok (lo : nat) (st : State) (o : option nat) : Prop :=
  ∀ r, o = Some r → lo ≤ r < length (heap st) ∧ is_sublayer (heap st) r.

Definition caches_ok (lo : nat) (st : State) (cs : Caches) : Prop :=
  cached_ok lo st (cache_cross_attn cs) ∧ cached_ok lo st (cache_cross_ff cs)
  ∧ cached_ok lo st (cache_latent_attn cs) ∧ cached_ok lo st (cache_latent_ff cs).

Definition cache_le (o o' : option nat) : Prop := ∀ r, o = Some r → o' = Some r.

Definition caches_le (cs cs' : Caches) : Prop :=
  cache_le (cache_cross_attn cs) (cache_cross_attn cs')
  ∧ cache_le (cache_cross_ff cs) (cache_cross_ff cs')
  ∧ cache_le (cache_latent_attn cs) (cache_latent_attn cs')
  ∧ cache_le (cache_latent_ff cs) (cache_latent_ff cs').

(** every instance of the layer is the one its factory has cached *)
Definition layer_cached (cs : Caches) (l : Layer) : Prop :=
  cache_cross_attn cs = Some (cross_attn l)
  ∧ cache_cross_ff cs = Some (cross_ff l)
  ∧ Forall (λ b, cache_latent_attn cs = Some b.1 ∧ cache_latent_ff cs = Some b.2)
           (self_attns l).

(** the layers were built one after the other, each from fresh instances *)
Fixpoint staged (lo hi : nat) (ls : list Layer) : Prop :=
  match ls with
  | [] => lo ≤ hi
  | l :: ls => ∃ mid, Forall (λ r, lo ≤ r < mid) (layer_refs l) ∧ lo ≤ mid ∧ staged mid hi ls
  end.

(** the module that the sublayer at [r] wraps *)
Definition instance_of (h : list Obj) (r : nat) : option nat :=
  match h !! r with
  | Some (OPreNorm p) => Some (fn p)
  | _ => None
  end.

(** a computation that returns from every state *)
Definition succeeds {A} (m : M A) : Prop := ∀ st, ∃ a st', run m st = Ok (a, st').

(** the sizes that [Perceiver.__init__] hands to the runtime are not
    negative, no head dimension is zero and the dropout probabilities are
    probabilities; the layers' sizes only matter when a layer is built *)
Definition allocatable (c : Config) : Prop :=
  let fourier_channels :=
    if fourier_encode_data c
    then (input_axis c * ((num_freq_bands c * 2) + 1))%Z
    else 0%Z in
  let input_dim := (fourier_channels + input_channels c)%Z in
  (0 ≤ num_latents c)%Z ∧ (0 ≤ latent_dim c)%Z ∧ (0 ≤ num_classes c)%Z
  ∧ ((1 ≤ depth c)%Z →
       (0 ≤ input_dim)%Z
       ∧ cross_dim_head c ≠ 0%Z ∧ (0 ≤ cross_dim_head c * cross_heads c)%Z
       ∧ (0 <= attn_dropout c)%Q ∧ (attn_dropout c <= 1)%Q
       ∧ (0 <= ff_dropout c)%Q ∧ (ff_dropout c <= 1)%Q
       ∧ ((1 ≤ self_per_cross_attn c)%Z →
            latent_dim_head c ≠ 0%Z
            ∧ (0 ≤ latent_dim_head c * latent_heads c)%Z)).

(** the sublayer at [r] is a [PreNorm] around an [Attention]
    ([attention = true]) or around a [FeedForward] *)
Definition kind_ok (h : list Obj) (attention : bool) (r : nat) : Prop :=
  ∃ p, h !! r = Some (OPreNorm p)
       ∧ match h !! fn p with
         | Some (OAttention _) => attention = true
         | Some (OFeedForward _) => attention = false
         | _ => False
         end.

(** every role of the layer holds a sublayer of its kind *)
Definition layer_kinds (h : list Obj) (l : Layer) : Prop :=
  kind_ok h true (cross_attn l) ∧ kind_ok h false (cross_ff l)
  ∧ Forall (λ b, kind_ok h true b.1 ∧ kind_ok h false b.2) (self_attns l).

Definition caches_kinds (h : list Obj) (cs : Caches) : Prop :=
  (∀ r, cache_cross_attn cs = Some r → kind_ok h true r)
  ∧ (∀ r, cache_cross_ff cs = Some r → kind_ok h false r)
  ∧ (∀ r, cache_latent_attn cs = Some r → kind_ok h true r)
  ∧ (∀ r, cache_latent_ff cs = Some r → kind_ok h false r).

(** a factory of sublayers of one kind *)
Definition factory_of (k : bool) (f : M nat) : Prop :=
  ∀ st r st', run f st = Ok (r, st') →
    heap st `prefix_of` heap st' ∧ kind_ok (heap st') k r.

(** two lists hold the same element at the index [i] *)
Definition agree {A} (i : nat) (xs ys : list A) : Prop :=
  ∃ x, xs !! i = Some x ∧ ys !! i = Some x.

(** two lists agree on the [h] indices of the block [b] *)
Definition block_agree {A} (h b : nat) (xs ys : list A) : Prop :=
  ∀ k, k < h → agree (b * h + k) xs ys.

(** two optional contexts agree on the batch row [b] *)
Definition context_agree (b : nat) (c1 c2 : option T3) : Prop :=
  match c1, c2 with
  | None, None => True
  | Some t1, Some t2 => agree b t1 t2
  | _, _ => False
  end.

(** two optional masks agree on the batch row [b] *)
Definition mask_agree (b : nat) (m1 m2 : option Mask) : Prop :=
  match m1, m2 with
  | None, None => True
  | Some m1, Some m2 => agree b (flatten_mask m1) (flatten_mask m2)
  | _, _ => False
  end.

(** two keyword arguments agree on the batch row [b] *)
Definition kw_agree (b : nat) (kw1 kw2 : Kwargs) : Prop :=
  context_agree b (kw_context kw1) (kw_context kw2)
  ∧ mask_agree b (kw_mask kw1) (kw_mask kw2)
  ∧ kw_pos_emb kw1 = kw_pos_emb kw2.

(** on heaps that are equal, the row [b] of the results of [F1] and [F2]
    is the same when the row [b] of their arguments is *)
Definition rowwise (b : nat) (F1 F2 : T3 → M T3) : Prop :=
  ∀ x1 x2 s1 s2 y1 y2 s1' s2',
    heap s1 = heap s2 → agree b x1 x2 →
    run (F1 x1) s1 = Ok (y1, s1') → run (F2 x2) s2 = Ok (y2, s2') →
    agree b y1 y2 ∧ heap s1' = heap s2'.

(** the sum of the exponentials that [softmax] divides by *)
Definition softmax_sum (v : vec) : scalar :=
  vsum (map (λ a, fexp (fsub a (vmax v))) v).

(** the division of the runtime is that of a field *)
Definition exact_division : Prop :=
  (∀ a b s, fadd (fdiv a s) (fdiv b s) = fdiv (fadd a b) s)
  ∧ (∀ s, fdiv fzero s = fzero)
  ∧ (∀ s, s ≠ fzero → fdiv s s = fone).

(** an array of zeros *)
Definition zero_vec (v : vec) : Prop := Forall (λ a, a = fzero) v.

Definition zero_T3 (x : T3) : Prop := Forall (Forall zero_vec) x.

(** a projection whose weight and bias, when it has one, are zero *)
Definition zero_linear (l : Linear) : Prop :=
  Forall zero_vec (weight l) ∧ ∀ b, bias l = Some b → zero_vec b.

(** the projection that ends a sublayer is zero: [to_out] of an attention,
    the last projection of a feed-forward network *)
Definition zeroed (o : Obj) : Prop :=
  match o with
  | OAttention a => zero_linear (to_out a).1
  | OFeedForward f => zero_linear (net_3 f)
  | _ => True
  end.

(** the sublayer calls of one depth group, in their order, each with the
    keyword arguments it receives *)
Definition sublayer_calls (data : T3) (mask : option Mask) (pos_emb : option Table)
    (l : Layer) : list (nat * Kwargs) :=
  (cross_attn l, {| kw_context := Some data; kw_mask := mask; kw_pos_emb := None |})
  :: (cross_ff l, no_kwargs)
  :: concat (map (λ blk : nat * nat,
                    [(blk.1, {| kw_context := None; kw_mask := None;
                                kw_pos_emb := pos_emb |});
                     (blk.2, no_kwargs)])
                 (self_attns l)).

(** Following the specification: one sublayer application, [x] becomes
    [sublayer(x)] plus [x] *)
Definition residual_step (x : T3) (c : nat * Kwargs) : M T3 :=
  y ← call c.1 x c.2;
  lift (add3 y x).

(** Following the specification: the running latent state through a
    sequence of sublayer applications *)
Definition residual_chain (x : T3) (cs : list (nat * Kwargs)) : M T3 :=
  foldlM residual_step x cs.

(** [st'] differs from [st] by the events [evs] only *)
Definition emits (st st' : State) (evs : list Event) : Prop :=
  heap st' = heap st ∧ rng st' = rng st ∧ trace st' = trace st ++ evs.

(** an event of a sublayer call with the keyword arguments [kwargs] *)
Definition call_event (kwargs : Kwargs) (ev : Event) : Prop :=
  match ev with
  | EvSinuEmb _ _ => False
  | EvAttention has_context pos_emb =>
      has_context = bool_decide (is_Some (kw_context kwargs))
      ∧ pos_emb = kw_pos_emb kwargs
  | EvRotary _ _ tbl => kw_pos_emb kwargs = Some tbl
  end.

(** an event of the layers of a forward call whose rotation table is
    [tbl]: no other table is made, attention receives [tbl] exactly when it
    has no context, and the rotary service is called with [tbl] *)
Definition rotary_event (tbl : option Table) (ev : Event) : Prop :=
  match ev with
  | EvSinuEmb _ _ => False
  | EvAttention has_context pos_emb =>
      pos_emb = if has_context then None else tbl
  | EvRotary _ _ t => tbl = Some t
  end.

(** [q] and [k] as [apply_rotary_emb] returns them *)
Definition rotated (pos_emb : option Table) (t : T3) : T3 :=
  match pos_emb with
  | Some tbl => map (imap (rotate_vec tbl)) t
  | None => t
  end.

(** ** Shapes *)

(** a matrix of [n] rows of [d] entries *)
Definition mat_shape {A} (n d : nat) (m : list (list A)) : Prop :=
  length m = n ∧ Forall (λ v, length v = d) m.

(** an array of shape [b, n, d] *)
Definition has_shape {A} (b n d : nat) (x : list (list (list A))) : Prop :=
  length x = b ∧ Forall (mat_shape n d) x.

(** a tensor whose axes but the last have the sizes [s], and whose last
    axis has the size [c] *)
Fixpoint shaped {A} (r : nat) (s : list nat) (c : nat) : tensor A (S r) → Prop :=
  match r with
  | 0 => λ v, s = [] ∧ length v = c
  | S r' => λ l,
      match s with
      | [] => False
      | n :: s' => length l = n ∧ Forall (shaped r' s' c) l
      end
  end.

(** the number of elements of a tensor of the sizes [s] *)
Definition numel (s : list nat) : nat := foldr Nat.mul 1 s.

(** a projection from [i] to [o] features *)
Definition Linear_wf (i o : nat) (l : Linear) : Prop :=
  in_features l = Z.of_nat i ∧ mat_shape o i (weight l)
  ∧ ∀ b, bias l = Some b → length b = o.

Definition LayerNorm_wf (d : nat) (ln : LayerNorm) : Prop :=
  normalized_shape ln = Z.of_nat d
  ∧ length (ln_weight ln) = d ∧ length (ln_bias ln) = d.

(** an attention of [h >= 1] heads of [d] dimensions, for queries of size
    [qd] and a context of size [cd] *)
Definition Attention_wf (qd cd : nat) (a : Attention) : Prop :=
  ∃ h d, heads a = Z.of_nat h ∧ 0 < h
         ∧ Linear_wf qd (d * h) (to_q a)
         ∧ Linear_wf cd (d * h * 2) (to_kv a)
         ∧ Linear_wf (d * h) qd (to_out a).1.

(** a feed-forward network on vectors of size [d] *)
Definition FeedForward_wf (d : nat) (f : FeedForward) : Prop :=
  ∃ m, Linear_wf d (m * 2) (net_0 f) ∧ Linear_wf m d (net_3 f).

(** the sublayer at [r] normalises vectors of size [qd] and attends: to a
    normalised context of size [c] when [cd = Some c], to its own input
    when [cd = None] *)
Definition attn_sublayer (qd : nat) (cd : option nat) (h : list Obj) (r : nat) : Prop :=
  ∃ p a, h !! r = Some (OPreNorm p) ∧ h !! fn p = Some (OAttention a)
         ∧ LayerNorm_wf qd (norm p)
         ∧ match cd with
           | Some c => (∃ nc, norm_context p = Some nc ∧ LayerNorm_wf c nc)
                       ∧ Attention_wf qd c a
           | None => norm_context p = None ∧ Attention_wf qd qd a
           end.

(** the sublayer at [r] normalises vectors of size [d] and feeds them forward *)
Definition ff_sublayer (d : nat) (h : list Obj) (r : nat) : Prop :=
  ∃ p f, h !! r = Some (OPreNorm p) ∧ h !! fn p = Some (OFeedForward f)
         ∧ LayerNorm_wf d (norm p) ∧ norm_context p = None ∧ FeedForward_wf d f.

(** every role of the layer holds a sublayer of the sizes of the model *)
Definition layer_wf (ld cd : nat) (h : list Obj) (l : Layer) : Prop :=
  attn_sublayer ld (Some cd) h (cross_attn l) ∧ ff_sublayer ld h (cross_ff l)
  ∧ Forall (λ b, attn_sublayer ld None h b.1 ∧ ff_sublayer ld h b.2) (self_attns l).

(** a model of [nl] latents of size [ld], for a context of size [cd] and
    [nc] classes *)
Definition Perceiver_wf (nl ld cd nc : nat) (h : list Obj) (self : Perceiver) : Prop :=
  (∃ w, h !! latents self = Some (OParameter w) ∧ mat_shape nl ld w)
  ∧ Forall (layer_wf ld cd h) (layers self)
  ∧ ∃ ln lin, h !! to_logits self = Some (OSequential ln lin)
              ∧ LayerNorm_wf ld ln ∧ Linear_wf ld nc lin.

(** the size of the context that [Perceiver.__init__] builds the
    cross-attention for *)
Definition input_dim (c : Config) : Z :=
  let fourier_channels :=
    if fourier_encode_data c
    then (input_axis c * ((num_freq_bands c * 2) + 1))%Z
    else 0%Z in
  (fourier_channels + input_channels c)%Z.

(** a property of sublayers that allocations keep *)
Definition role_mono (P : list Obj → nat → Prop) : Prop :=
  ∀ h h' r, h `prefix_of` h' → P h r → P h' r.

(** a factory of sublayers that have the property [P] *)
Definition role_factory (P : list Obj → nat → Prop) (f : M nat) : Prop :=
  ∀ st r st', run f st = Ok (r, st') → heap st `prefix_of` heap st' ∧ P (heap st') r.

(** every role of the layer holds a sublayer with the property of the role *)
Definition roles_layer (Pca Pcf Pla Plf : list Obj → nat → Prop)
    (h : list Obj) (l : Layer) : Prop :=
  Pca h (cross_attn l) ∧ Pcf h (cross_ff l)
  ∧ Forall (λ b, Pla h b.1 ∧ Plf h b.2) (self_attns l).

Definition roles_caches (Pca Pcf Pla Plf : list Obj → nat → Prop)
    (h : list Obj) (cs : Caches) : Prop :=
  (∀ r, cache_cross_attn cs = Some r → Pca h r)
  ∧ (∀ r, cache_cross_ff cs = Some r → Pcf h r)
  ∧ (∀ r, cache_latent_attn cs = Some r → Pla h r)
  ∧ (∀ r, cache_latent_ff cs = Some r → Plf h r).

(** on the heap [h], [F] returns an array of shape [b, n, d] for every
    array of that shape, and leaves the heap as it is *)
Definition shape_step (b n d : nat) (h : list Obj) (F : T3 → M T3) : Prop :=
  ∀ x st, heap st = h → has_shape b n d x →
    ∃ y st', run (F x) st = Ok (y, st') ∧ has_shape b n d y ∧ heap st' = h.

(** a mask, when there is one, flattens to [b] rows of [j] entries *)
Definition mask_fits (b j : nat) (mask : option Mask) : Prop :=
  match mask with
  | Some m => mat_shape b j (flatten_mask m)
  | None => True
  end.

(** the rotary service returns vectors of the size of those it rotates *)
Definition rotary_keeps_length : Prop :=
  ∀ tbl n v, length (rotate_vec tbl n v) = length v.

End Tensors.




(** ** An integer runtime, to run the model on concrete inputs

    Arithmetic is that of [Z]; the elementary functions are integer
    stand-ins that keep the values the source relies on at the origin
    ([sin 0 = 0], [cos 0 = 1], [log 1 = 0]). *)

Definition Zruntime : Runtime := {|
  scalar := Z;
  fzero := 0%Z;
  fone := 1%Z;
  fadd := Z.add;
  fsub := Z.sub;
  fmul := Z.mul;
  fdiv := Z.div;
  fexp := λ x, (2 ^ x)%Z;
  fmax := Z.max;
  fsqrt := Z.sqrt;
  fsin := λ x, x;
  fcos := λ _, 1%Z;
  fgelu := λ x, Z.max 0 x;
  fpow := Z.pow;
  fpi := 3%Z;
  fof_Q := Qfloor;
  flog := λ q, (Qfloor q - 1)%Z;
  fis_zero := Z.eqb 0;
  finv_sqrt := λ _, 1%Z;
  max_neg_value := (- (2 ^ 128 - 2 ^ 104))%Z;
  sample := Z.of_nat;
|}.

(** a stand-in for the rotary service over [Zruntime]: the table is the
    pair it is made from, a vector is rotated cyclically by its position *)
Definition Zrotary : @Rotary Zruntime := {|
  Table := nat * Z;
  make_table := λ n d, (n, d);
  rotate_vec := λ _ n v, rotate n v;
|}.

(** ** A rational runtime, for the attention weights

    Arithmetic is the exact arithmetic of [Qc]. The exponential is the power
    of two of the integer part, and underflows to zero below [2 ^ -126] as
    that of single-precision numbers does; [max_neg_value] is the opposite
    of their largest value. The other elementary functions are stand-ins. *)

Definition Qcexp (x : Qc) : Qc :=
  let n := Qfloor x in
  if (n <? -126)%Z then Q2Qc 0
  else if (0 <=? n)%Z then Q2Qc (inject_Z (2 ^ n))
  else Q2Qc (1 # Z.to_pos (2 ^ (- n))).

Definition Qcmax (a b : Qc) : Qc := if Qle_bool a b then b else a.

Definition Qcruntime : Runtime := {|
  scalar := Qc;
  fzero := Q2Qc 0;
  fone := Q2Qc 1;
  fadd := Qcplus;
  fsub := Qcminus;
  fmul := Qcmult;
  fdiv := Qcdiv;
  fexp := Qcexp;
  fmax := Qcmax;
  fsqrt := λ x, x;
  fsin := λ x, x;
  fcos := λ _, Q2Qc 1;
  fgelu := Qcmax (Q2Qc 0);
  fpow := λ b e, Qcpower b (Z.to_nat (Qfloor e));
  fpi := Q2Qc 3;
  fof_Q := Q2Qc;
  flog := λ q, Q2Qc (inject_Z (Qfloor q - 1));
  fis_zero := λ x, Qeq_bool x 0;
  finv_sqrt := λ _, Q2Qc 1;
  max_neg_value := Q2Qc (inject_Z (- (2 ^ 128 - 2 ^ 104)));
  sample := λ n, Q2Qc (inject_Z (Z.of_nat n));
|}.

Definition empty_state {rt : Runtime} {rot : Rotary} : State :=
  {| heap := []; rng := 0; trace := [] |}.

(** a small configuration: images of one axis, two latents of size two *)
Definition small_config (depth : Z) (tie : bool) : Config := {|
  num_freq_bands := 1;
  depth := depth;
  max_freq := 10;
  freq_base := 2;
  input_channels := 1;
  input_axis := 1;
  num_latents := 2;
  latent_dim := 2;
  cross_heads := 1;
  latent_heads := 2;
  cross_dim_head := 2;
  latent_dim_head := 1;
  num_classes := 3;
  attn_dropout := 0;
  ff_dropout := 0;
  weight_tie_layers := tie;
  fourier_encode_data := true;
  self_per_cross_attn := 1;
  self_attn_rel_pos := true;
|}.

#[local] Existing Instance Zruntime.
#[local] Existing Instance Zrotary.

(** the models that [Perceiver.__init__] builds from [small_config], with
    the state it leaves *)
Definition built_tied : result (Perceiver * State) :=
  Eval vm_compute in run (Perceiver_init (small_config 3 true)) empty_state.

Definition built_untied : result (Perceiver * State) :=
  Eval vm_compute in run (Perceiver_init (small_config 3 false)) empty_state.

(** a configuration with no layer, no latent and no frequency band *)
Definition degenerate_config : Config := {|
  num_freq_bands := 0;
  depth := 0;
  max_freq := 10;
  freq_base := 2;
  input_channels := 1;
  input_axis := 1;
  num_latents := 0;
  latent_dim := 2;
  cross_heads := 1;
  latent_heads := 2;
  cross_dim_head := 2;
  latent_dim_head := 1;
  num_classes := 3;
  attn_dropout := 0;
  ff_dropout := 0;
  weight_tie_layers := false;
  fourier_encode_data := true;
  self_per_cross_attn := 1;
  self_attn_rel_pos := false;
|}.

Definition built_degenerate : result (Perceiver * State) :=
  Eval vm_compute in run (Perceiver_init degenerate_config) empty_state.

(** a batch of two examples with three positions of one channel *)
Definition small_data : tensor Z 3 := [[[1]; [2]; [3]]; [[4]; [5]; [6]]]%Z.

(** construction from [small_config], then a forward call on [small_data] *)
Definition forward_tied : result (list vec * State) :=
  Eval vm_compute in
    run (self ← Perceiver_init (small_config 3 true);
         Perceiver_forward (r := 1) self small_data None) empty_state.

(** a batch of three examples whose second example is the second example of
    [small_data] *)
Definition other_data : tensor Z 3 :=
  [[[7]; [8]; [9]]; [[4]; [5]; [6]]; [[0]; [1]; [2]]]%Z.

Definition forward_other : result (list vec * State) :=
  Eval vm_compute in
    run (self ← Perceiver_init (small_config 3 true);
         Perceiver_forward (r := 1) self other_data None) empty_state.

(** every projection of a sublayer set to zero, weight and bias *)
Definition zero_Linear (l : Linear) : Linear := {|
  in_features := in_features l;
  out_features := out_features l;
  weight := map (map (λ _, 0%Z)) (weight l);
  bias := option_map (map (λ _, 0%Z)) (bias l);
|}.

Definition zero_projections (o : Obj) : Obj :=
  match o with
  | OAttention a =>
      OAttention {| scale := scale a; heads := heads a;
                    to_q := zero_Linear (to_q a);
                    to_kv := zero_Linear (to_kv a);
                    to_out := (zero_Linear (to_out a).1, (to_out a).2) |}
  | OFeedForward f =>
      OFeedForward {| net_0 := zero_Linear (net_0 f); net_2 := net_2 f;
                      net_3 := zero_Linear (net_3 f) |}
  | o => o
  end.

Definition zero_all_projections : M unit :=
  λ st, Ok ((), {| heap := map zero_projections (heap st);
                   rng := rng st; trace := trace st |}).

(** construction from [small_config], every projection set to zero, then
    the latent array of a forward call on [small_data] *)
Definition latents_zeroed : result (T3 * State) :=
  Eval vm_compute in
    run (self ← Perceiver_init (small_config 3 true);
         _ ← zero_all_projections;
         Perceiver_latents (r := 1) self small_data None) empty_state.

(** a feed-forward block, a self-attention of two heads and a [PreNorm]
    with a context, built for vectors of two features *)
Definition built_ff : result (FeedForward * State) :=
  Eval vm_compute in run (FeedForward_init 2 4 0) empty_state.

Definition built_attention : result (Attention * State) :=
  Eval vm_compute in run (Attention_init 2 None 2 1 0) empty_state.

Definition built_prenorm : result (PreNorm * State) :=
  Eval vm_compute in run (PreNorm_init 2 0 (Some 3%Z)) empty_state.

(** a batch of one example with two positions of two features, and the
    same with the two heads folded into the batch *)
Definition two_positions : tensor Z 3 := [[[1; 2]; [3; 4]]]%Z.

Definition two_heads : tensor Z 3 := [[[1]; [3]]; [[2]; [4]]]%Z.

(** a mask that keeps both positions, and a mask for a batch of two *)
Definition open_mask : Mask :=
  {| mask_rank := 1; mask_data := [[true; true]] |}.

Definition wide_mask : Mask :=
  {| mask_rank := 1; mask_data := [[true; true]; [true; false]] |}.

(** a batch of one image of two axes *)
Definition image_data : tensor Z 4 := [[[[1]; [2]]; [[3]; [4]]]]%Z.

#[local] Remove Hints Zruntime Zrotary : typeclass_instances.

(** an attention of one head over the rational runtime, two queries and
    three context positions; the scores before masking are
    [[1; 0; 3]; [2; 0; 6]] *)
#[local] Existing Instance Qcruntime.

Definition probe_linear : @Linear Qcruntime :=
  {| in_features := 1; out_features := 1; weight := [[Q2Qc 1]]; bias := None |}.

Definition probe_attention : @Attention Qcruntime :=
  {| scale := Q2Qc 1; heads := 1; to_q := probe_linear; to_kv := probe_linear;
     to_out := (probe_linear, 0%Q) |}.

Definition probe_q : @T3 Qcruntime := [[[Q2Qc 1]; [Q2Qc 2]]].

Definition probe_k : @T3 Qcruntime := [[[Q2Qc 1]; [Q2Qc 0]; [Q2Qc 3]]].

(** the second context position is masked *)
Definition partial_mask : Mask :=
  {| mask_rank := 1; mask_data := [[true; false; true]] |}.

(** every context position is masked *)
Definition full_mask : Mask :=
  {| mask_rank := 1; mask_data := [[false; false; false]] |}.

Definition sim_partial : result (@T3 Qcruntime) :=
  Eval vm_compute in
    Attention_sim (rt := Qcruntime) probe_attention probe_q probe_k (Some partial_mask).

Definition attn_partial : result (@T3 Qcruntime) :=
  Eval vm_compute in
    Attention_attn (rt := Qcruntime) probe_attention probe_q probe_k (Some partial_mask).

Definition attn_full : result (@T3 Qcruntime) :=
  Eval vm_compute in
    Attention_attn (rt := Qcruntime) probe_attention probe_q probe_k (Some full_mask).

#[local] Remove Hints Qcruntime : typeclass_instances.

(** * Properties *)

Section Fourier.
Context {rt : Runtime}.

(** ** The error monad *)

Lemma bind_Ok {A B} (m : result A) (f : A → result B) b :
  m ≫= f = Ok b ↔ ∃ a, m = Ok a ∧ f a = Ok b.
Proof.
  destruct m as [a|e]; simpl; split.
  - eauto.
  - by intros (a' & [= <-] & ?).
  - done.
  - by intros (? & ? & ?).
Qed.

Lemma mapM_Ok {A B} (f : A → result B) l k :
  mapM f l = Ok k ↔ Forall2 (λ x y, f x = Ok y) l k.
Proof.
  revert k. induction l as [|x l IH]; intros k; simpl.
  - split; [intros [= <-]; constructor | by inversion 1].
  - split.
    + intros H. apply bind_Ok in H as (y & Hy & H).
      apply bind_Ok in H as (k' & Hk' & [= <-]).
      constructor; [done | by apply IH].
    + inversion 1 as [|? y ? k' Hy Hk']; subst.
      apply IH in Hk'. cbn. rewrite Hy. cbn. by rewrite Hk'.
Qed.

Lemma mapM_map_Ok {A B C} (f : B → result C) (g : A → B) (h : A → C) l :
  (∀ x, f (g x) = Ok (h x)) → mapM f (map g l) = Ok (map h l).
Proof.
  intros H. apply mapM_Ok. induction l; constructor; auto.
Qed.

Lemma zip_exact_map_Ok {A B C D} (f : B → C → result D)
    (g1 : A → B) (g2 : A → C) (h : A → D) l :
  (∀ x, f (g1 x) (g2 x) = Ok (h x)) →
  zip_exact f (map g1 l) (map g2 l) = Ok (map h l).
Proof.
  intros H. unfold zip_exact. rewrite !length_map, Nat.eqb_refl.
  apply mapM_Ok. induction l; constructor; simpl; auto.
Qed.

(** ** fourier_encode *)

Lemma unsqueeze_last_texpand {A} r (x : tensor A r) :
  unsqueeze_last r x = texpand (λ a, [a]) r x.
Proof.
  induction r as [|r IH]; [done|]. simpl. apply map_ext. intros; apply IH.
Qed.

Lemma tmap_texpand {A B C} (g : B → C) (f : A → list B) r (x : tensor A r) :
  map (tmap g r) (texpand f r x) = texpand (λ a, map g (f a)) r x.
Proof.
  induction r as [|r IH]; [done|].
  change (map (map (tmap g r)) (map (texpand f r) x)
          = map (texpand (λ a, map g (f a)) r) x).
  rewrite map_map. apply map_ext. intros; apply IH.
Qed.

Lemma cat_last_texpand {A B} (f g : A → list B) r (x : tensor A r) :
  cat_last r (texpand f r x) (texpand g r x) = Ok (texpand (λ a, f a ++ g a) r x).
Proof.
  induction r as [|r IH]; [done|].
  apply (zip_exact_map_Ok (cat_last r)). intros; apply IH.
Qed.

Lemma broadcast2_singleton {A B C} (f : A → B → C) a w :
  broadcast2 f [a] w = Ok (map (f a) w).
Proof.
  unfold broadcast2. destruct w as [|b [|b' w]]; done.
Qed.

Lemma at_last_broadcast_texpand scales r (x : tensor scalar r) :
  at_last (λ v, broadcast2 fmul v scales) r (texpand (λ a, [a]) r x)
  = Ok (texpand (λ a, map (fmul a) scales) r x).
Proof.
  induction r as [|r IH]; [apply broadcast2_singleton|].
  apply (mapM_map_Ok (at_last _ r)). intros; apply IH.
Qed.

Lemma texpand_ext {A B} (f g : A → list B) r (x : tensor A r) :
  (∀ a, f a = g a) → texpand f r x = texpand g r x.
Proof.
  intros H. induction r as [|r IH]; [apply H|]. simpl. apply map_ext. intros; apply IH.
Qed.

Lemma fourier_encode_eq r (x : tensor scalar r) max_freq num_bands base :
  fourier_encode x max_freq num_bands base =
    if Qle_bool (max_freq / 2) 0 || Qle_bool base 0 then Err ValueError
    else if fis_zero (flog base) then Err ZeroDivisionError
    else if (num_bands <? 0)%Z then Err RuntimeError
    else Ok (texpand (fourier_features (fourier_scales max_freq num_bands base)) r x).
Proof.
  unfold fourier_encode, py_log, py_div, logspace, linspace, fourier_scales.
  destruct (Qle_bool (max_freq / 2) 0); [done|]. cbn.
  destruct (Qle_bool base 0); [done|]. cbn.
  destruct (fis_zero (flog base)); [done|]. cbn.
  destruct (num_bands <? 0)%Z; [done|]. cbn.
  set (scales := map _ (linspace_values _ _ _)).
  rewrite unsqueeze_last_texpand, at_last_broadcast_texpand. cbn.
  rewrite !tmap_texpand, cat_last_texpand. cbn.
  rewrite cat_last_texpand. f_equal. apply texpand_ext. intros a.
  unfold fourier_features. rewrite !map_map, <- app_assoc. done.
Qed.

Lemma length_linspace_values start stop steps :
  (0 ≤ steps)%Z → length (linspace_values start stop steps) = Z.to_nat steps.
Proof.
  intros H. unfold linspace_values. destruct (Z.eqb_spec steps 1) as [->|]; [done|].
  by rewrite length_map, length_seq.
Qed.

Lemma Qle_bool_false x : Qle_bool x 0 = false ↔ (0 < x)%Q.
Proof.
  split.
  - intros H. apply Qnot_le_lt. intros Hle. apply Qle_bool_iff in Hle. congruence.
  - intros H. destruct (Qle_bool x 0) eqn:E; [|done].
    apply Qle_bool_iff in E. exfalso. by apply (Qlt_not_le 0 x).
Qed.

Lemma Qle_bool_true x : Qle_bool x 0 = true → ¬ (0 < x)%Q.
Proof. intros H Hlt. apply Qle_bool_false in Hlt. congruence. Qed.

Lemma fourier_features_length scales a :
  length (fourier_features scales a) = 2 * length scales + 1.
Proof. unfold fourier_features. rewrite !length_app, !length_map. simpl. lia. Qed.

Lemma fourier_features_zero scales :
  (∀ s, fmul fzero s = fzero) → fsin fzero = fzero → fcos fzero = fone →
  fourier_features scales fzero
  = replicate (length scales) fzero ++ replicate (length scales) fone ++ [fzero].
Proof.
  intros Hmul Hsin Hcos. unfold fourier_features. f_equal; [|f_equal].
  - induction scales as [|s l IH]; [done|]. simpl. by rewrite IH, !Hmul, Hsin.
  - induction scales as [|s l IH]; [done|]. simpl. by rewrite IH, !Hmul, Hcos.
Qed.



End Fourier.

Section Monad.
Context {rt : Runtime} {rot : Rotary}.

(** ** The monad [M] *)

Lemma run_bind {A B} (m : M A) (f : A → M B) st b st' :
  run (m ≫= f) st = Ok (b, st') ↔
  ∃ a st1, run m st = Ok (a, st1) ∧ run (f a) st1 = Ok (b, st').
Proof.
  unfold run, mbind, M_bind. destruct (m st) as [[a st1]|e]; split.
  - eauto.
  - by intros (? & ? & [= <- <-] & ?).
  - done.
  - by intros (? & ? & ? & ?).
Qed.

Lemma run_ret {A} (a : A) st b st' :
  run (mret a) st = Ok (b, st') ↔ a = b ∧ st = st'.
Proof. unfold run, mret, M_ret. split; [by intros [= <- <-] | by intros [-> ->]]. Qed.

Lemma run_lift {A} (m : result A) st b st' :
  run (lift m) st = Ok (b, st') ↔ m = Ok b ∧ st = st'.
Proof.
  unfold run, lift. destruct m; split; try done.
  - by intros [= <- <-].
  - by intros [[= <-] ->].
  - by intros [? _].
Qed.

Lemma run_fail {A} e st (b : A) st' : run (fail e) st = Ok (b, st') ↔ False.
Proof. done. Qed.

Lemma run_alloc o st r st' :
  run (alloc o) st = Ok (r, st') ↔
  r = length (heap st) ∧
  st' = {| heap := heap st ++ [o]; rng := rng st; trace := trace st |}.
Proof. unfold run, alloc. split; [by intros [= <- <-] | by intros [-> ->]]. Qed.

Lemma run_deref r st o st' :
  run (deref r) st = Ok (o, st') ↔ heap st !! r = Some o ∧ st = st'.
Proof.
  unfold run, deref. destruct (heap st !! r); split; try done.
  - by intros [= <- <-].
  - by intros [[= <-] ->].
  - by intros [? _].
Qed.

Lemma run_emit e st u st' :
  run (emit e) st = Ok (u, st') ↔
  st' = {| heap := heap st; rng := rng st; trace := trace st ++ [e] |}.
Proof. unfold run, emit. destruct u. split; [by intros [= <-] | by intros ->]. Qed.

End Monad.

Ltac inv_run :=
  repeat match goal with
  | H : run (_ ≫= _) _ = Ok _ |- _ =>
      apply run_bind in H as (? & ? & ? & H)
  | H : run (mret _) _ = Ok _ |- _ => apply run_ret in H as [? ?]
  | H : run (fail _) _ = Ok _ |- _ => by apply run_fail in H
  | H : run (lift _) _ = Ok _ |- _ => apply run_lift in H as [H ?]
  | H : run (alloc _) _ = Ok _ |- _ => apply run_alloc in H as [? ?]
  | H : run (deref _) _ = Ok _ |- _ => apply run_deref in H as [H ?]
  | H : run (emit _) _ = Ok _ |- _ => apply run_emit in H
  | H : run (if ?b then _ else _) _ = Ok _ |- _ => destruct b eqn:?
  | H : run (match ?x with _ => _ end) _ = Ok _ |- _ => destruct x eqn:?
  | H : run (let '(_, _) := ?x in _) _ = Ok _ |- _ => destruct x
  end.

Section Construction.
Context {rt : Runtime} {rot : Rotary}.

(** ** The constructors leave the heap as it is *)

Lemma draw_vec_heap n st v st' :
  run (draw_vec n) st = Ok (v, st') → heap st' = heap st ∧ trace st' = trace st.
Proof. by intros [= <- <-]. Qed.

Lemma draw_mat_heap n m st v st' :
  run (draw_mat n m) st = Ok (v, st') → heap st' = heap st ∧ trace st' = trace st.
Proof. by intros [= <- <-]. Qed.

Lemma LayerNorm_init_heap d st l st' :
  run (LayerNorm_init d) st = Ok (l, st') → st' = st.
Proof. unfold LayerNorm_init. intros H. inv_run. done. Qed.

Lemma Linear_init_heap i o b st l st' :
  run (Linear_init i o b) st = Ok (l, st') → heap st' = heap st.
Proof.
  unfold Linear_init. intros H. inv_run; subst;
    repeat match goal with
    | H : run (draw_mat _ _) _ = Ok _ |- _ => apply draw_mat_heap in H as [? ?]
    | H : run (draw_vec _) _ = Ok _ |- _ => apply draw_vec_heap in H as [? ?]
    end; congruence.
Qed.

Lemma Dropout_init_heap p st q st' :
  run (Dropout_init p) st = Ok (q, st') → st' = st.
Proof. unfold Dropout_init. intros H. inv_run. done. Qed.

Lemma Attention_init_heap q c h d p st a st' :
  run (Attention_init q c h d p) st = Ok (a, st') → heap st' = heap st.
Proof.
  unfold Attention_init. intros H. inv_run. subst.
  repeat match goal with
  | H : run (Linear_init _ _ _) _ = Ok _ |- _ => apply Linear_init_heap in H
  | H : run (Dropout_init _) _ = Ok _ |- _ => apply Dropout_init_heap in H
  end. congruence.
Qed.

Lemma FeedForward_init_heap d m p st a st' :
  run (FeedForward_init d m p) st = Ok (a, st') → heap st' = heap st.
Proof.
  unfold FeedForward_init. intros H. inv_run. subst.
  repeat match goal with
  | H : run (Linear_init _ _ _) _ = Ok _ |- _ => apply Linear_init_heap in H
  | H : run (Dropout_init _) _ = Ok _ |- _ => apply Dropout_init_heap in H
  end. congruence.
Qed.

Lemma PreNorm_init_heap d f c st p st' :
  run (PreNorm_init d f c) st = Ok (p, st') → st' = st ∧ fn p = f.
Proof.
  unfold PreNorm_init. intros H. inv_run; subst;
  repeat match goal with
  | H : run (LayerNorm_init _) _ = Ok _ |- _ => apply LayerNorm_init_heap in H
  end; subst; done.
Qed.

(** ** Sublayers and freshness *)

Lemma is_sublayer_prefix h h' r : h `prefix_of` h' → is_sublayer h r → is_sublayer h' r.
Proof.
  intros Hp (p & Hr & Hfn & Hin). exists p. split; [|split; [done|]].
  - by eapply prefix_lookup_Some.
  - destruct (h !! fn p) as [o|] eqn:E; [|done].
    by rewrite (prefix_lookup_Some _ _ _ _ E Hp).
Qed.

Lemma fresh_ref_weaken st0 st st' st1 r :
  length (heap st0) ≤ length (heap st) → heap st' `prefix_of` heap st1 →
  fresh_ref st st' r → fresh_ref st0 st1 r.
Proof.
  intros Hle Hp [[? ?] Hs]. pose proof (prefix_length _ _ Hp).
  split; [lia | by eapply is_sublayer_prefix].
Qed.

Lemma factory_alloc st st0 o st1 p st' r :
  heap st0 = heap st →
  st1 = {| heap := heap st0 ++ [o]; rng := rng st0; trace := trace st0 |} →
  st' = {| heap := heap st1 ++ [OPreNorm p]; rng := rng st1; trace := trace st1 |} →
  fn p = length (heap st0) → r = length (heap st1) →
  match o with OAttention _ | OFeedForward _ => True | _ => False end →
  heap st `prefix_of` heap st' ∧ fresh_ref st st' r.
Proof.
  intros H0 -> -> Hfn -> Ho. unfold fresh_ref, is_sublayer. simpl in *.
  rewrite H0 in *.
  split; [by do 2 apply prefix_app_r|].
  split; [rewrite !length_app; simpl; lia|].
  exists p. rewrite Hfn. split; [|split].
  - rewrite lookup_app_r by done. by rewrite Nat.sub_diag.
  - rewrite length_app. simpl. lia.
  - rewrite lookup_app_l by (rewrite length_app; simpl; lia).
    rewrite lookup_app_r by done. rewrite Nat.sub_diag. simpl. by destruct o.
Qed.

Ltac factory_tac :=
  let H := fresh "H" in
  intros ? ? ? H; inv_run;
  repeat match goal with
  | H : run (Attention_init _ _ _ _ _) _ = Ok _ |- _ => apply Attention_init_heap in H
  | H : run (FeedForward_init _ _ _) _ = Ok _ |- _ => apply FeedForward_init_heap in H
  | H : run (PreNorm_init _ _ _) _ = Ok _ |- _ => apply PreNorm_init_heap in H as [-> ?]
  end;
  subst;
  match goal with
  | H0 : heap ?x0 = heap ?st |- heap ?st `prefix_of` _ ∧ _ =>
      eapply (factory_alloc st x0); [exact H0 | reflexivity | reflexivity | done ..]
  end.

Lemma get_cross_attn_factory c d : factory (get_cross_attn c d).
Proof. unfold get_cross_attn. factory_tac. Qed.

Lemma get_cross_ff_factory c : factory (get_cross_ff c).
Proof. unfold get_cross_ff. factory_tac. Qed.

Lemma get_latent_attn_factory c : factory (get_latent_attn c).
Proof. unfold get_latent_attn. factory_tac. Qed.

Lemma get_latent_ff_factory c : factory (get_latent_ff c).
Proof. unfold get_latent_ff. factory_tac. Qed.

(** ** cache_fn *)

Lemma cache_fn_run {A} (f : M A) (b : bool) cache st a cache' st' :
  run (cache_fn f b cache) st = Ok ((a, cache'), st') →
  (b = true ∧ cache = Some a ∧ cache' = cache ∧ st' = st)
  ∨ (run f st = Ok (a, st') ∧ cache' = (if b then Some a else cache)
     ∧ (b = true → cache = None)).
Proof.
  unfold cache_fn. intros H. destruct b; simpl in H.
  - destruct cache as [c|].
    + apply run_ret in H as [[= -> ->] ->]. by left.
    + inv_run. simplify_eq. by right.
  - inv_run. simplify_eq. right. done.
Qed.

(** ** The loops of [Perceiver.__init__] *)

Lemma cached_ok_prefix lo st st' o :
  heap st `prefix_of` heap st' → cached_ok lo st o → cached_ok lo st' o.
Proof.
  intros Hp H r Hr. destruct (H r Hr) as [[? ?] ?].
  pose proof (prefix_length _ _ Hp). split; [lia | by eapply is_sublayer_prefix].
Qed.

Lemma caches_ok_prefix lo st st' cs :
  heap st `prefix_of` heap st' → caches_ok lo st cs → caches_ok lo st' cs.
Proof.
  intros Hp (?&?&?&?). split; [|split; [|split]]; by eapply cached_ok_prefix.
Qed.

Lemma cache_fn_tied f cache st a cache' st' lo :
  factory f → run (cache_fn f true cache) st = Ok ((a, cache'), st') →
  lo ≤ length (heap st) → cached_ok lo st cache →
  cache' = Some a ∧ cache_le cache cache' ∧ heap st `prefix_of` heap st'
  ∧ cached_ok lo st' cache'.
Proof.
  intros Hf H Hlo Hok. apply cache_fn_run in H as [(_ & -> & -> & ->)|(H & -> & Hn)].
  - split; [done|]. split; [by intros ?|]. done.
  - rewrite (Hn eq_refl). destruct (Hf _ _ _ H) as [Hp [[? ?] ?]].
    split; [done|]. split; [done|]. split; [done|].
    intros r [= <-]. split; [lia | done].
Qed.

Lemma cache_fn_untied f cache st a cache' st' :
  factory f → run (cache_fn f false cache) st = Ok ((a, cache'), st') →
  cache' = cache ∧ heap st `prefix_of` heap st' ∧ fresh_ref st st' a.
Proof.
  intros Hf H. apply cache_fn_run in H as [(? & _)|(H & -> & _)]; [done|].
  destruct (Hf _ _ _ H). done.
Qed.

Lemma build_self_attn_run c b acc i st acc1 st1 :
  run (build_self_attn c b acc i) st = Ok (acc1, st1) →
  ∃ la cla st0 lf clf,
    run (cache_fn (get_latent_attn c) b (cache_latent_attn acc.2)) st
      = Ok ((la, cla), st0)
    ∧ run (cache_fn (get_latent_ff c) b (cache_latent_ff acc.2)) st0
      = Ok ((lf, clf), st1)
    ∧ acc1 = (acc.1 ++ [(la, lf)],
              {| cache_cross_attn := cache_cross_attn acc.2;
                 cache_cross_ff := cache_cross_ff acc.2;
                 cache_latent_attn := cla;
                 cache_latent_ff := clf |}).
Proof.
  unfold build_self_attn. intros H. inv_run. simplify_eq. eauto 10.
Qed.

Lemma build_layer_run c d acc i st acc1 st1 :
  run (build_layer c d acc i) st = Ok (acc1, st1) →
  let b := (0 <? i)%Z && weight_tie_layers c in
  ∃ blocks cs st0 ca cca st2 cf ccf,
    run (foldlM (build_self_attn c b) ([], acc.2)
           (py_range (self_per_cross_attn c))) st = Ok ((blocks, cs), st0)
    ∧ run (cache_fn (get_cross_attn c d) b (cache_cross_attn cs)) st0
      = Ok ((ca, cca), st2)
    ∧ run (cache_fn (get_cross_ff c) b (cache_cross_ff cs)) st2
      = Ok ((cf, ccf), st1)
    ∧ acc1 = (acc.1 ++ [{| cross_attn := ca; cross_ff := cf; self_attns := blocks |}],
              {| cache_cross_attn := cca;
                 cache_cross_ff := ccf;
                 cache_latent_attn := cache_latent_attn cs;
                 cache_latent_ff := cache_latent_ff cs |}).
Proof.
  unfold build_layer. intros H. inv_run. simplify_eq. eauto 12.
Qed.

Lemma self_attns_untied c idxs acc st acc' st' :
  run (foldlM (build_self_attn c false) acc idxs) st = Ok (acc', st') →
  acc'.2 = acc.2 ∧ heap st `prefix_of` heap st'
  ∧ ∃ new, acc'.1 = acc.1 ++ new ∧ length new = length idxs
      ∧ Forall (λ b, fresh_ref st st' b.1 ∧ fresh_ref st st' b.2) new.
Proof.
  revert acc st. induction idxs as [|i idxs IH]; intros acc st H; simpl in H.
  - apply run_ret in H as [<- <-]. split; [done|]. split; [done|].
    exists []. by rewrite app_nil_r.
  - apply run_bind in H as (acc1 & st1 & H1 & H).
    apply build_self_attn_run in H1 as (la & cla & st0 & lf & clf & H1 & H2 & ->).
    apply cache_fn_untied in H1 as (-> & Hp1 & Hf1); [|apply get_latent_attn_factory].
    apply cache_fn_untied in H2 as (-> & Hp2 & Hf2); [|apply get_latent_ff_factory].
    apply IH in H as (Hc & Hp & new & Hl & Hlen & Hall). simpl in *.
    assert (Hp12 : heap st `prefix_of` heap st1) by by etrans.
    split; [by destruct acc as [? []]; simpl in *|]. split; [by etrans|].
    eexists (_ :: new). rewrite Hl, <- app_assoc. split; [done|].
    split; [simpl; by rewrite Hlen|]. constructor.
    + split; simpl.
      * apply (fresh_ref_weaken st st st0 st'); [done | by etrans | done].
      * apply (fresh_ref_weaken st st0 st1 st'); [by apply prefix_length | done | done].
    + eapply Forall_impl; [exact Hall|]. intros b [? ?].
      split; apply (fresh_ref_weaken st st1 st' st'); try done;
        by apply prefix_length.
Qed.

Lemma caches_le_refl cs : caches_le cs cs.
Proof. split; [|split; [|split]]; by intros ?. Qed.

Lemma self_attns_tied c idxs acc st acc' st' lo :
  run (foldlM (build_self_attn c true) acc idxs) st = Ok (acc', st') →
  lo ≤ length (heap st) → caches_ok lo st acc.2 →
  heap st `prefix_of` heap st' ∧ caches_le acc.2 acc'.2 ∧ caches_ok lo st' acc'.2
  ∧ cache_cross_attn acc'.2 = cache_cross_attn acc.2
  ∧ cache_cross_ff acc'.2 = cache_cross_ff acc.2
  ∧ ∃ new, acc'.1 = acc.1 ++ new ∧ length new = length idxs
      ∧ Forall (λ b, cache_latent_attn acc'.2 = Some b.1
                     ∧ cache_latent_ff acc'.2 = Some b.2) new.
Proof.
  revert acc st. induction idxs as [|i idxs IH]; intros acc st H Hlo Hok; simpl in H.
  - apply run_ret in H as [<- <-]. split; [done|].
    split; [apply caches_le_refl|]. split; [done|]. split; [done|]. split; [done|].
    exists []. by rewrite app_nil_r.
  - apply run_bind in H as (acc1 & st1 & H1 & H).
    apply build_self_attn_run in H1 as (la & cla & st0 & lf & clf & H1 & H2 & ->).
    destruct Hok as (Hca & Hcf & Hla & Hlf).
    eapply cache_fn_tied in H1 as (-> & Hle1 & Hp1 & Hok1);
      [|apply get_latent_attn_factory|exact Hlo|exact Hla].
    pose proof (prefix_length _ _ Hp1) as Hlen1.
    eapply cache_fn_tied in H2 as (-> & Hle2 & Hp2 & Hok2);
      [|apply get_latent_ff_factory| |eapply cached_ok_prefix; [exact Hp1|exact Hlf]];
      [|lia].
    pose proof (prefix_length _ _ Hp2) as Hlen2.
    assert (Hp12 : heap st `prefix_of` heap st1) by by etrans.
    apply (IH _ _) in H as (Hp & Hle & Hok & Eca & Ecf & new & Hl & Hlen & Hall);
      [|simpl; lia|]; simpl in *.
    2:{ split; [|split; [|split]]; simpl.
        - exact (cached_ok_prefix _ _ _ _ Hp12 Hca).
        - exact (cached_ok_prefix _ _ _ _ Hp12 Hcf).
        - exact (cached_ok_prefix _ _ _ _ Hp2 Hok1).
        - done. }
    destruct Hle as (L1 & L2 & L3 & L4). simpl in *.
    split; [by etrans|]. split.
    { split; [done|]. split; [done|]. split.
      - intros r Hr. apply L3, Hle1, Hr.
      - intros r Hr. apply L4, Hle2, Hr. }
    split; [done|]. split; [done|]. split; [done|].
    exists ((la, lf) :: new). rewrite Hl, <- app_assoc. split; [done|].
    split; [simpl; by rewrite Hlen|]. constructor; [|done]. simpl.
    split; [by apply L3 | by apply L4].
Qed.

Lemma length_py_range n : length (py_range n) = Z.to_nat n.
Proof. unfold py_range. by rewrite length_map, length_seq. Qed.

Lemma build_layer_tied c d acc i st acc' st' lo :
  run (build_layer c d acc i) st = Ok (acc', st') →
  (0 <? i)%Z && weight_tie_layers c = true →
  lo ≤ length (heap st) → caches_ok lo st acc.2 →
  heap st `prefix_of` heap st' ∧ caches_le acc.2 acc'.2 ∧ caches_ok lo st' acc'.2
  ∧ ∃ l, acc'.1 = acc.1 ++ [l] ∧ layer_cached acc'.2 l
      ∧ length (self_attns l) = Z.to_nat (self_per_cross_attn c).
Proof.
  intros H Hb Hlo Hok. apply build_layer_run in H. simpl in H. rewrite Hb in H.
  destruct H as (blocks & cs & st0 & ca & cca & st2 & cf & ccf & H1 & H2 & H3 & ->).
  eapply self_attns_tied in H1 as (Hp1 & Hle & Hok1 & Eca & Ecf & new & Hl & Hlen & Hall);
    [|exact Hlo|exact Hok]. simpl in *. subst blocks.
  destruct Hok1 as (Hca & Hcf & Hla & Hlf).
  pose proof (prefix_length _ _ Hp1) as Hlen1.
  eapply cache_fn_tied in H2 as (-> & Hle2 & Hp2 & Hok2);
    [|apply get_cross_attn_factory| |exact Hca]; [|lia].
  pose proof (prefix_length _ _ Hp2) as Hlen2.
  eapply cache_fn_tied in H3 as (-> & Hle3 & Hp3 & Hok3);
    [|apply get_cross_ff_factory| |eapply cached_ok_prefix; [exact Hp2|exact Hcf]];
    [|lia].
  assert (Hp23 : heap st0 `prefix_of` heap st') by by etrans.
  destruct Hle as (L1 & L2 & L3 & L4).
  split; [by etrans|]. split.
  { split; [|split; [|split]]; simpl; [|  |done|done].
    - intros r Hr. apply Hle2, L1, Hr.
    - intros r Hr. apply Hle3, L2, Hr. }
  split.
  { split; [|split; [|split]]; simpl.
    - exact (cached_ok_prefix _ _ _ _ Hp3 Hok2).
    - done.
    - exact (cached_ok_prefix _ _ _ _ Hp23 Hla).
    - exact (cached_ok_prefix _ _ _ _ Hp23 Hlf). }
  eexists. split; [done|]. split; [|simpl; by rewrite Hlen, length_py_range].
  split; [done|]. split; [done|]. done.
Qed.

Lemma build_layer_untied c d acc i st acc' st' :
  run (build_layer c d acc i) st = Ok (acc', st') →
  (0 <? i)%Z && weight_tie_layers c = false →
  acc'.2 = acc.2 ∧ heap st `prefix_of` heap st'
  ∧ ∃ l, acc'.1 = acc.1 ++ [l] ∧ Forall (fresh_ref st st') (layer_refs l)
      ∧ length (self_attns l) = Z.to_nat (self_per_cross_attn c).
Proof.
  intros H Hb. apply build_layer_run in H. simpl in H. rewrite Hb in H.
  destruct H as (blocks & cs & st0 & ca & cca & st2 & cf & ccf & H1 & H2 & H3 & ->).
  apply self_attns_untied in H1 as (Hc & Hp1 & new & Hl & Hlen & Hall).
  simpl in *. subst blocks cs.
  apply cache_fn_untied in H2 as (-> & Hp2 & Hf2); [|apply get_cross_attn_factory].
  apply cache_fn_untied in H3 as (-> & Hp3 & Hf3); [|apply get_cross_ff_factory].
  pose proof (prefix_length _ _ Hp1). pose proof (prefix_length _ _ Hp2).
  split; [by destruct acc as [? []]|]. split; [by do 2 (etrans; [|done])|].
  eexists. split; [done|]. split; [|simpl; by rewrite Hlen, length_py_range].
  unfold layer_refs. simpl. constructor; [|constructor].
  - apply (fresh_ref_weaken st st0 st2 st'); [done..|done].
  - apply (fresh_ref_weaken st st2 st' st'); [lia|done|done].
  - apply Forall_flat_map. eapply Forall_impl; [exact Hall|]. intros b [? ?].
    assert (heap st0 `prefix_of` heap st') by by etrans.
    constructor; [|constructor; [|constructor]];
      by apply (fresh_ref_weaken st st st0 st').
Qed.

Lemma layer_cached_le cs cs' l : caches_le cs cs' → layer_cached cs l → layer_cached cs' l.
Proof.
  intros (L1 & L2 & L3 & L4) (H1 & H2 & H3).
  split; [by apply L1|]. split; [by apply L2|].
  eapply Forall_impl; [exact H3|]. intros b [? ?]. split; [by apply L3 | by apply L4].
Qed.

Lemma layers_tied c d idxs acc st acc' st' lo pre tl :
  let ok cs l := layer_cached cs l
                 ∧ length (self_attns l) = Z.to_nat (self_per_cross_attn c) in
  run (foldlM (build_layer c d) acc idxs) st = Ok (acc', st') →
  weight_tie_layers c = true → Forall (λ i, (0 < i)%Z) idxs →
  lo ≤ length (heap st) → caches_ok lo st acc.2 →
  acc.1 = pre ++ tl → Forall (ok acc.2) tl →
  heap st `prefix_of` heap st' ∧ caches_ok lo st' acc'.2
  ∧ ∃ tl', acc'.1 = pre ++ tl' ∧ Forall (ok acc'.2) tl'
      ∧ length tl' = length tl + length idxs.
Proof.
  intros ok H Htie Hpos. revert acc st tl H.
  induction Hpos as [|i idxs Hi Hpos IH]; intros acc st tl H Hlo Hok Hacc Htl; simpl in H.
  - apply run_ret in H as [<- <-]. split; [done|]. split; [done|].
    exists tl. split; [done|]. split; [done|]. simpl. lia.
  - apply run_bind in H as (acc1 & st1 & H1 & H).
    eapply build_layer_tied in H1 as (Hp1 & Hle1 & Hok1 & l & Hl & Hc & Hn);
      [| |exact Hlo|exact Hok].
    2:{ rewrite Htie. apply andb_true_iff. split; [lia|done]. }
    pose proof (prefix_length _ _ Hp1).
    eapply (IH _ _ (tl ++ [l])) in H as (Hp & Hok' & tl' & Hl' & Hall & Hlen);
      [|lia|exact Hok1|by rewrite Hl, Hacc, <- app_assoc|].
    2:{ apply Forall_app. split; [|by constructor].
        eapply Forall_impl; [exact Htl|]. intros ? [? ?].
        split; [by eapply layer_cached_le | done]. }
    split; [by etrans|]. split; [done|]. exists tl'. split; [done|]. split; [done|].
    rewrite length_app in Hlen. simpl in *. lia.
Qed.

Lemma staged_le lo hi ls : staged lo hi ls → lo ≤ hi.
Proof.
  revert lo. induction ls as [|l ls IH]; intros lo; simpl; [done|].
  intros (mid & _ & ? & H). apply IH in H. lia.
Qed.

Lemma staged_bounds lo hi ls l r :
  staged lo hi ls → l ∈ ls → r ∈ layer_refs l → lo ≤ r < hi.
Proof.
  revert lo. induction ls as [|l' ls IH]; intros lo H Hl Hr; [by inversion Hl|].
  destruct H as (mid & Hall & Hle & H). pose proof (staged_le _ _ _ H).
  apply elem_of_cons in Hl as [->|Hl].
  - rewrite Forall_forall in Hall. specialize (Hall _ Hr). lia.
  - specialize (IH _ H Hl Hr). lia.
Qed.

Lemma staged_lt lo hi ls i j li lj r r' :
  staged lo hi ls → ls !! i = Some li → ls !! j = Some lj → i < j →
  r ∈ layer_refs li → r' ∈ layer_refs lj → r < r'.
Proof.
  revert lo i j. induction ls as [|l ls IH]; intros lo i j H Hi Hj Hlt Hr Hr'; [done|].
  destruct H as (mid & Hall & Hle & H).
  destruct j as [|j]; [lia|]. simpl in Hj.
  destruct i as [|i]; simpl in Hi.
  - simplify_eq. rewrite Forall_forall in Hall. specialize (Hall _ Hr).
    assert (mid ≤ r' < hi); [|lia].
    eapply staged_bounds; [exact H| |exact Hr']. by eapply list_elem_of_lookup_2.
  - eapply (IH mid i j); eauto. lia.
Qed.

Lemma staged_weaken lo lo' hi ls : lo' ≤ lo → staged lo hi ls → staged lo' hi ls.
Proof.
  destruct ls as [|l ls]; simpl; [lia|].
  intros Hle (mid & Hall & ? & H). exists mid. split; [|split; [lia|done]].
  eapply Forall_impl; [exact Hall|]. simpl. lia.
Qed.

Lemma staged_weaken_hi lo hi hi' ls : hi ≤ hi' → staged lo hi ls → staged lo hi' ls.
Proof.
  intros Hle. revert lo. induction ls as [|l ls IH]; intros lo; simpl; [lia|].
  intros (mid & ? & ? & H). exists mid. split; [done|]. split; [done|]. by apply IH.
Qed.

Lemma layers_untied c d idxs acc st acc' st' :
  let ok h l := Forall (is_sublayer h) (layer_refs l)
                ∧ length (self_attns l) = Z.to_nat (self_per_cross_attn c) in
  run (foldlM (build_layer c d) acc idxs) st = Ok (acc', st') →
  weight_tie_layers c = false →
  acc'.2 = acc.2 ∧ heap st `prefix_of` heap st'
  ∧ ∃ new, acc'.1 = acc.1 ++ new ∧ length new = length idxs
      ∧ staged (length (heap st)) (length (heap st')) new
      ∧ Forall (ok (heap st')) new.
Proof.
  intros ok H Htie. revert acc st H.
  induction idxs as [|i idxs IH]; intros acc st H; simpl in H.
  - apply run_ret in H as [<- <-]. split; [done|]. split; [done|].
    exists []. rewrite app_nil_r. split; [done|]. split; [done|].
    split; [simpl; lia | constructor].
  - apply run_bind in H as (acc1 & st1 & H1 & H).
    apply build_layer_untied in H1 as (Hc1 & Hp1 & l & Hl & Hfresh & Hn);
      [|by rewrite Htie, andb_false_r].
    apply IH in H as (Hc & Hp & new & Hnew & Hlen & Hst & Hall).
    split; [congruence|]. split; [by etrans|].
    exists (l :: new). rewrite Hnew, Hl, <- app_assoc. split; [done|].
    split; [simpl; by rewrite Hlen|]. split.
    + exists (length (heap st1)). split; [|split; [by apply prefix_length | done]].
      eapply Forall_impl; [exact Hfresh|]. by intros r [? _].
    + constructor; [|done]. split; [|done].
      eapply Forall_impl; [exact Hfresh|]. intros r [_ ?].
      by eapply is_sublayer_prefix.
Qed.

Lemma randn_heap r c st w st' : run (randn r c) st = Ok (w, st') → heap st' = heap st.
Proof.
  unfold randn. intros H. inv_run. by apply draw_mat_heap in H as [? _].
Qed.

Lemma Perceiver_init_run c st self st' :
  run (Perceiver_init c) st = Ok (self, st') →
  ∃ d st0 cs st1,
    heap st `prefix_of` heap st0
    ∧ run (foldlM (build_layer c d) ([], no_caches) (py_range (depth c))) st0
      = Ok ((layers self, cs), st1)
    ∧ heap st1 `prefix_of` heap st'.
Proof.
  unfold Perceiver_init. intros H. inv_run. simplify_eq. simpl.
  repeat match goal with
  | H : run (randn _ _) _ = Ok _ |- _ => apply randn_heap in H
  | H : run (LayerNorm_init _) _ = Ok _ |- _ => apply LayerNorm_init_heap in H
  | H : run (Linear_init _ _ _) _ = Ok _ |- _ => apply Linear_init_heap in H
  end.
  do 4 eexists. split; [|split; [eassumption|]].
  - simpl. match goal with H : heap _ = heap st |- _ => rewrite H end.
    by apply prefix_app_r.
  - simpl. subst. match goal with H : heap _ = heap _ |- _ => rewrite H end.
    by apply prefix_app_r.
Qed.

Lemma py_range_pos n :
  Z.to_nat n ≠ 0 →
  ∃ rest, py_range n = 0%Z :: rest ∧ Forall (λ i, (0 < i)%Z) rest
          ∧ length rest = pred (Z.to_nat n).
Proof.
  unfold py_range. destruct (Z.to_nat n) as [|k]; [done|]. intros _.
  exists (map Z.of_nat (seq 1 k)). split; [done|]. split.
  - apply Forall_forall. intros i Hi. apply list_elem_of_fmap in Hi as (j & -> & Hj).
    apply elem_of_seq in Hj. lia.
  - by rewrite length_map, length_seq.
Qed.

Lemma caches_ok_none lo st : caches_ok lo st no_caches.
Proof. split; [|split; [|split]]; by intros r. Qed.

Lemma init_layers_tied c st self st' :
  let n := Z.to_nat (self_per_cross_attn c) in
  run (Perceiver_init c) st = Ok (self, st') → weight_tie_layers c = true →
  length (layers self) = Z.to_nat (depth c)
  ∧ (layers self = []
     ∨ ∃ l0 tl cs lo,
         layers self = l0 :: tl
         ∧ Forall (λ r, r < lo ∧ is_sublayer (heap st') r) (layer_refs l0)
         ∧ length (self_attns l0) = n
         ∧ caches_ok lo st' cs
         ∧ Forall (λ l, layer_cached cs l ∧ length (self_attns l) = n) tl).
Proof.
  intros n H Htie.
  apply Perceiver_init_run in H as (d & st0 & cs & st1 & Hp0 & H & Hp1).
  destruct (decide (Z.to_nat (depth c) = 0)) as [E|E].
  { unfold py_range in H. rewrite E in H. simpl in H.
    apply run_ret in H as [[= <- _] _]. split; [by rewrite E | by left]. }
  destruct (py_range_pos _ E) as (rest & Hr & Hpos & Hlen). rewrite Hr in H.
  simpl in H. apply run_bind in H as (acc1 & stA & H1 & H).
  apply build_layer_untied in H1 as (Hc1 & HpA & l0 & Hl0 & Hfresh & Hn); [|done].
  simpl in *.
  eapply (layers_tied _ _ _ _ _ _ _ (length (heap stA)) [l0] []) in H
    as (Hp & Hok & tl & Htl & Hall & Hlen');
    [|done|done|done|rewrite Hc1; apply caches_ok_none|by rewrite Hl0|constructor].
  simpl in *. rewrite Htl. split; [simpl; lia|]. right.
  exists l0, tl, cs, (length (heap stA)). split; [done|].
  assert (heap stA `prefix_of` heap st') by by do 2 (etrans; [|done]).
  split; [|split; [done|split; [|done]]].
  - eapply Forall_impl; [exact Hfresh|]. intros r [[? ?] ?].
    split; [done | by eapply is_sublayer_prefix].
  - exact (caches_ok_prefix _ _ _ _ Hp1 Hok).
Qed.

Lemma init_layers_untied c st self st' :
  run (Perceiver_init c) st = Ok (self, st') → weight_tie_layers c = false →
  length (layers self) = Z.to_nat (depth c)
  ∧ (∃ lo, staged lo (length (heap st')) (layers self))
  ∧ Forall (λ l, Forall (is_sublayer (heap st')) (layer_refs l)
                 ∧ length (self_attns l) = Z.to_nat (self_per_cross_attn c))
           (layers self).
Proof.
  intros H Htie.
  apply Perceiver_init_run in H as (d & st0 & cs & st1 & Hp0 & H & Hp1).
  apply layers_untied in H as (_ & Hp & new & Hnew & Hlen & Hst & Hall); [|done].
  simpl in *. subst new. split; [by rewrite Hlen, length_py_range|]. split.
  - exists (length (heap st0)).
    eapply staged_weaken_hi; [by apply prefix_length | done].
  - eapply Forall_impl; [exact Hall|]. intros l [Hs ?]. split; [|done].
    eapply Forall_impl; [exact Hs|]. intros r ?. by eapply is_sublayer_prefix.
Qed.

Lemma is_sublayer_instance h r :
  is_sublayer h r → ∃ a, instance_of h r = Some a ∧ r = S a ∧ is_Some (h !! a).
Proof.
  intros (p & Hr & -> & Hin). exists (fn p). unfold instance_of. rewrite Hr.
  split; [done|]. split; [done|]. destruct (h !! fn p); [by eexists | done].
Qed.

Lemma sublayers_distinct h r r' :
  is_sublayer h r → is_sublayer h r' → r ≠ r' →
  ∃ a a', instance_of h r = Some a ∧ instance_of h r' = Some a' ∧ a ≠ a'
          ∧ is_Some (h !! a) ∧ is_Some (h !! a').
Proof.
  intros (a & Ha & -> & ?)%is_sublayer_instance (a' & Ha' & -> & ?)%is_sublayer_instance Hne.
  exists a, a'. repeat split; try done. congruence.
Qed.

Lemma layer_cached_refs lo st cs l :
  layer_cached cs l → caches_ok lo st cs →
  Forall (λ r, lo ≤ r ∧ is_sublayer (heap st) r) (layer_refs l).
Proof.
  intros (H1 & H2 & H3) (O1 & O2 & O3 & O4). unfold layer_refs.
  constructor; [|constructor].
  - destruct (O1 _ H1) as [[? ?] ?]. done.
  - destruct (O2 _ H2) as [[? ?] ?]. done.
  - apply Forall_flat_map. eapply Forall_impl; [exact H3|]. intros b [Ha Hf].
    destruct (O3 _ Ha) as [[? ?] ?]. destruct (O4 _ Hf) as [[? ?] ?].
    constructor; [|constructor; [|constructor]]; done.
Qed.

Lemma block_attn_in_layer (b : nat * nat) l : b ∈ self_attns l → b.1 ∈ layer_refs l.
Proof.
  intros Hb. unfold layer_refs. apply list_elem_of_In. right. right.
  apply in_flat_map. exists b. split; [by apply list_elem_of_In | by left].
Qed.

(** C1 (amended): with [weight_tie_layers], the depth position 0 holds
    instances of its own, and every depth position [i >= 1] holds, for every
    role and every one of its self-attention blocks, the instance of
    position 1: the factories start to cache at index 1. *)
Theorem weight_tie_reuses_second_position c st self st' :
  run (Perceiver_init c) st = Ok (self, st') → weight_tie_layers c = true →
  ∀ i li, 1 ≤ i → layers self !! i = Some li →
    (∀ l1, layers self !! 1 = Some l1 →
       cross_attn li = cross_attn l1 ∧ cross_ff li = cross_ff l1
       ∧ ∀ b b1, b ∈ self_attns li → b1 ∈ self_attns l1 → b = b1)
    ∧ (∀ l0 r0 r, layers self !! 0 = Some l0 →
         r0 ∈ layer_refs l0 → r ∈ layer_refs li →
         r0 ≠ r
         ∧ ∃ a0 a, instance_of (heap st') r0 = Some a0
                   ∧ instance_of (heap st') r = Some a ∧ a0 ≠ a).
Proof.
  intros H Htie i li Hi Hli.
  destruct (init_layers_tied _ _ _ _ H Htie) as [_ [E|(l0 & tl & cs & lo & E & H0 & _ & Hok & Hall)]];
    [by rewrite E in Hli|].
  rewrite E in *. destruct i as [|i]; [lia|]. simpl in Hli.
  rewrite Forall_forall in Hall.
  destruct (Hall li) as [Hc _]; [by eapply list_elem_of_lookup_2|].
  split.
  - intros l1 Hl1. simpl in Hl1.
    destruct (Hall l1) as [(C1 & C2 & C3) _]; [by eapply list_elem_of_lookup_2|].
    destruct Hc as (D1 & D2 & D3).
    split; [congruence|]. split; [congruence|]. intros [a f] [a1 f1] Hb Hb1.
    rewrite Forall_forall in C3, D3.
    destruct (D3 _ Hb), (C3 _ Hb1). simpl in *. congruence.
  - intros ? r0 r [= <-] Hr0 Hr.
    pose proof (layer_cached_refs _ _ _ _ Hc Hok) as Hrefs.
    rewrite Forall_forall in Hrefs, H0.
    destruct (Hrefs _ Hr) as [? Hs]. destruct (H0 _ Hr0) as [? Hs0].
    assert (r0 ≠ r) by lia. split; [done|].
    destruct (sublayers_distinct _ _ _ Hs0 Hs) as (a0 & a & ? & ? & ? & _); eauto.
Qed.

(** C7: when they exist, the latent attention at depth index 1 and the one
    at depth index 2 are one instance under [weight_tie_layers] (what a
    mutation of the one writes is read through the other), and two
    instances without it (a mutation of the one leaves the other as it is). *)
Theorem latent_attention_sharing c st self st' l1 l2 b1 b2 :
  run (Perceiver_init c) st = Ok (self, st') → (1 < depth c)%Z →
  layers self !! 1 = Some l1 → layers self !! 2 = Some l2 →
  b1 ∈ self_attns l1 → b2 ∈ self_attns l2 →
  ∃ a1 a2,
    instance_of (heap st') b1.1 = Some a1 ∧ instance_of (heap st') b2.1 = Some a2
    ∧ is_Some (heap st' !! a1) ∧ is_Some (heap st' !! a2)
    ∧ (weight_tie_layers c = true →
         b1.1 = b2.1 ∧ a1 = a2
         ∧ ∀ f, alter f a1 (heap st') !! a2 = f <$> heap st' !! a2)
    ∧ (weight_tie_layers c = false →
         b1.1 ≠ b2.1 ∧ a1 ≠ a2
         ∧ ∀ f, alter f a1 (heap st') !! a2 = heap st' !! a2).
Proof.
  intros H _ Hl1 Hl2 Hb1 Hb2.
  pose proof (block_attn_in_layer _ _ Hb1) as Hr1.
  pose proof (block_attn_in_layer _ _ Hb2) as Hr2.
  destruct (weight_tie_layers c) eqn:Htie.
  - destruct (init_layers_tied _ _ _ _ H Htie)
      as [_ [E|(l0 & tl & cs & lo & E & H0 & _ & Hok & Hall)]];
      [by rewrite E in Hl1|].
    rewrite E in *. simpl in Hl1, Hl2. rewrite Forall_forall in Hall.
    destruct (Hall l1) as [Hc1 _]; [by eapply list_elem_of_lookup_2|].
    destruct (Hall l2) as [Hc2 _]; [by eapply list_elem_of_lookup_2|].
    pose proof (layer_cached_refs _ _ _ _ Hc1 Hok) as Hrefs.
    rewrite Forall_forall in Hrefs. destruct (Hrefs _ Hr1) as [_ Hs].
    destruct Hc1 as (_ & _ & C1). destruct Hc2 as (_ & _ & C2).
    rewrite Forall_forall in C1, C2.
    destruct (C1 _ Hb1) as [E1 _]. destruct (C2 _ Hb2) as [E2 _].
    assert (Heq : b1.1 = b2.1) by congruence.
    destruct (is_sublayer_instance _ _ Hs) as (a & Ha & _ & Hsome).
    exists a, a. rewrite <- Heq. split; [done|]. split; [done|].
    split; [done|]. split; [done|]. split; [|done]. intros _.
    split; [done|]. split; [done|]. intros f. apply list_lookup_alter_eq.
  - destruct (init_layers_untied _ _ _ _ H Htie) as (_ & [lo Hst] & Hall).
    rewrite Forall_forall in Hall.
    destruct (Hall l1) as [Hs1 _]; [by eapply list_elem_of_lookup_2|].
    destruct (Hall l2) as [Hs2 _]; [by eapply list_elem_of_lookup_2|].
    rewrite Forall_forall in Hs1, Hs2.
    assert (b1.1 < b2.1) by (eapply (staged_lt _ _ _ 1 2); eauto).
    destruct (sublayers_distinct _ _ _ (Hs1 _ Hr1) (Hs2 _ Hr2))
      as (a1 & a2 & ? & ? & ? & ? & ?); [lia|].
    exists a1, a2. split; [done|]. split; [done|]. split; [done|]. split; [done|].
    split; [done|]. intros _. split; [lia|]. split; [done|].
    intros f. by apply list_lookup_alter_ne.
Qed.

End Construction.

Section Validation.
Context {rt : Runtime} {rot : Rotary}.

(** ** What the constructor accepts *)

Lemma succeeds_ret {A} (a : A) : succeeds (mret a).
Proof. intros st. by exists a, st. Qed.

Lemma succeeds_bind {A B} (m : M A) (f : A → M B) :
  succeeds m → (∀ a, succeeds (f a)) → succeeds (m ≫= f).
Proof.
  intros Hm Hf st. destruct (Hm st) as (a & st1 & H1).
  destruct (Hf a st1) as (b & st2 & H2). exists b, st2.
  apply run_bind. eauto.
Qed.

Lemma succeeds_alloc o : succeeds (alloc o).
Proof. intros st. by eexists _, _. Qed.

Lemma succeeds_draw_mat n m : succeeds (draw_mat n m).
Proof. intros st. by eexists _, _. Qed.

Lemma succeeds_draw_vec n : succeeds (draw_vec n).
Proof. intros st. by eexists _, _. Qed.

Lemma succeeds_foldlM {A B} (f : A → B → M A) a l :
  (∀ a b, succeeds (f a b)) → succeeds (foldlM f a l).
Proof.
  intros Hf. revert a. induction l as [|b l IH]; intros a; simpl.
  - apply succeeds_ret.
  - apply succeeds_bind; [apply Hf | intros; apply IH].
Qed.

Lemma succeeds_cache_fn {A} (f : M A) b cache : succeeds f → succeeds (cache_fn f b cache).
Proof.
  intros Hf. unfold cache_fn. destruct b; simpl.
  - destruct cache; [apply succeeds_ret|].
    apply succeeds_bind; [done | intros; apply succeeds_ret].
  - apply succeeds_bind; [done | intros; apply succeeds_ret].
Qed.

Lemma sizes_ok_2 a b : (0 ≤ a)%Z → (0 ≤ b)%Z → sizes_ok [a; b] = true.
Proof. intros. unfold sizes_ok. simpl. rewrite !andb_true_iff. lia. Qed.

Lemma sizes_ok_1 a : (0 ≤ a)%Z → sizes_ok [a] = true.
Proof. intros. unfold sizes_ok. simpl. rewrite !andb_true_iff. lia. Qed.

Lemma succeeds_randn r c : (0 ≤ r)%Z → (0 ≤ c)%Z → succeeds (randn r c).
Proof. intros. unfold randn. rewrite sizes_ok_2 by done. apply succeeds_draw_mat. Qed.

Lemma succeeds_LayerNorm_init d : (0 ≤ d)%Z → succeeds (LayerNorm_init d).
Proof. intros. unfold LayerNorm_init. rewrite sizes_ok_1 by done. apply succeeds_ret. Qed.

Lemma succeeds_Linear_init i o b :
  (0 ≤ i)%Z → (0 ≤ o)%Z → succeeds (Linear_init i o b).
Proof.
  intros. unfold Linear_init. rewrite sizes_ok_2 by done.
  apply succeeds_bind; [apply succeeds_draw_mat|]. intros w.
  apply succeeds_bind; [|intros; apply succeeds_ret].
  destruct b; [|apply succeeds_ret].
  apply succeeds_bind; [apply succeeds_draw_vec | intros; apply succeeds_ret].
Qed.

Lemma succeeds_Dropout_init p : (0 <= p)%Q → (p <= 1)%Q → succeeds (Dropout_init p).
Proof.
  intros H0 H1. unfold Dropout_init.
  apply Qle_bool_iff in H0, H1. rewrite H0, H1. apply succeeds_ret.
Qed.

Lemma succeeds_Attention_init q c h d p :
  (0 ≤ q)%Z → (0 ≤ default q c)%Z → d ≠ 0%Z → (0 ≤ d * h)%Z →
  (0 <= p)%Q → (p <= 1)%Q → succeeds (Attention_init q c h d p).
Proof.
  intros. unfold Attention_init.
  destruct (Z.eqb_spec d 0) as [|_]; [done|].
  repeat (apply succeeds_bind; [|intros]);
    try apply succeeds_ret; try apply succeeds_Linear_init;
    try apply succeeds_Dropout_init; try done; lia.
Qed.

Lemma succeeds_FeedForward_init d p :
  (0 ≤ d)%Z → (0 <= p)%Q → (p <= 1)%Q → succeeds (FeedForward_init d 4 p).
Proof.
  intros. unfold FeedForward_init.
  repeat (apply succeeds_bind; [|intros]);
    try apply succeeds_ret; try apply succeeds_Linear_init;
    try apply succeeds_Dropout_init; try done; lia.
Qed.

Lemma succeeds_PreNorm_init d f c :
  (0 ≤ d)%Z → (∀ x, c = Some x → (0 ≤ x)%Z) → succeeds (PreNorm_init d f c).
Proof.
  intros Hd Hc. unfold PreNorm_init.
  apply succeeds_bind; [by apply succeeds_LayerNorm_init|]. intros n.
  apply succeeds_bind; [|intros; apply succeeds_ret].
  destruct c as [x|]; [|apply succeeds_ret].
  apply succeeds_bind; [apply succeeds_LayerNorm_init; by apply Hc|].
  intros; apply succeeds_ret.
Qed.

Lemma succeeds_sublayer {T} (init : M T) (wrap : T → Obj) d c :
  succeeds init → (0 ≤ d)%Z → (∀ x, c = Some x → (0 ≤ x)%Z) →
  succeeds (a ← init; fn ← alloc (wrap a); p ← PreNorm_init d fn c; alloc (OPreNorm p)).
Proof.
  intros Hi Hd Hc.
  apply succeeds_bind; [done|]. intros a.
  apply succeeds_bind; [apply succeeds_alloc|]. intros fn.
  apply succeeds_bind; [by apply succeeds_PreNorm_init|]. intros p.
  apply succeeds_alloc.
Qed.

Lemma succeeds_build_self_attn c b acc i :
  (0 ≤ latent_dim c)%Z → latent_dim_head c ≠ 0%Z →
  (0 ≤ latent_dim_head c * latent_heads c)%Z →
  (0 <= attn_dropout c)%Q → (attn_dropout c <= 1)%Q →
  (0 <= ff_dropout c)%Q → (ff_dropout c <= 1)%Q →
  succeeds (build_self_attn c b acc i).
Proof.
  intros. unfold build_self_attn.
  apply succeeds_bind.
  { apply succeeds_cache_fn, succeeds_sublayer; [|done..].
    by apply succeeds_Attention_init. }
  intros [la cla]. apply succeeds_bind; [|intros [lf clf]; apply succeeds_ret].
  apply succeeds_cache_fn, succeeds_sublayer; [|done..].
  by apply succeeds_FeedForward_init.
Qed.

Lemma py_range_nil n : (n ≤ 0)%Z → py_range n = [].
Proof. intros. unfold py_range. by replace (Z.to_nat n) with 0 by lia. Qed.

Lemma succeeds_build_layer c d acc i :
  (0 ≤ latent_dim c)%Z → (0 ≤ d)%Z →
  cross_dim_head c ≠ 0%Z → (0 ≤ cross_dim_head c * cross_heads c)%Z →
  (0 <= attn_dropout c)%Q → (attn_dropout c <= 1)%Q →
  (0 <= ff_dropout c)%Q → (ff_dropout c <= 1)%Q →
  ((1 ≤ self_per_cross_attn c)%Z →
     latent_dim_head c ≠ 0%Z ∧ (0 ≤ latent_dim_head c * latent_heads c)%Z) →
  succeeds (build_layer c d acc i).
Proof.
  intros Hl Hd Hc1 Hc2 Ha0 Ha1 Hf0 Hf1 Hs. unfold build_layer.
  apply succeeds_bind.
  { destruct (Z.le_gt_cases 1 (self_per_cross_attn c)) as [Hge|Hlt].
    - destruct (Hs Hge). apply succeeds_foldlM. intros.
      by apply succeeds_build_self_attn.
    - rewrite py_range_nil by lia. apply succeeds_ret. }
  intros [blocks caches]. apply succeeds_bind.
  { apply succeeds_cache_fn, succeeds_sublayer; [|done|by intros ? [= <-]].
    by apply succeeds_Attention_init. }
  intros [ca cca]. apply succeeds_bind; [|intros [cf ccf]; apply succeeds_ret].
  apply succeeds_cache_fn, succeeds_sublayer; [|done..].
  by apply succeeds_FeedForward_init.
Qed.

Lemma succeeds_Perceiver_init c : allocatable c → succeeds (Perceiver_init c).
Proof.
  intros (Hn & Hl & Hk & Hd). unfold Perceiver_init.
  apply succeeds_bind; [by apply succeeds_randn|]. intros w.
  apply succeeds_bind; [apply succeeds_alloc|]. intros latents.
  apply succeeds_bind.
  { destruct (Z.le_gt_cases 1 (depth c)) as [Hge|Hlt].
    - destruct (Hd Hge) as (? & ? & ? & ? & ? & ? & ? & ?).
      apply succeeds_foldlM. intros. by apply succeeds_build_layer.
    - rewrite py_range_nil by lia. apply succeeds_ret. }
  intros [layers caches].
  apply succeeds_bind; [by apply succeeds_LayerNorm_init|]. intros ln.
  apply succeeds_bind; [by apply succeeds_Linear_init|]. intros lin.
  apply succeeds_bind; [apply succeeds_alloc|]. intros to_logits.
  apply succeeds_ret.
Qed.

(** ** A context of the wrong size is refused by forward *)

Lemma mapM_Err {A B} (f : A → result B) l e0 x :
  (∀ y e, f y = Err e → e = e0) → x ∈ l → f x = Err e0 → mapM f l = Err e0.
Proof.
  intros Hf Hx Hfx. induction l as [|y l IH]; [by inversion Hx|].
  apply elem_of_cons in Hx. cbn. destruct (f y) as [b|e] eqn:E.
  - destruct Hx as [->|Hx]; [congruence|]. cbn. by rewrite (IH Hx).
  - cbn. f_equal. by eapply Hf.
Qed.

Lemma mapM_Err_inv {A B} (f : A → result B) l e :
  mapM f l = Err e → ∃ x, x ∈ l ∧ f x = Err e.
Proof.
  induction l as [|y l IH]; [done|]. cbn. destruct (f y) as [b|e'] eqn:E; cbn.
  - destruct (mapM f l) eqn:E'; cbn; [done|]. intros [= ->].
    destruct (IH eq_refl) as (x & ? & ?). exists x. split; [by right | done].
  - intros [= ->]. exists y. split; [by left | done].
Qed.

Lemma dot_Err v w e : dot v w = Err e → e = RuntimeError.
Proof. unfold dot. destruct (_ =? _); [done | by intros [= <-]]. Qed.

Lemma Linear_vec_Err l v e : Linear_vec l v = Err e → e = RuntimeError.
Proof.
  unfold Linear_vec. destruct (_ =? _)%Z; [|by intros [= <-]].
  destruct (mapM _ _) eqn:E; [done|]. cbn. intros [= <-].
  apply mapM_Err_inv in E as (w & _ & E). by apply dot_Err in E.
Qed.

Lemma Linear_forward_Err l x e : Linear_forward l x = Err e → e = RuntimeError.
Proof.
  unfold Linear_forward. intros (m & _ & E)%mapM_Err_inv.
  apply mapM_Err_inv in E as (v & _ & E). by apply Linear_vec_Err in E.
Qed.

Lemma Linear_forward_mismatch l (x : T3) (row : mat) (v : vec) :
  row ∈ x → v ∈ row → Z.of_nat (length v) ≠ in_features l →
  Linear_forward l x = Err RuntimeError.
Proof.
  intros Hrow Hv Hne. unfold Linear_forward.
  apply (mapM_Err _ _ _ row); [|done|].
  - intros m e (w & _ & E)%mapM_Err_inv. by apply Linear_vec_Err in E.
  - apply (mapM_Err _ _ _ v); [apply Linear_vec_Err|done|].
    unfold Linear_vec. by destruct (Z.eqb_spec (Z.of_nat (length v)) (in_features l)).
Qed.

Lemma Attention_init_to_kv q c h d p st a st' :
  run (Attention_init q c h d p) st = Ok (a, st') →
  in_features (to_kv a) = default q c.
Proof.
  unfold Attention_init. intros H. inv_run. subst. simpl.
  match goal with
  | H : run (Linear_init (default q c) _ _) _ = Ok (?l, _) |- in_features ?l = _ =>
      unfold Linear_init in H; inv_run; by subst
  end.
Qed.

Lemma Attention_forward_mismatch (a : Attention) x ctx mask pe row v st :
  row ∈ ctx → v ∈ row → Z.of_nat (length v) ≠ in_features (to_kv a) →
  run (Attention_forward a x (Some ctx) mask pe) st = Err RuntimeError.
Proof.
  intros Hrow Hv Hne. unfold Attention_forward, run, mbind, M_bind, emit. simpl.
  unfold lift at 1, qkv_heads. simpl.
  destruct (Linear_forward (to_q a) x) as [q|e] eqn:E; cbn.
  - by rewrite (Linear_forward_mismatch _ _ _ _ Hrow Hv Hne).
  - by apply Linear_forward_Err in E as ->.
Qed.

(** C2 (amended): the constructor validates no parameter itself. It returns
    whenever the runtime can allocate the arrays (no negative size), no head
    dimension is zero and the dropout probabilities are in [0, 1]: so for a
    [depth <= 0] (the model then has no layers), for [num_latents = 0] and
    for a [num_freq_bands <= 0]. The constructor of [Attention] sees no
    context: it records [context_dim] in the key/value projection, and a
    context whose last axis has another size is refused by [forward]
    (RuntimeError). *)
Theorem constructor_validation c st :
  allocatable c →
  (∃ self st', run (Perceiver_init c) st = Ok (self, st')
               ∧ length (layers self) = Z.to_nat (depth c))
  ∧ (∀ query_dim context_dim heads dim_head dropout st0 a st1,
       run (Attention_init query_dim (Some context_dim) heads dim_head dropout) st0
         = Ok (a, st1) →
       in_features (to_kv a) = context_dim
       ∧ ∀ x context mask pos_emb (row : mat) (v : vec) st2,
           row ∈ context → v ∈ row → Z.of_nat (length v) ≠ context_dim →
           run (Attention_forward a x (Some context) mask pos_emb) st2
             = Err RuntimeError).
Proof.
  intros Hc. split.
  - destruct (succeeds_Perceiver_init c Hc st) as (self & st' & H).
    exists self, st'. split; [done|].
    destruct (weight_tie_layers c) eqn:Htie.
    + by destruct (init_layers_tied _ _ _ _ H Htie) as [? _].
    + by destruct (init_layers_untied _ _ _ _ H Htie) as [? _].
  - intros q cd h d p st0 a st1 H.
    apply Attention_init_to_kv in H. simpl in H. split; [done|].
    intros x ctx mask pe row v st2 Hrow Hv Hne.
    eapply Attention_forward_mismatch; eauto. congruence.
Qed.

End Validation.

Section Kinds.
Context {rt : Runtime} {rot : Rotary}.

(** ** The constructor puts a sublayer of the right kind in every role *)

Lemma kind_ok_prefix h h' k r : h `prefix_of` h' → kind_ok h k r → kind_ok h' k r.
Proof.
  intros Hp (p & Hr & Hk). exists p. split; [by eapply prefix_lookup_Some|].
  destruct (h !! fn p) as [o|] eqn:E; [|done].
  by rewrite (prefix_lookup_Some _ _ _ _ E Hp).
Qed.

Lemma factory_alloc_kind k st st0 o st1 p st' r :
  heap st0 = heap st →
  st1 = {| heap := heap st0 ++ [o]; rng := rng st0; trace := trace st0 |} →
  st' = {| heap := heap st1 ++ [OPreNorm p]; rng := rng st1; trace := trace st1 |} →
  fn p = length (heap st0) → r = length (heap st1) →
  match o with
  | OAttention _ => k = true
  | OFeedForward _ => k = false
  | _ => False
  end →
  heap st `prefix_of` heap st' ∧ kind_ok (heap st') k r.
Proof.
  intros H0 -> -> Hfn -> Ho. unfold kind_ok. simpl in *. rewrite H0 in *.
  split; [by do 2 apply prefix_app_r|].
  exists p. rewrite Hfn. split.
  - rewrite lookup_app_r by done. by rewrite Nat.sub_diag.
  - rewrite lookup_app_l by (rewrite length_app; simpl; lia).
    rewrite lookup_app_r by done. by rewrite Nat.sub_diag.
Qed.

Ltac factory_kind_tac :=
  let H := fresh "H" in
  intros ? ? ? H; inv_run;
  repeat match goal with
  | H : run (Attention_init _ _ _ _ _) _ = Ok _ |- _ => apply Attention_init_heap in H
  | H : run (FeedForward_init _ _ _) _ = Ok _ |- _ => apply FeedForward_init_heap in H
  | H : run (PreNorm_init _ _ _) _ = Ok _ |- _ => apply PreNorm_init_heap in H as [-> ?]
  end;
  subst;
  match goal with
  | H0 : heap ?x0 = heap ?st |- heap ?st `prefix_of` _ ∧ _ =>
      eapply (factory_alloc_kind _ st x0); [exact H0 | reflexivity | reflexivity | done ..]
  end.

Lemma get_cross_attn_kind c d : factory_of true (get_cross_attn c d).
Proof. unfold get_cross_attn. factory_kind_tac. Qed.

Lemma get_cross_ff_kind c : factory_of false (get_cross_ff c).
Proof. unfold get_cross_ff. factory_kind_tac. Qed.

Lemma get_latent_attn_kind c : factory_of true (get_latent_attn c).
Proof. unfold get_latent_attn. factory_kind_tac. Qed.

Lemma get_latent_ff_kind c : factory_of false (get_latent_ff c).
Proof. unfold get_latent_ff. factory_kind_tac. Qed.

Lemma cache_fn_kind k f b cache st a cache' st' :
  factory_of k f → run (cache_fn f b cache) st = Ok ((a, cache'), st') →
  (∀ r, cache = Some r → kind_ok (heap st) k r) →
  heap st `prefix_of` heap st' ∧ kind_ok (heap st') k a
  ∧ (∀ r, cache' = Some r → kind_ok (heap st') k r).
Proof.
  intros Hf H Hc. apply cache_fn_run in H as [(_ & -> & -> & ->)|(H & -> & Hn)].
  - split; [done|]. split; [by apply Hc | done].
  - destruct (Hf _ _ _ H) as [Hp Hk]. split; [done|]. split; [done|].
    intros r Hr. destruct b; [by injection Hr as <-|].
    eapply kind_ok_prefix; [exact Hp | by apply Hc].
Qed.

Lemma caches_kinds_prefix h h' cs :
  h `prefix_of` h' → caches_kinds h cs → caches_kinds h' cs.
Proof.
  intros Hp (H1 & H2 & H3 & H4).
  split; [|split; [|split]]; intros r Hr; eapply kind_ok_prefix; eauto.
Qed.

Lemma self_attns_kinds c b idxs acc st acc' st' :
  let ok h (blk : nat * nat) := kind_ok h true blk.1 ∧ kind_ok h false blk.2 in
  run (foldlM (build_self_attn c b) acc idxs) st = Ok (acc', st') →
  caches_kinds (heap st) acc.2 → Forall (ok (heap st)) acc.1 →
  heap st `prefix_of` heap st' ∧ caches_kinds (heap st') acc'.2
  ∧ Forall (ok (heap st')) acc'.1.
Proof.
  intros ok. revert acc st.
  induction idxs as [|i idxs IH]; intros acc st H Hc Hall; simpl in H.
  - by apply run_ret in H as [<- <-].
  - apply run_bind in H as (acc1 & st1 & H1 & H).
    apply build_self_attn_run in H1 as (la & cla & st0 & lf & clf & H1 & H2 & ->).
    destruct Hc as (C1 & C2 & C3 & C4).
    eapply cache_fn_kind in H1 as (Hp1 & Hk1 & Hc1); [|apply get_latent_attn_kind|exact C3].
    eapply cache_fn_kind in H2 as (Hp2 & Hk2 & Hc2); [|apply get_latent_ff_kind|].
    2:{ intros r Hr. eapply kind_ok_prefix; [exact Hp1 | by apply C4]. }
    assert (Hp : heap st `prefix_of` heap st1) by by etrans.
    apply IH in H as (Hp' & Hc' & Hall'); simpl.
    + split; [by etrans | done].
    + split; [|split; [|split]]; simpl.
      * intros r Hr. eapply kind_ok_prefix; [exact Hp | by apply C1].
      * intros r Hr. eapply kind_ok_prefix; [exact Hp | by apply C2].
      * intros r Hr. eapply kind_ok_prefix; [exact Hp2 | by apply Hc1].
      * done.
    + apply Forall_app. split.
      * eapply Forall_impl; [exact Hall|]. intros blk [? ?].
        split; by apply (kind_ok_prefix _ _ _ _ Hp).
      * constructor; [|constructor].
        split; simpl; [exact (kind_ok_prefix _ _ _ _ Hp2 Hk1) | done].
Qed.

Lemma layers_kinds c d idxs acc st acc' st' :
  run (foldlM (build_layer c d) acc idxs) st = Ok (acc', st') →
  caches_kinds (heap st) acc.2 → Forall (layer_kinds (heap st)) acc.1 →
  heap st `prefix_of` heap st' ∧ caches_kinds (heap st') acc'.2
  ∧ Forall (layer_kinds (heap st')) acc'.1.
Proof.
  revert acc st. induction idxs as [|i idxs IH]; intros acc st H Hc Hall; simpl in H.
  - by apply run_ret in H as [<- <-].
  - apply run_bind in H as (acc1 & st1 & H1 & H).
    apply build_layer_run in H1. simpl in H1.
    destruct H1 as (blocks & cs & st0 & ca & cca & st2 & cf & ccf & H1 & H2 & H3 & ->).
    apply self_attns_kinds in H1 as (Hp1 & (C1 & C2 & C3 & C4) & Hb); [|done|constructor].
    simpl in *.
    eapply cache_fn_kind in H2 as (Hp2 & Hk2 & Hc2); [|apply get_cross_attn_kind|exact C1].
    eapply cache_fn_kind in H3 as (Hp3 & Hk3 & Hc3); [|apply get_cross_ff_kind|].
    2:{ intros r Hr. eapply kind_ok_prefix; [exact Hp2 | by apply C2]. }
    assert (Hp02 : heap st0 `prefix_of` heap st1) by by etrans.
    assert (Hp : heap st `prefix_of` heap st1) by by etrans.
    apply IH in H as (Hp' & Hc' & Hall'); simpl.
    + split; [by etrans | done].
    + split; [|split; [|split]]; simpl.
      * intros r Hr. eapply kind_ok_prefix; [exact Hp3 | by apply Hc2].
      * done.
      * intros r Hr. eapply kind_ok_prefix; [exact Hp02 | by apply C3].
      * intros r Hr. eapply kind_ok_prefix; [exact Hp02 | by apply C4].
    + apply Forall_app. split.
      * eapply Forall_impl; [exact Hall|]. intros l (K1 & K2 & K3).
        split; [by apply (kind_ok_prefix _ _ _ _ Hp)|].
        split; [by apply (kind_ok_prefix _ _ _ _ Hp)|].
        eapply Forall_impl; [exact K3|]. intros blk [? ?].
        split; by apply (kind_ok_prefix _ _ _ _ Hp).
      * constructor; [|constructor]. split; [|split]; simpl.
        -- exact (kind_ok_prefix _ _ _ _ Hp3 Hk2).
        -- done.
        -- eapply Forall_impl; [exact Hb|]. intros blk [? ?].
           split; by apply (kind_ok_prefix _ _ _ _ Hp02).
Qed.

Lemma Perceiver_init_kinds c st self st' :
  run (Perceiver_init c) st = Ok (self, st') →
  Forall (layer_kinds (heap st')) (layers self).
Proof.
  intros (d & st0 & cs & st1 & Hp0 & H & Hp1)%Perceiver_init_run.
  apply layers_kinds in H as (_ & _ & Hall); [| |constructor].
  - simpl in Hall. eapply Forall_impl; [exact Hall|]. intros l (K1 & K2 & K3).
    split; [by apply (kind_ok_prefix _ _ _ _ Hp1)|].
    split; [by apply (kind_ok_prefix _ _ _ _ Hp1)|].
    eapply Forall_impl; [exact K3|]. intros blk [? ?].
    split; by apply (kind_ok_prefix _ _ _ _ Hp1).
  - split; [|split; [|split]]; by intros r.
Qed.

End Kinds.

Section Frame.
Context {rt : Runtime} {rot : Rotary}.

(** ** What a forward call leaves behind *)

Lemma emits_refl st : emits st st [].
Proof. split; [done|]. split; [done|]. by rewrite app_nil_r. Qed.

Lemma emits_trans st st1 st2 e1 e2 :
  emits st st1 e1 → emits st1 st2 e2 → emits st st2 (e1 ++ e2).
Proof.
  intros (H1 & R1 & T1) (H2 & R2 & T2).
  split; [congruence|]. split; [congruence|]. by rewrite T2, T1, app_assoc.
Qed.

Lemma emits_emit st e : emits st {| heap := heap st; rng := rng st; trace := trace st ++ [e] |} [e].
Proof. done. Qed.

Lemma Attention_forward_run a x ctx mask pe st y st' :
  run (Attention_forward a x ctx mask pe) st = Ok (y, st') →
  ∃ q k v,
    qkv_heads a x ctx = Ok (q, k, v)
    ∧ emits st st' (EvAttention (bool_decide (is_Some ctx)) pe
                    :: match pe with Some tbl => [EvRotary q k tbl] | None => [] end)
    ∧ attend a (rotated pe q) (rotated pe k) v mask = Ok y.
Proof.
  unfold Attention_forward. intros H.
  apply run_bind in H as ([] & st1 & H1 & H). apply run_emit in H1.
  apply run_bind in H as ([[q k] v] & st2 & H2 & H).
  apply run_lift in H2 as [H2 <-].
  apply run_bind in H as ([q' k'] & st3 & H3 & H).
  apply run_lift in H as [H <-].
  exists q, k, v. split; [done|]. destruct pe as [tbl|].
  - unfold apply_rotary_emb in H3.
    apply run_bind in H3 as ([] & st4 & H4 & H3). apply run_emit in H4.
    apply run_ret in H3 as [[= <- <-] <-]. subst. split; [|done].
    split; [done|]. split; [done|]. simpl. by rewrite <- app_assoc.
  - apply run_ret in H3 as [[= <- <-] <-]. subst. split; [|done]. apply emits_emit.
Qed.

Lemma Attention_forward_emits a x ctx mask pe st y st' :
  run (Attention_forward a x ctx mask pe) st = Ok (y, st') →
  ∃ evs, emits st st' evs
         ∧ Forall (call_event {| kw_context := ctx; kw_mask := mask; kw_pos_emb := pe |}) evs.
Proof.
  intros (q & k & v & _ & He & _)%Attention_forward_run.
  eexists. split; [exact He|]. constructor; [done|]. destruct pe; repeat constructor.
Qed.

Lemma call_fn_emits r x kw st y st' :
  run (call_fn r x kw) st = Ok (y, st') →
  ∃ evs, emits st st' evs ∧ Forall (call_event kw) evs
         ∧ ((∃ f, heap st !! r = Some (OFeedForward f)) → evs = []).
Proof.
  unfold call_fn. intros H. apply run_bind in H as (o & st1 & H1 & H).
  apply run_deref in H1 as [Ho <-]. destruct o; try done.
  - apply Attention_forward_emits in H as (evs & ? & ?). exists evs.
    split; [done|]. split; [by destruct kw|]. intros [f Hf]. congruence.
  - destruct (kw_context kw), (kw_mask kw), (kw_pos_emb kw); try done.
    apply run_lift in H as [_ <-]. exists []. split; [apply emits_refl|].
    split; [constructor | done].
Qed.

Lemma PreNorm_forward_emits p x kw st y st' :
  run (PreNorm_forward p x kw) st = Ok (y, st') →
  ∃ evs, emits st st' evs ∧ Forall (call_event kw) evs
         ∧ ((∃ f, heap st !! fn p = Some (OFeedForward f)) → evs = []).
Proof.
  unfold PreNorm_forward. intros H.
  apply run_bind in H as (x' & st1 & H1 & H). apply run_lift in H1 as [_ <-].
  apply run_bind in H as (kw' & st2 & H2 & H).
  assert (st2 = st ∧ bool_decide (is_Some (kw_context kw'))
                     = bool_decide (is_Some (kw_context kw))
          ∧ kw_pos_emb kw' = kw_pos_emb kw) as (-> & Hc & Hp).
  { destruct (norm_context p).
    - destruct (kw_context kw) eqn:E; [|done].
      apply run_bind in H2 as (c' & st3 & H3 & H2). apply run_lift in H3 as [_ <-].
      apply run_ret in H2 as [<- <-]. simpl. done.
    - by apply run_ret in H2 as [<- <-]. }
  apply call_fn_emits in H as (evs & He & Hall & Hff). exists evs. split; [done|].
  split; [|done].
  eapply Forall_impl; [exact Hall|]. intros [] ; simpl; try done.
  rewrite Hc, Hp. done. by rewrite Hp.
Qed.

Lemma call_emits r x kw st y st' :
  run (call r x kw) st = Ok (y, st') →
  ∃ evs, emits st st' evs ∧ Forall (call_event kw) evs
         ∧ (kind_ok (heap st) false r → evs = []).
Proof.
  unfold call. intros H. apply run_bind in H as (o & st1 & H1 & H).
  apply run_deref in H1 as [Ho <-]. destruct o; try done.
  apply PreNorm_forward_emits in H as (evs & ? & ? & Hff). exists evs.
  split; [done|]. split; [done|]. intros (p' & Hp' & Hk). apply Hff.
  rewrite Ho in Hp'. injection Hp' as <-.
  destruct (heap st !! fn p) as [[]|]; try done. by eexists.
Qed.

Lemma residual_run f x st y st' :
  run (residual f x) st = Ok (y, st') ↔
  ∃ fx, run (f x) st = Ok (fx, st') ∧ add3 fx x = Ok y.
Proof.
  unfold residual. rewrite run_bind. split.
  - intros (fx & st1 & H1 & H). apply run_lift in H as [H <-]. eauto.
  - intros (fx & H1 & H). exists fx, st'. split; [done|]. by apply run_lift.
Qed.

Lemma foldlM_emits {A B} (f : A → B → M A) (P : Event → Prop)
    (Q : list Obj → B → Prop) l a st a' st' :
  (∀ a b st a' st', run (f a b) st = Ok (a', st') →
     ∃ evs, emits st st' evs ∧ (Q (heap st) b → Forall P evs)) →
  run (foldlM f a l) st = Ok (a', st') →
  ∃ evs, emits st st' evs ∧ (Forall (Q (heap st)) l → Forall P evs).
Proof.
  intros Hf. revert a st. induction l as [|b l IH]; intros a st H; simpl in H.
  - apply run_ret in H as [<- <-]. exists []. split; [apply emits_refl | constructor].
  - apply run_bind in H as (a1 & st1 & H1 & H).
    apply Hf in H1 as (e1 & He1 & Ha1). apply IH in H as (e2 & He2 & Ha2).
    exists (e1 ++ e2). split; [by eapply emits_trans|].
    intros HQ. inversion HQ; subst. apply Forall_app. split; [by apply Ha1|].
    apply Ha2. destruct He1 as [-> _]. done.
Qed.

Lemma call_event_self pe ev :
  call_event {| kw_context := None; kw_mask := None; kw_pos_emb := pe |} ev →
  rotary_event pe ev.
Proof. destruct ev; simpl; [done | by intros [-> ->] | done]. Qed.

Lemma call_event_cross data mask pe ev :
  call_event {| kw_context := Some data; kw_mask := mask; kw_pos_emb := None |} ev →
  rotary_event pe ev.
Proof. destruct ev; simpl; [done | by intros [-> ->] | done]. Qed.

Lemma self_block_emits pe x blk st y st' :
  run (self_block pe x blk) st = Ok (y, st') →
  ∃ evs, emits st st' evs
         ∧ (kind_ok (heap st) false blk.2 → Forall (rotary_event pe) evs).
Proof.
  unfold self_block. intros H. apply run_bind in H as (x1 & st1 & H1 & H).
  apply residual_run in H1 as (? & H1 & _). apply residual_run in H as (? & H & _).
  apply call_emits in H1 as (e1 & He1 & Ha1 & _).
  apply call_emits in H as (e2 & He2 & _ & Hff).
  exists (e1 ++ e2). split; [by eapply emits_trans|]. intros Hk.
  destruct He1 as (Hh & _). rewrite Hh in Hff. rewrite (Hff Hk), app_nil_r.
  eapply Forall_impl; [exact Ha1|]. apply call_event_self.
Qed.

Lemma layer_group_emits data mask pe x l st y st' :
  run (layer_group data mask pe x l) st = Ok (y, st') →
  ∃ evs, emits st st' evs
         ∧ (layer_kinds (heap st) l → Forall (rotary_event pe) evs).
Proof.
  unfold layer_group. intros H. apply run_bind in H as (x1 & st1 & H1 & H).
  apply run_bind in H as (x2 & st2 & H2 & H).
  apply residual_run in H1 as (? & H1 & _). apply residual_run in H2 as (? & H2 & _).
  apply call_emits in H1 as (e1 & He1 & Ha1 & _).
  apply call_emits in H2 as (e2 & He2 & _ & Hff).
  apply (foldlM_emits _ (rotary_event pe) (λ h b, kind_ok h false b.2))
    in H as (e3 & He3 & Ha3); [|intros; by eapply self_block_emits].
  exists (e1 ++ e2 ++ e3). split; [eapply emits_trans; [done|by eapply emits_trans]|].
  intros (_ & Kff & Kb).
  destruct He1 as (Hh1 & _). destruct He2 as (Hh2 & _).
  rewrite Hh1 in Hff. rewrite (Hff Kff). simpl.
  apply Forall_app. split.
  - eapply Forall_impl; [exact Ha1|]. apply call_event_cross.
  - apply Ha3. rewrite Hh2, Hh1. eapply Forall_impl; [exact Kb|]. by intros ? [_ ?].
Qed.

Lemma Perceiver_latents_emits {r} self (data : tensor scalar (S (S r))) mask st x st' :
  run (Perceiver_latents self data mask) st = Ok (x, st') →
  ∃ pre pe evs,
    emits st st' (pre ++ evs)
    ∧ match sinu_emb self with
      | Some e => ∃ n, pe = Some (make_table n (se_dim e))
                       ∧ pre = [EvSinuEmb n (make_table n (se_dim e))]
      | None => pe = None ∧ pre = []
      end
    ∧ (Forall (layer_kinds (heap st)) (layers self) → Forall (rotary_event pe) evs).
Proof.
  unfold Perceiver_latents. intros H.
  destruct (shape_of _ data) as [shape|]; [|done].
  destruct (negb _); [done|].
  apply run_bind in H as (data' & st1 & H1 & H).
  assert (st1 = st) as ->.
  { destruct (self_fourier_encode_data self).
    - by apply run_lift in H1 as [_ <-].
    - by apply run_ret in H1 as [_ <-]. }
  apply run_bind in H as (o & st2 & H2 & H). apply run_deref in H2 as [_ <-].
  destruct o as [w| | | |]; try done.
  apply run_bind in H as (pe & st3 & H3 & H).
  apply (foldlM_emits _ (rotary_event pe) layer_kinds) in H as (evs & He & Hall);
    [|intros; by eapply layer_group_emits].
  destruct (sinu_emb self) as [e|].
  - apply run_bind in H3 as (tbl & st4 & H4 & H3).
    apply run_ret in H3 as [<- <-]. unfold SinusoidalEmbeddings_forward in H4.
    apply run_bind in H4 as ([] & st5 & H5 & H4). apply run_emit in H5.
    apply run_ret in H4 as [<- <-]. subst st5.
    eexists [_], _, evs. split; [|split; [by eexists|]].
    + eapply emits_trans; [apply emits_emit | done].
    + intros ?. by apply Hall.
  - apply run_ret in H3 as [<- <-].
    exists [], None, evs. split; [done|]. split; [done|]. done.
Qed.

Lemma Perceiver_forward_emits {r} self (data : tensor scalar (S (S r))) mask st y st' :
  run (Perceiver_forward self data mask) st = Ok (y, st') →
  ∃ x, run (Perceiver_latents self data mask) st = Ok (x, st').
Proof.
  unfold Perceiver_forward. intros H. apply run_bind in H as (x & st1 & H1 & H).
  apply run_bind in H as (o & st2 & H2 & H). apply run_deref in H2 as [_ <-].
  destruct o; try done.
  apply run_bind in H as (? & st3 & H3 & H). apply run_lift in H3 as [_ <-].
  apply run_lift in H as [_ <-]. eauto.
Qed.

Lemma Perceiver_init_sinu_emb c st self st' :
  run (Perceiver_init c) st = Ok (self, st') →
  sinu_emb self
  = if self_attn_rel_pos c then Some {| se_dim := latent_dim_head c |} else None.
Proof. unfold Perceiver_init. intros H. inv_run. by simplify_eq. Qed.



End Frame.

Section Rows.
Context {rt : Runtime} {rot : Rotary}.

(** ** Batch rows *)

Lemma mapM_lookup {A B} (f : A → result B) xs ys i x :
  mapM f xs = Ok ys → xs !! i = Some x → ∃ y, ys !! i = Some y ∧ f x = Ok y.
Proof.
  intros H Hx. apply mapM_Ok in H.
  destruct (Forall2_lookup_l _ _ _ _ _ H Hx) as (y & ? & ?). eauto.
Qed.

Lemma mapM_length {A B} (f : A → result B) xs ys :
  mapM f xs = Ok ys → length ys = length xs.
Proof. intros H. apply mapM_Ok in H. symmetry. by eapply Forall2_length. Qed.

Lemma mapM_rel {A1 A2 B} (f1 : A1 → result B) (f2 : A2 → result B)
    xs1 xs2 ys1 ys2 i x1 x2 :
  mapM f1 xs1 = Ok ys1 → mapM f2 xs2 = Ok ys2 →
  xs1 !! i = Some x1 → xs2 !! i = Some x2 →
  (∀ y1 y2, f1 x1 = Ok y1 → f2 x2 = Ok y2 → y1 = y2) →
  agree i ys1 ys2.
Proof.
  intros H1 H2 Hx1 Hx2 Hf.
  destruct (mapM_lookup _ _ _ _ _ H1 Hx1) as (y1 & ? & E1).
  destruct (mapM_lookup _ _ _ _ _ H2 Hx2) as (y2 & ? & E2).
  rewrite (Hf _ _ E1 E2) in *. by exists y2.
Qed.

Lemma mapM_agree {A B} (f : A → result B) xs1 xs2 ys1 ys2 i :
  mapM f xs1 = Ok ys1 → mapM f xs2 = Ok ys2 → agree i xs1 xs2 → agree i ys1 ys2.
Proof.
  intros H1 H2 (x & Hx1 & Hx2). eapply mapM_rel; eauto. congruence.
Qed.

Lemma map_agree {A B} (f : A → B) xs ys i :
  agree i xs ys → agree i (map f xs) (map f ys).
Proof.
  intros (x & H1 & H2). exists (f x). by rewrite !list_lookup_fmap, H1, H2.
Qed.

Lemma map_block_agree {A B} (f : A → B) h b xs ys :
  block_agree h b xs ys → block_agree h b (map f xs) (map f ys).
Proof. intros H k Hk. by apply map_agree, H. Qed.

Lemma zip_exact_lookup {A B C} (f : A → B → result C) xs ys zs i x :
  zip_exact f xs ys = Ok zs → xs !! i = Some x →
  ∃ y z, ys !! i = Some y ∧ zs !! i = Some z ∧ f x y = Ok z.
Proof.
  unfold zip_exact. destruct (Nat.eqb_spec (length xs) (length ys)) as [Hl|]; [|done].
  intros H Hx.
  destruct (lookup_lt_is_Some_2 ys i) as [y Hy].
  { rewrite <- Hl. by eapply lookup_lt_Some. }
  assert (Hz : zip xs ys !! i = Some (x, y)).
  { apply lookup_zip_with_Some. eauto. }
  destruct (mapM_lookup _ _ _ _ _ H Hz) as (z & ? & ?). eauto.
Qed.

Lemma zip_exact_agree {A B C} (f : A → B → result C) x1 y1 z1 x2 y2 z2 i :
  zip_exact f x1 y1 = Ok z1 → zip_exact f x2 y2 = Ok z2 →
  agree i x1 x2 → agree i y1 y2 → agree i z1 z2.
Proof.
  intros H1 H2 (x & Hx1 & Hx2) (y & Hy1 & Hy2).
  destruct (zip_exact_lookup _ _ _ _ _ _ H1 Hx1) as (y' & z & ? & ? & E1).
  destruct (zip_exact_lookup _ _ _ _ _ _ H2 Hx2) as (y'' & z' & ? & ? & E2).
  simplify_eq. exists z'. split; congruence.
Qed.

Lemma zip_exact_block_agree {A B C} (f : A → B → result C) x1 y1 z1 x2 y2 z2 h b :
  zip_exact f x1 y1 = Ok z1 → zip_exact f x2 y2 = Ok z2 →
  block_agree h b x1 x2 → block_agree h b y1 y2 → block_agree h b z1 z2.
Proof. intros H1 H2 Hx Hy k Hk. eapply zip_exact_agree; eauto. Qed.

Lemma concat_lookup_block {A} (ls : list (list A)) h b l k x :
  Forall (λ l, length l = h) ls → ls !! b = Some l → l !! k = Some x →
  concat ls !! (b * h + k) = Some x.
Proof.
  intros Hall. revert b. induction Hall as [|l' ls Hl Hall IH]; intros b Hb Hk; [done|].
  destruct b as [|b]; simpl in *.
  - injection Hb as ->. by apply lookup_app_l_Some.
  - rewrite lookup_app_r by lia. rewrite Hl.
    replace (h + b * h + k - h) with (b * h + k) by lia. by apply IH.
Qed.

Lemma concat_block_agree {A} (ls1 ls2 : list (list A)) h b :
  Forall (λ l, length l = h) ls1 → Forall (λ l, length l = h) ls2 →
  agree b ls1 ls2 → block_agree h b (concat ls1) (concat ls2).
Proof.
  intros H1 H2 (l & Hl1 & Hl2) k Hk.
  assert (length l = h) by (rewrite Forall_forall in H1; eapply H1, list_elem_of_lookup_2, Hl1).
  destruct (lookup_lt_is_Some_2 l k) as [x Hx]; [lia|].
  exists x. split; eapply concat_lookup_block; eauto.
Qed.

Lemma cells_lookup {A} n d (l : list A) b :
  b < n → cells n d l !! b = Some (take d (drop (b * d) l)).
Proof.
  intros Hb. unfold cells. rewrite list_lookup_fmap, lookup_seq_lt by done. done.
Qed.

Lemma take_block_agree {A} (l1 l2 : list A) h b :
  block_agree h b l1 l2 → take h (drop (b * h) l1) = take h (drop (b * h) l2).
Proof.
  intros H. apply list_eq. intros k.
  destruct (decide (k < h)) as [Hk|Hk].
  - rewrite !lookup_take_lt, !lookup_drop by done.
    destruct (H k Hk) as (x & -> & ->). done.
  - rewrite !lookup_take_ge by lia. done.
Qed.

(** ** Attention, row by row *)

Lemma chunk2_last_agree kv1 kv2 k1 v1 k2 v2 b :
  chunk2_last kv1 = Ok (k1, v1) → chunk2_last kv2 = Ok (k2, v2) →
  agree b kv1 kv2 → agree b k1 k2 ∧ agree b v1 v2.
Proof.
  unfold chunk2_last. intros H1 H2 Ha.
  apply bind_Ok in H1 as (p1 & H1 & [= <- <-]).
  apply bind_Ok in H2 as (p2 & H2 & [= <- <-]).
  pose proof (mapM_agree _ _ _ _ _ _ H1 H2 Ha). split; by apply map_agree.
Qed.

Lemma split_heads_length h m hs : split_heads h m = Ok hs → length hs = Z.to_nat h.
Proof.
  unfold split_heads. destruct (h <=? 0)%Z; [done|].
  intros (rows & _ & [= <-])%bind_Ok. by rewrite length_map, length_seq.
Qed.

Lemma rearrange_split_agree h t1 t2 s1 s2 b :
  rearrange_split h t1 = Ok s1 → rearrange_split h t2 = Ok s2 →
  agree b t1 t2 → block_agree (Z.to_nat h) b s1 s2.
Proof.
  unfold rearrange_split.
  intros (hs1 & H1 & [= <-])%bind_Ok (hs2 & H2 & [= <-])%bind_Ok Ha.
  apply concat_block_agree.
  - apply mapM_Ok in H1. apply Forall_forall. intros l Hl.
    apply list_elem_of_lookup in Hl as [i Hi].
    destruct (Forall2_lookup_r _ _ _ _ _ H1 Hi) as (m & _ & Hm).
    by apply split_heads_length in Hm.
  - apply mapM_Ok in H2. apply Forall_forall. intros l Hl.
    apply list_elem_of_lookup in Hl as [i Hi].
    destruct (Forall2_lookup_r _ _ _ _ _ H2 Hi) as (m & _ & Hm).
    by apply split_heads_length in Hm.
  - by eapply mapM_agree.
Qed.

Lemma qkv_heads_agree a x1 x2 c1 c2 q1 k1 v1 q2 k2 v2 b :
  qkv_heads a x1 c1 = Ok (q1, k1, v1) → qkv_heads a x2 c2 = Ok (q2, k2, v2) →
  agree b x1 x2 → context_agree b c1 c2 →
  let h := Z.to_nat (heads a) in
  block_agree h b q1 q2 ∧ block_agree h b k1 k2 ∧ block_agree h b v1 v2.
Proof.
  unfold qkv_heads. intros H1 H2 Hx Hc.
  apply bind_Ok in H1 as (q1' & Hq1 & H1). apply bind_Ok in H1 as (kv1 & Hkv1 & H1).
  apply bind_Ok in H1 as ([k1' v1'] & Hc1 & H1). apply bind_Ok in H1 as (q1'' & Hsq1 & H1).
  apply bind_Ok in H1 as (k1'' & Hsk1 & H1). apply bind_Ok in H1 as (v1'' & Hsv1 & H1).
  apply bind_Ok in H2 as (q2' & Hq2 & H2). apply bind_Ok in H2 as (kv2 & Hkv2 & H2).
  apply bind_Ok in H2 as ([k2' v2'] & Hc2 & H2). apply bind_Ok in H2 as (q2'' & Hsq2 & H2).
  apply bind_Ok in H2 as (k2'' & Hsk2 & H2). apply bind_Ok in H2 as (v2'' & Hsv2 & H2).
  simplify_eq. simpl.
  assert (Hctx : agree b (default x1 c1) (default x2 c2)).
  { destruct c1, c2; simpl in *; done. }
  pose proof (mapM_agree _ _ _ _ _ _ Hq1 Hq2 Hx) as Hq.
  pose proof (mapM_agree _ _ _ _ _ _ Hkv1 Hkv2 Hctx) as Hkv.
  destruct (chunk2_last_agree _ _ _ _ _ _ _ Hc1 Hc2 Hkv) as [Hk Hv].
  split; [|split]; by eapply rearrange_split_agree.
Qed.

Lemma rearrange_merge_agree h t1 t2 m1 m2 b :
  rearrange_merge h t1 = Ok m1 → rearrange_merge h t2 = Ok m2 →
  block_agree (Z.to_nat h) b t1 t2 → agree b m1 m2.
Proof.
  unfold rearrange_merge. destruct (Z.leb_spec h 0) as [|Hh]; [done|].
  set (hn := Z.to_nat h). assert (0 < hn) by lia.
  destruct (_ =? 0); [|done]. destruct (_ =? 0); [|done].
  intros [= <-] [= <-] Ha.
  assert (Hb : ∀ t t' : T3, block_agree hn b t t' → b < length t / hn).
  { intros t t' Ht. destruct (Ht (hn - 1)) as (x & Hx & _); [lia|].
    apply lookup_lt_Some in Hx. apply Nat.div_le_lower_bound; lia. }
  assert (Hb' : ∀ t t' : T3, block_agree hn b t t' → block_agree hn b t' t).
  { intros t t' Ht k Hk. destruct (Ht k Hk) as (x & ? & ?). by exists x. }
  exists (merge_group (take hn (drop (b * hn) t1))).
  rewrite !list_lookup_fmap, !cells_lookup by eauto. simpl.
  split; [done|]. by rewrite (take_block_agree _ _ _ _ Ha).
Qed.

Lemma length_repeat_mask h fm rm :
  repeat_mask h fm = Ok rm → length rm = length fm * Z.to_nat h.
Proof.
  unfold repeat_mask. destruct (h <? 0)%Z; [done|]. intros [= <-].
  induction fm as [|row fm IH]; [done|]. simpl.
  by rewrite length_app, length_replicate, IH.
Qed.

Lemma repeat_mask_lookup h fm rm b row k :
  repeat_mask h fm = Ok rm → fm !! b = Some row → k < Z.to_nat h →
  rm !! (b * Z.to_nat h + k) = Some [row].
Proof.
  unfold repeat_mask. destruct (h <? 0)%Z; [done|]. intros [= <-] Hb Hk.
  eapply concat_lookup_block.
  - apply Forall_forall. intros l (r' & -> & _)%list_elem_of_fmap.
    apply length_replicate.
  - by rewrite list_lookup_fmap, Hb.
  - by apply lookup_replicate_2.
Qed.

Lemma expand_repeat_lookup h fm rm n mk b row k :
  repeat_mask h fm = Ok rm → expand_to n rm = Ok mk →
  fm !! b = Some row → k < Z.to_nat h → b * Z.to_nat h + k < n →
  mk !! (b * Z.to_nat h + k) = Some [row].
Proof.
  intros Hr He Hb Hk Hn. pose proof (length_repeat_mask _ _ _ Hr) as Hlen.
  pose proof (repeat_mask_lookup _ _ _ _ _ _ Hr Hb Hk) as Hl.
  unfold expand_to in He. destruct (Nat.eqb_spec (length rm) n) as [|Hne].
  - by injection He as <-.
  - destruct rm as [|a [|]]; try done. injection He as <-.
    simpl in Hlen. apply lookup_lt_Some in Hb.
    assert (b = 0 ∧ k = 0) as [-> ->] by nia.
    simpl in Hl. injection Hl as ->. by apply lookup_replicate_2.
Qed.

Lemma masked_fill_agree h fm1 fm2 rm1 rm2 sim1 sim2 r1 r2 value b :
  repeat_mask h fm1 = Ok rm1 → repeat_mask h fm2 = Ok rm2 →
  masked_fill sim1 rm1 value = Ok r1 → masked_fill sim2 rm2 value = Ok r2 →
  block_agree (Z.to_nat h) b sim1 sim2 → agree b fm1 fm2 →
  block_agree (Z.to_nat h) b r1 r2.
Proof.
  unfold masked_fill. intros Hr1 Hr2 H1 H2 Hs (row & Hf1 & Hf2) k Hk.
  apply bind_Ok in H1 as (mk1 & He1 & H1). apply bind_Ok in H2 as (mk2 & He2 & H2).
  destruct (Hs k Hk) as (Sm & Hs1 & Hs2).
  assert (Hm1 : mk1 !! (b * Z.to_nat h + k) = Some [row]).
  { apply (expand_repeat_lookup h fm1 rm1 (length sim1)); try done.
    by eapply lookup_lt_Some. }
  assert (Hm2 : mk2 !! (b * Z.to_nat h + k) = Some [row]).
  { apply (expand_repeat_lookup h fm2 rm2 (length sim2)); try done.
    by eapply lookup_lt_Some. }
  eapply (mapM_rel _ _ _ _ _ _ _ (Sm, [row]) (Sm, [row]) H1 H2).
  - apply lookup_zip_with_Some. eauto.
  - apply lookup_zip_with_Some. eauto.
  - congruence.
Qed.

Lemma attend_agree a q1 k1 v1 m1 y1 q2 k2 v2 m2 y2 b :
  attend a q1 k1 v1 m1 = Ok y1 → attend a q2 k2 v2 m2 = Ok y2 →
  let h := Z.to_nat (heads a) in
  block_agree h b q1 q2 → block_agree h b k1 k2 → block_agree h b v1 v2 →
  mask_agree b m1 m2 → agree b y1 y2.
Proof.
  unfold attend, Attention_attn. cbv zeta. intros H1 H2 Hq Hk Hv Hm.
  set (h := Z.to_nat (heads a)) in *.
  apply bind_Ok in H1 as (a1 & Ha1 & H1). apply bind_Ok in Ha1 as (sm1 & Hm1 & [= <-]).
  unfold Attention_sim in Hm1. cbv zeta in Hm1. apply bind_Ok in Hm1 as (sim1 & Hs1 & Hm1).
  apply bind_Ok in H1 as (o1 & Ho1 & H1). apply bind_Ok in H1 as (g1 & Hg1 & H1).
  apply bind_Ok in H1 as (l1 & Hl1 & [= <-]).
  apply bind_Ok in H2 as (a2 & Ha2 & H2). apply bind_Ok in Ha2 as (sm2 & Hm2 & [= <-]).
  unfold Attention_sim in Hm2. cbv zeta in Hm2. apply bind_Ok in Hm2 as (sim2 & Hs2 & Hm2).
  apply bind_Ok in H2 as (o2 & Ho2 & H2). apply bind_Ok in H2 as (g2 & Hg2 & H2).
  apply bind_Ok in H2 as (l2 & Hl2 & [= <-]).
  unfold Dropout_forward.
  pose proof (zip_exact_block_agree _ _ _ _ _ _ _ _ _ Hs1 Hs2 Hq Hk) as Hsim.
  apply (map_block_agree (map (map (λ s, fmul s (scale a))))) in Hsim.
  assert (Hsm : block_agree h b sm1 sm2).
  { destruct m1 as [m1|], m2 as [m2|]; simpl in Hm; try done.
    - apply bind_Ok in Hm1 as (rm1 & Hr1 & Hm1). apply bind_Ok in Hm2 as (rm2 & Hr2 & Hm2).
      exact (masked_fill_agree _ _ _ _ _ _ _ _ _ _ _ Hr1 Hr2 Hm1 Hm2 Hsim Hm).
    - by injection Hm1 as <-; injection Hm2 as <-. }
  apply (map_block_agree (map softmax)) in Hsm.
  pose proof (zip_exact_block_agree _ _ _ _ _ _ _ _ _ Ho1 Ho2 Hsm Hv) as Ho.
  pose proof (rearrange_merge_agree _ _ _ _ _ _ Hg1 Hg2 Ho) as Hg.
  by eapply mapM_agree.
Qed.

End Rows.

Section Noninterference.
Context {rt : Runtime} {rot : Rotary}.

(** ** The sublayers, row by row *)

Lemma rotated_block_agree pe h b t1 t2 :
  block_agree h b t1 t2 → block_agree h b (rotated pe t1) (rotated pe t2).
Proof. destruct pe; [apply map_block_agree | done]. Qed.

Lemma Attention_forward_agree a x1 x2 c1 c2 m1 m2 pe s1 s2 y1 y2 s1' s2' b :
  run (Attention_forward a x1 c1 m1 pe) s1 = Ok (y1, s1') →
  run (Attention_forward a x2 c2 m2 pe) s2 = Ok (y2, s2') →
  agree b x1 x2 → context_agree b c1 c2 → mask_agree b m1 m2 →
  agree b y1 y2.
Proof.
  intros (q1 & k1 & v1 & Hq1 & _ & Hy1)%Attention_forward_run
         (q2 & k2 & v2 & Hq2 & _ & Hy2)%Attention_forward_run Hx Hc Hm.
  destruct (qkv_heads_agree _ _ _ _ _ _ _ _ _ _ _ _ Hq1 Hq2 Hx Hc) as (Hq & Hk & Hv).
  eapply attend_agree; eauto using rotated_block_agree.
Qed.

Lemma FeedForward_forward_agree f x1 x2 y1 y2 b :
  FeedForward_forward f x1 = Ok y1 → FeedForward_forward f x2 = Ok y2 →
  agree b x1 x2 → agree b y1 y2.
Proof.
  unfold FeedForward_forward, Linear_forward, Dropout_forward.
  intros (a1 & Ha1 & (g1 & Hg1 & H1)%bind_Ok)%bind_Ok
         (a2 & Ha2 & (g2 & Hg2 & H2)%bind_Ok)%bind_Ok Hx.
  eauto using mapM_agree.
Qed.

Lemma call_fn_agree r x1 x2 kw1 kw2 s1 s2 y1 y2 s1' s2' b :
  heap s1 = heap s2 →
  run (call_fn r x1 kw1) s1 = Ok (y1, s1') →
  run (call_fn r x2 kw2) s2 = Ok (y2, s2') →
  agree b x1 x2 → kw_agree b kw1 kw2 → agree b y1 y2.
Proof.
  unfold call_fn. intros Hh H1 H2 Hx (Hc & Hm & Hp).
  apply run_bind in H1 as (o1 & t1 & D1 & H1). apply run_deref in D1 as [D1 <-].
  apply run_bind in H2 as (o2 & t2 & D2 & H2). apply run_deref in D2 as [D2 <-].
  rewrite Hh in D1. rewrite D1 in D2. injection D2 as <-.
  destruct o1; try done.
  - rewrite Hp in H1. eapply Attention_forward_agree; eauto.
  - destruct (kw_context kw1), (kw_mask kw1), (kw_pos_emb kw1); try done.
    destruct (kw_context kw2), (kw_mask kw2), (kw_pos_emb kw2); try done.
    apply run_lift in H1 as [H1 _]. apply run_lift in H2 as [H2 _].
    by eapply FeedForward_forward_agree.
Qed.

Lemma PreNorm_forward_agree p x1 x2 kw1 kw2 s1 s2 y1 y2 s1' s2' b :
  heap s1 = heap s2 →
  run (PreNorm_forward p x1 kw1) s1 = Ok (y1, s1') →
  run (PreNorm_forward p x2 kw2) s2 = Ok (y2, s2') →
  agree b x1 x2 → kw_agree b kw1 kw2 → agree b y1 y2.
Proof.
  unfold PreNorm_forward. intros Hh H1 H2 Hx (Hc & Hm & Hp).
  apply run_bind in H1 as (n1 & t1 & N1 & H1). apply run_lift in N1 as [N1 <-].
  apply run_bind in H2 as (n2 & t2 & N2 & H2). apply run_lift in N2 as [N2 <-].
  apply run_bind in H1 as (kw1' & t1 & K1 & H1).
  apply run_bind in H2 as (kw2' & t2 & K2 & H2).
  pose proof (mapM_agree _ _ _ _ _ _ N1 N2 Hx) as Hn.
  assert (t1 = s1 ∧ t2 = s2 ∧ kw_agree b kw1' kw2') as (-> & -> & Hkw).
  { destruct (norm_context p) as [nc|].
    - destruct (kw_context kw1) as [c1|] eqn:E1; [|done].
      destruct (kw_context kw2) as [c2|] eqn:E2; [|done].
      apply run_bind in K1 as (c1' & u1 & C1 & K1). apply run_lift in C1 as [C1 <-].
      apply run_bind in K2 as (c2' & u2 & C2 & K2). apply run_lift in C2 as [C2 <-].
      apply run_ret in K1 as [<- <-]. apply run_ret in K2 as [<- <-].
      split; [done|]. split; [done|]. split; [|done]. simpl in *.
      by eapply mapM_agree.
    - apply run_ret in K1 as [<- <-]. apply run_ret in K2 as [<- <-]. done. }
  by eapply call_fn_agree.
Qed.

Lemma rowwise_call r kw1 kw2 b :
  kw_agree b kw1 kw2 → rowwise b (λ x, call r x kw1) (λ x, call r x kw2).
Proof.
  intros Hkw x1 x2 s1 s2 y1 y2 s1' s2' Hh Hx H1 H2. split.
  - unfold call in H1, H2.
    apply run_bind in H1 as (o1 & t1 & D1 & H1). apply run_deref in D1 as [D1 <-].
    apply run_bind in H2 as (o2 & t2 & D2 & H2). apply run_deref in D2 as [D2 <-].
    rewrite Hh in D1. rewrite D1 in D2. injection D2 as <-.
    destruct o1; try done. by eapply PreNorm_forward_agree.
  - apply call_emits in H1 as (? & (-> & _) & _).
    by apply call_emits in H2 as (? & (-> & _) & _).
Qed.

Lemma add3_agree y1 x1 z1 y2 x2 z2 b :
  add3 y1 x1 = Ok z1 → add3 y2 x2 = Ok z2 →
  agree b y1 y2 → agree b x1 x2 → agree b z1 z2.
Proof. apply zip_exact_agree. Qed.

Lemma rowwise_residual F1 F2 b :
  rowwise b F1 F2 → rowwise b (residual F1) (residual F2).
Proof.
  intros HF x1 x2 s1 s2 y1 y2 s1' s2' Hh Hx
    (f1 & H1 & A1)%residual_run (f2 & H2 & A2)%residual_run.
  destruct (HF _ _ _ _ _ _ _ _ Hh Hx H1 H2) as [Hf Hh'].
  split; [by eapply add3_agree | done].
Qed.

Lemma rowwise_bind F1 F2 G1 G2 b :
  rowwise b F1 F2 → rowwise b G1 G2 →
  rowwise b (λ x, F1 x ≫= G1) (λ x, F2 x ≫= G2).
Proof.
  intros HF HG x1 x2 s1 s2 y1 y2 s1' s2' Hh Hx
    (a1 & t1 & H1 & K1)%run_bind (a2 & t2 & H2 & K2)%run_bind.
  destruct (HF _ _ _ _ _ _ _ _ Hh Hx H1 H2) as [Ha Hh'].
  by eapply HG.
Qed.

Lemma rowwise_foldlM {B} (f1 f2 : T3 → B → M T3) (ls : list B) b :
  (∀ l, rowwise b (λ x, f1 x l) (λ x, f2 x l)) →
  rowwise b (λ x, foldlM f1 x ls) (λ x, foldlM f2 x ls).
Proof.
  intros Hf. induction ls as [|l ls IH]; intros x1 x2 s1 s2 y1 y2 s1' s2' Hh Hx H1 H2.
  - apply run_ret in H1 as [<- <-]. by apply run_ret in H2 as [<- <-].
  - simpl in H1, H2.
    apply run_bind in H1 as (a1 & t1 & H1 & K1).
    apply run_bind in H2 as (a2 & t2 & H2 & K2).
    destruct (Hf l _ _ _ _ _ _ _ _ Hh Hx H1 H2) as [Ha Hh'].
    by eapply IH.
Qed.

Lemma rowwise_self_block pe blk b :
  rowwise b (λ x, self_block pe x blk) (λ x, self_block pe x blk).
Proof.
  unfold self_block.
  apply (rowwise_bind (residual _) (residual _) (residual _) (residual _));
    apply rowwise_residual, rowwise_call; done.
Qed.

Lemma rowwise_layer_group d1 d2 m1 m2 pe l b :
  agree b d1 d2 → mask_agree b m1 m2 →
  rowwise b (λ x, layer_group d1 m1 pe x l) (λ x, layer_group d2 m2 pe x l).
Proof.
  intros Hd Hm. unfold layer_group.
  apply (rowwise_bind (residual _) (residual _)).
  { apply rowwise_residual, rowwise_call. done. }
  apply (rowwise_bind (residual _) (residual _)).
  { apply rowwise_residual, rowwise_call. done. }
  apply rowwise_foldlM. intros blk. apply rowwise_self_block.
Qed.

End Noninterference.

Section Batch.
Context {rt : Runtime} {rot : Rotary}.

(** ** The preparation of the data, row by row *)

Lemma shape_of_row {A} r (l : tensor A (S r)) sh i x :
  shape_of (S r) l = Some sh → l !! i = Some x →
  ∃ s, sh = length l :: s ∧ shape_of r x = Some s.
Proof.
  intros H Hx. destruct l as [|y ys]; [done|]. simpl in H.
  destruct (shape_of r y) as [s|] eqn:Ey; [|done]. simpl in H.
  destruct (forallb _ ys) eqn:Ef; [|done]. injection H as <-.
  exists s. split; [done|]. destruct i as [|i]; simpl in Hx.
  - by injection Hx as <-.
  - rewrite forallb_forall in Ef. apply list_elem_of_lookup_2, list_elem_of_In in Hx.
    apply Ef in Hx. by apply bool_decide_eq_true in Hx.
Qed.

Lemma agree_replicate {A} (x : A) n1 n2 b :
  b < n1 → b < n2 → agree b (replicate n1 x) (replicate n2 x).
Proof. intros H1 H2. exists x. by rewrite !lookup_replicate_2. Qed.

Lemma agree_length_l {A} (xs ys : list A) b : agree b xs ys → b < length xs.
Proof. intros (x & H & _). by eapply lookup_lt_Some. Qed.

Lemma agree_length_r {A} (xs ys : list A) b : agree b xs ys → b < length ys.
Proof. intros (x & _ & H). by eapply lookup_lt_Some. Qed.

Lemma encode_positions_agree r self axis (d1 d2 y1 y2 : tensor scalar (S (S r))) b :
  encode_positions self axis d1 = Ok y1 → encode_positions self axis d2 = Ok y2 →
  agree b d1 d2 → agree b y1 y2.
Proof.
  unfold encode_positions.
  intros (ap1 & A1 & (p1 & P1 & (e1 & E1 & C1)%bind_Ok)%bind_Ok)%bind_Ok
         (ap2 & A2 & (p2 & P2 & (e2 & E2 & C2)%bind_Ok)%bind_Ok)%bind_Ok Hd.
  assert (ap2 = ap1) as -> by congruence.
  assert (p2 = p1) as -> by congruence.
  assert (e2 = e1) as -> by congruence.
  eapply (zip_exact_agree _ _ _ _ _ _ _ _ C1 C2 Hd).
  apply agree_replicate; [by eapply agree_length_l | by eapply agree_length_r].
Qed.

Lemma axis_agree r (d1 d2 : tensor scalar (S (S r))) sh1 sh2 b :
  shape_of (S (S r)) d1 = Some sh1 → shape_of (S (S r)) d2 = Some sh2 →
  agree b d1 d2 → drop 1 sh1 = drop 1 sh2.
Proof.
  intros H1 H2 (x & Hx1 & Hx2).
  destruct (shape_of_row _ _ _ _ _ H1 Hx1) as (s1 & -> & E1).
  destruct (shape_of_row _ _ _ _ _ H2 Hx2) as (s2 & -> & E2).
  simpl. congruence.
Qed.

(** ** The latent array and the logits, row by row *)

Lemma Perceiver_latents_agree r self (d1 d2 : tensor scalar (S (S r))) m1 m2
    s1 s2 x1 x2 s1' s2' b :
  heap s1 = heap s2 → agree b d1 d2 → mask_agree b m1 m2 →
  run (Perceiver_latents self d1 m1) s1 = Ok (x1, s1') →
  run (Perceiver_latents self d2 m2) s2 = Ok (x2, s2') →
  agree b x1 x2 ∧ heap s1' = heap s2'.
Proof.
  intros Hh Hd Hm H1 H2. unfold Perceiver_latents in H1, H2.
  destruct (shape_of (S (S r)) d1) as [sh1|] eqn:S1; [|done].
  destruct (shape_of (S (S r)) d2) as [sh2|] eqn:S2; [|done].
  rewrite <- (axis_agree _ _ _ _ _ _ S1 S2 Hd) in H2.
  set (axis := take r (drop 1 sh1)) in *.
  destruct (negb _); [done|].
  apply run_bind in H1 as (e1 & t1 & E1 & H1).
  apply run_bind in H2 as (e2 & t2 & E2 & H2).
  assert (agree b e1 e2 ∧ t1 = s1 ∧ t2 = s2) as (He & -> & ->).
  { destruct (self_fourier_encode_data self).
    - apply run_lift in E1 as [E1 <-]. apply run_lift in E2 as [E2 <-].
      split; [|done]. by eapply encode_positions_agree.
    - apply run_ret in E1 as [<- <-]. apply run_ret in E2 as [<- <-]. done. }
  apply run_bind in H1 as (o1 & t1 & D1 & H1). apply run_deref in D1 as [D1 <-].
  apply run_bind in H2 as (o2 & t2 & D2 & H2). apply run_deref in D2 as [D2 <-].
  rewrite Hh in D1. rewrite D1 in D2. injection D2 as <-.
  destruct o1 as [w| | | |]; try done.
  apply run_bind in H1 as (pe1 & t1 & T1 & H1).
  apply run_bind in H2 as (pe2 & t2 & T2 & H2).
  pose proof (agree_length_l _ _ _ Hd) as Hb1.
  pose proof (agree_length_r _ _ _ Hd) as Hb2.
  assert (pe2 = pe1 ∧ heap t1 = heap t2) as (-> & Hh').
  { destruct (sinu_emb self) as [e|].
    - unfold SinusoidalEmbeddings_forward in T1, T2.
      apply run_bind in T1 as (a1 & u1 & T1 & R1). apply run_ret in R1 as [<- <-].
      apply run_bind in T2 as (a2 & u2 & T2 & R2). apply run_ret in R2 as [<- <-].
      apply run_bind in T1 as ([] & v1 & T1 & R1). apply run_ret in R1 as [<- <-].
      apply run_bind in T2 as ([] & v2 & T2 & R2). apply run_ret in R2 as [<- <-].
      apply run_emit in T1 as ->. apply run_emit in T2 as ->. simpl.
      split; [|done].
      destruct (length d1) as [|n1]; [lia|]. destruct (length d2) as [|n2]; [lia|]. done.
    - apply run_ret in T1 as [<- <-]. apply run_ret in T2 as [<- <-]. done. }
  eapply (rowwise_foldlM _ _ (layers self) b); [| exact Hh' | | exact H1 | exact H2].
  - intros l. apply rowwise_layer_group; [by apply map_agree | done].
  - by apply agree_replicate.
Qed.


End Batch.

Section Residual.
Context {rt : Runtime} {rot : Rotary}.

(** ** The loop over the layers is a chain of residual steps *)

Lemma run_bind_ext {A B} (m1 m2 : M A) (f1 f2 : A → M B) st :
  run m1 st = run m2 st → (∀ a st', run (f1 a) st' = run (f2 a) st') →
  run (m1 ≫= f1) st = run (m2 ≫= f2) st.
Proof.
  unfold run, mbind, M_bind. intros -> Hf. destruct (m2 st) as [[a st']|e]; [apply Hf | done].
Qed.

Lemma run_bind_assoc {A B C} (m : M A) (f : A → M B) (g : B → M C) st :
  run ((m ≫= f) ≫= g) st = run (m ≫= λ a, f a ≫= g) st.
Proof. unfold run, mbind, M_bind. by destruct (m st) as [[a st']|e]. Qed.

Lemma foldlM_app {A B} (f : A → B → M A) l1 l2 a st :
  run (foldlM f a (l1 ++ l2)) st = run (foldlM f a l1 ≫= λ a', foldlM f a' l2) st.
Proof.
  revert a st. induction l1 as [|b l1 IH]; intros a st; simpl.
  - done.
  - rewrite run_bind_assoc. apply run_bind_ext; [done|]. intros a' st'. apply IH.
Qed.

Lemma self_blocks_chain pe blks x st :
  run (foldlM (self_block pe) x blks) st
  = run (residual_chain x
           (concat (map (λ blk : nat * nat,
                           [(blk.1, {| kw_context := None; kw_mask := None;
                                       kw_pos_emb := pe |});
                            (blk.2, no_kwargs)]) blks))) st.
Proof.
  unfold residual_chain. revert x st.
  induction blks as [|blk blks IH]; intros x st; simpl; [done|].
  unfold self_block at 1. etrans; [apply run_bind_assoc|].
  apply run_bind_ext; [done|]. intros x1 st1.
  apply run_bind_ext; [done|]. intros x2 st2. apply IH.
Qed.

Lemma layer_group_chain d m pe l x st :
  run (layer_group d m pe x l) st = run (residual_chain x (sublayer_calls d m pe l)) st.
Proof.
  unfold layer_group, residual_chain, sublayer_calls. simpl.
  apply run_bind_ext; [done|]. intros x1 st1.
  apply run_bind_ext; [done|]. intros x2 st2.
  apply self_blocks_chain.
Qed.

Lemma layers_chain d m pe ls x st :
  run (foldlM (layer_group d m pe) x ls) st
  = run (residual_chain x (concat (map (sublayer_calls d m pe) ls))) st.
Proof.
  revert x st. induction ls as [|l ls IH]; intros x st; [done|].
  unfold residual_chain. rewrite map_cons, concat_cons, foldlM_app.
  change (foldlM (layer_group d m pe) x (l :: ls))
    with (layer_group d m pe x l ≫= λ x', foldlM (layer_group d m pe) x' ls).
  apply run_bind_ext; [apply layer_group_chain|]. intros x1 st1. apply IH.
Qed.

(** ** Sublayers whose last projection is zero *)

Section Zero.
Hypothesis fadd_zero_l : ∀ a, fadd fzero a = a.
Hypothesis fmul_zero_r : ∀ a, fmul a fzero = fzero.

Lemma vsum_zero v : zero_vec v → vsum v = fzero.
Proof using Type fadd_zero_l fmul_zero_r.
  unfold vsum. induction 1 as [|a v -> _ IH]; simpl; [done|]. by rewrite IH, fadd_zero_l.
Qed.

Lemma dot_zero v w s : zero_vec w → dot v w = Ok s → s = fzero.
Proof using Type fadd_zero_l fmul_zero_r.
  unfold dot. intros Hw. destruct (_ =? _); [|done]. intros [= <-].
  apply vsum_zero. clear -Hw fmul_zero_r. revert v.
  induction Hw as [|a w -> _ IH]; intros [|b v]; simpl; try by constructor.
  constructor; [apply fmul_zero_r | apply IH].
Qed.

Lemma zip_with_fadd_zero y b : zero_vec y → zero_vec b → zero_vec (zip_with fadd y b).
Proof using Type fadd_zero_l fmul_zero_r.
  intros Hy. revert b. induction Hy as [|a y -> _ IH]; intros b Hb; simpl; [constructor|].
  destruct Hb as [|c b -> Hb]; constructor; [apply fadd_zero_l | by apply IH].
Qed.

Lemma Linear_vec_zero l v y : zero_linear l → Linear_vec l v = Ok y → zero_vec y.
Proof using Type fadd_zero_l fmul_zero_r.
  intros [Hw Hb]. unfold Linear_vec. destruct (_ =? _)%Z; [|done].
  intros (d & Hd & [= <-])%bind_Ok. apply mapM_Ok in Hd.
  assert (zero_vec d) as Hz.
  { clear Hb. induction Hd as [|w s ws ds Hs _ IH]; [constructor|].
    inversion Hw; subst. constructor; [by eapply dot_zero | by apply IH]. }
  destruct (bias l) as [b|]; [|done]. apply zip_with_fadd_zero; auto.
Qed.

Lemma Linear_forward_zero l x y : zero_linear l → Linear_forward l x = Ok y → zero_T3 y.
Proof using Type fadd_zero_l fmul_zero_r.
  intros Hl Hy. apply mapM_Ok in Hy.
  induction Hy as [|m n ms ns Hn _ IH]; [constructor|]. constructor; [|done].
  apply mapM_Ok in Hn. clear -Hn Hl fadd_zero_l fmul_zero_r.
  induction Hn as [|v w vs ws Hw _ IH]; [constructor|].
  constructor; [by eapply Linear_vec_zero | done].
Qed.

Lemma attend_zero a q k v mask y :
  zero_linear (to_out a).1 → attend a q k v mask = Ok y → zero_T3 y.
Proof using Type fadd_zero_l fmul_zero_r.
  intros Hl. unfold attend, Dropout_forward. cbv zeta.
  intros (w & _ & (o1 & _ & (o2 & _ & (o3 & Ho & [= <-])%bind_Ok)%bind_Ok)%bind_Ok)%bind_Ok.
  by eapply Linear_forward_zero.
Qed.

Lemma FeedForward_forward_zero f x y :
  zero_linear (net_3 f) → FeedForward_forward f x = Ok y → zero_T3 y.
Proof using Type fadd_zero_l fmul_zero_r.
  intros Hl. unfold FeedForward_forward, Dropout_forward.
  intros (a & _ & (g & _ & Hy)%bind_Ok)%bind_Ok. by eapply Linear_forward_zero.
Qed.

Lemma call_fn_zero r x kw st y st' :
  Forall zeroed (heap st) → run (call_fn r x kw) st = Ok (y, st') → zero_T3 y.
Proof using Type fadd_zero_l fmul_zero_r.
  intros Hz H. unfold call_fn in H.
  apply run_bind in H as (o & t & D & H). apply run_deref in D as [D <-].
  rewrite Forall_lookup in Hz. specialize (Hz _ _ D).
  destruct o; try done.
  - apply Attention_forward_run in H as (q & k & v & _ & _ & H). by eapply attend_zero.
  - destruct (kw_context kw), (kw_mask kw), (kw_pos_emb kw); try done.
    apply run_lift in H as [H _]. by eapply FeedForward_forward_zero.
Qed.

Lemma call_zero r x kw st y st' :
  Forall zeroed (heap st) → run (call r x kw) st = Ok (y, st') → zero_T3 y.
Proof using Type fadd_zero_l fmul_zero_r.
  intros Hz H. unfold call in H.
  apply run_bind in H as (o & t & D & H). apply run_deref in D as [D <-].
  destruct o as [| | |p|]; try done. unfold PreNorm_forward in H.
  apply run_bind in H as (n & t & N & H). apply run_lift in N as [_ <-].
  apply run_bind in H as (kw' & t & K & H).
  assert (t = st) as ->.
  { destruct (norm_context p); [|by apply run_ret in K as [_ <-]].
    destruct (kw_context kw); [|done].
    apply run_bind in K as (c & u & C & K). apply run_lift in C as [_ <-].
    by apply run_ret in K as [_ <-]. }
  by eapply call_fn_zero.
Qed.

Lemma zip_exact_left_zero {A B} (P : A → Prop) (f : A → B → result B) ys xs zs :
  (∀ y x z, P y → f y x = Ok z → z = x) →
  Forall P ys → zip_exact f ys xs = Ok zs → zs = xs.
Proof using Type fadd_zero_l fmul_zero_r.
  intros Hf Hy. unfold zip_exact.
  destruct (Nat.eqb_spec (length ys) (length xs)) as [Hl|]; [|done].
  intros H. apply mapM_Ok in H. revert xs zs Hl H.
  induction Hy as [|y ys Py _ IH]; intros [|x xs] zs Hl H; simpl in *; try done.
  - by inversion H.
  - inversion H as [|? z ? zs' Hz Hzs]; subst. simpl in Hz.
    f_equal; [by eapply Hf | apply IH; [lia | done]].
Qed.

Lemma add3_zero y x z : zero_T3 y → add3 y x = Ok z → z = x.
Proof using Type fadd_zero_l fmul_zero_r.
  unfold add3, zero_T3, zero_vec.
  apply (zip_exact_left_zero (Forall (Forall (λ a, a = fzero)))). intros y1 x1 z1.
  apply (zip_exact_left_zero (Forall (λ a, a = fzero))). intros y2 x2 z2.
  apply (zip_exact_left_zero (λ a, a = fzero)). intros a b c -> [= <-]. apply fadd_zero_l.
Qed.

Lemma residual_step_zero x c st y st' :
  Forall zeroed (heap st) → run (residual_step x c) st = Ok (y, st') →
  y = x ∧ heap st' = heap st.
Proof using Type fadd_zero_l fmul_zero_r.
  intros Hz H. unfold residual_step in H.
  apply run_bind in H as (fx & t & H & A). apply run_lift in A as [A <-].
  split.
  - eapply add3_zero; [|exact A]. by eapply call_zero.
  - by apply call_emits in H as (? & (-> & _) & _).
Qed.

Lemma residual_chain_zero cs x st y st' :
  Forall zeroed (heap st) → run (residual_chain x cs) st = Ok (y, st') → y = x.
Proof using Type fadd_zero_l fmul_zero_r.
  unfold residual_chain. revert x st.
  induction cs as [|c cs IH]; intros x st Hz H; simpl in H.
  - by apply run_ret in H as [<- _].
  - apply run_bind in H as (x1 & st1 & H1 & H).
    destruct (residual_step_zero _ _ _ _ _ Hz H1) as [-> Hh].
    eapply IH; [|exact H]. by rewrite Hh.
Qed.

Lemma Perceiver_latents_zero r self (data : tensor scalar (S (S r))) mask st x st' :
  Forall zeroed (heap st) →
  run (Perceiver_latents self data mask) st = Ok (x, st') →
  ∃ w, heap st !! latents self = Some (OParameter w) ∧ x = replicate (length data) w.
Proof using Type fadd_zero_l fmul_zero_r.
  intros Hz H. unfold Perceiver_latents in H.
  destruct (shape_of (S (S r)) data) as [sh|]; [|done].
  destruct (negb _); [done|].
  apply run_bind in H as (e & t & E & H).
  assert (t = st) as ->.
  { destruct (self_fourier_encode_data self);
      [by apply run_lift in E as [_ <-] | by apply run_ret in E as [_ <-]]. }
  apply run_bind in H as (o & t & D & H). apply run_deref in D as [D <-].
  destruct o as [w| | | |]; try done. exists w. split; [done|].
  apply run_bind in H as (pe & t & T & H).
  assert (heap t = heap st) as Hh.
  { destruct (sinu_emb self) as [s|]; [|by apply run_ret in T as [_ <-]].
    unfold SinusoidalEmbeddings_forward in T.
    apply run_bind in T as (a & u & T & R). apply run_ret in R as [_ <-].
    apply run_bind in T as ([] & v & T & R). apply run_ret in R as [_ <-].
    by apply run_emit in T as ->. }
  rewrite layers_chain in H. eapply residual_chain_zero; [|exact H]. by rewrite Hh.
Qed.

End Zero.


End Residual.

Section Softmax.
Context {rt : Runtime}.

(** ** The masked scores and the attention weights *)

Lemma expand_to_length {A} n (l k : list A) : expand_to n l = Ok k → length k = n.
Proof.
  unfold expand_to. destruct (Nat.eqb_spec (length l) n) as [Hl|_].
  - by intros [= <-].
  - destruct l as [|a [|]]; try done. intros [= <-]. apply length_replicate.
Qed.

Lemma expand_to_singleton {A} n (x y : A) k i :
  expand_to n [x] = Ok k → k !! i = Some y → y = x.
Proof.
  unfold expand_to. destruct (Nat.eqb_spec (length [x]) n) as [Hl|_]; intros [= <-].
  - destruct i; simpl; [congruence | done].
  - by intros [-> _]%lookup_replicate.
Qed.

Lemma lookup_map_Some {A B} (f : A → B) (l : list A) i y :
  map f l !! i = Some y → ∃ x, l !! i = Some x ∧ y = f x.
Proof.
  rewrite list_lookup_fmap. destruct (l !! i); simpl; [|done]. intros [= <-]. eauto.
Qed.

Lemma masked_fill_row h fm rm sim r value b hd i mrow m row :
  repeat_mask h fm = Ok rm → masked_fill sim rm value = Ok r →
  fm !! b = Some mrow → hd < Z.to_nat h →
  r !! (b * Z.to_nat h + hd) = Some m → m !! i = Some row →
  ∃ srow keep,
    expand_to (length srow) mrow = Ok keep
    ∧ row = zip_with (λ s (keep : bool), if keep then s else value) srow keep.
Proof.
  unfold masked_fill. intros Hr (mk & He & H)%bind_Ok Hb Hhd Hm Hi.
  apply mapM_Ok in H.
  destruct (Forall2_lookup_r _ _ _ _ _ H Hm) as ([Sm Mm] & Hz & Hf).
  apply lookup_zip_with_Some in Hz as (Sm' & Mm' & [= <- <-] & HS & HM). simpl in Hf.
  rewrite (expand_repeat_lookup _ _ _ _ _ _ _ _ Hr He Hb Hhd) in HM
    by (by eapply lookup_lt_Some).
  injection HM as <-.
  apply bind_Ok in Hf as (mrows & Hrows & Hf). apply mapM_Ok in Hf.
  destruct (Forall2_lookup_r _ _ _ _ _ Hf Hi) as ([srow mr] & Hz & Hq).
  apply lookup_zip_with_Some in Hz as (s' & m' & [= <- <-] & Hs & Hmr). simpl in Hq.
  apply (expand_to_singleton _ _ _ _ _ Hrows) in Hmr as ->.
  apply bind_Ok in Hq as (keep & Hk & [= <-]). eauto.
Qed.

Lemma masked_row_lookup (srow : vec) (keep : list bool) value j :
  length keep = length srow → keep !! j = Some false →
  zip_with (λ s (keep : bool), if keep then s else value) srow keep !! j = Some value.
Proof.
  intros Hl Hj. apply lookup_zip_with_Some.
  destruct (lookup_lt_is_Some_2 srow j) as [s Hs].
  { rewrite <- Hl. by eapply lookup_lt_Some. }
  by exists s, false.
Qed.

Lemma softmax_lookup row j a :
  row !! j = Some a →
  softmax row !! j = Some (fdiv (fexp (fsub a (vmax row))) (softmax_sum row)).
Proof.
  intros H. unfold softmax, softmax_sum, vec in *. cbv zeta.
  by rewrite !list_lookup_fmap, H.
Qed.

Lemma length_softmax row : length (softmax row) = length row.
Proof. unfold softmax. by rewrite !length_map. Qed.

Lemma vsum_fdiv e s :
  exact_division → vsum (map (λ a, fdiv a s) e) = fdiv (vsum e) s.
Proof.
  intros (Hadd & Hz & _). unfold vsum. induction e as [|a e IH]; simpl; [by rewrite Hz|].
  by rewrite IH, Hadd.
Qed.

Lemma softmax_sums_to_one row :
  exact_division → softmax_sum row ≠ fzero → vsum (softmax row) = fone.
Proof.
  intros Hd Hs. unfold softmax. cbv zeta. rewrite vsum_fdiv by done.
  by apply Hd.
Qed.

Lemma softmax_constant row c :
  (∀ j, j < length row → row !! j = Some c) →
  softmax row
  = replicate (length row) (fdiv (fexp (fsub c (vmax row))) (softmax_sum row)).
Proof.
  intros Hc. apply list_eq. intros j.
  destruct (decide (j < length row)) as [Hj|Hj].
  - rewrite lookup_replicate_2 by done. by apply softmax_lookup, Hc.
  - rewrite !lookup_ge_None_2; [done | rewrite length_replicate; lia
                                | rewrite length_softmax; lia].
Qed.


End Softmax.

Section Shapes.
Context {rt : Runtime}.

(** ** Shapes through the modules *)

Lemma mapM_total {A B} (f : A → result B) (P : B → Prop) l :
  Forall (λ x, ∃ y, f x = Ok y ∧ P y) l →
  ∃ k, mapM f l = Ok k ∧ length k = length l ∧ Forall P k.
Proof.
  induction 1 as [|x l (y & Hy & HP) _ (k & Hk & Hl & HPk)].
  - by exists [].
  - exists (y :: k). cbn. rewrite Hy. cbn. rewrite Hk. cbn.
    split; [done|]. split; [by rewrite Hl | by constructor].
Qed.

Lemma mapM_mat_shape {A B} (f : list A → result (list B)) n d d' m :
  (∀ v, length v = d → ∃ w, f v = Ok w ∧ length w = d') →
  mat_shape n d m → ∃ m', mapM f m = Ok m' ∧ mat_shape n d' m'.
Proof.
  intros Hf [Hn Hall].
  destruct (mapM_total f (λ w, length w = d') m) as (m' & Hm & Hl & HP).
  { eapply Forall_impl; [exact Hall|]. intros v Hv. by apply Hf. }
  exists m'. split; [done|]. split; [congruence | done].
Qed.

Lemma mapM_has_shape {A B} (f : list A → result (list B)) b n d d' x :
  (∀ v, length v = d → ∃ w, f v = Ok w ∧ length w = d') →
  has_shape b n d x → ∃ y, mapM (mapM f) x = Ok y ∧ has_shape b n d' y.
Proof.
  intros Hf [Hb Hall].
  destruct (mapM_total (mapM f) (mat_shape n d') x) as (y & Hy & Hl & HP).
  { eapply Forall_impl; [exact Hall|]. intros m Hm. by eapply mapM_mat_shape. }
  exists y. split; [done|]. split; [congruence | done].
Qed.

Lemma zip_exact_total {A B C} (PA : A → Prop) (PB : B → Prop) (P : C → Prop)
    (f : A → B → result C) xs ys :
  length xs = length ys → Forall PA xs → Forall PB ys →
  (∀ x y, PA x → PB y → ∃ z, f x y = Ok z ∧ P z) →
  ∃ zs, zip_exact f xs ys = Ok zs ∧ length zs = length xs ∧ Forall P zs.
Proof.
  intros Hl Hx Hy Hf. unfold zip_exact. rewrite Hl, Nat.eqb_refl.
  destruct (mapM_total (λ p, f p.1 p.2) P (zip xs ys)) as (zs & Hz & Hlz & HP).
  { apply Forall_forall. intros [x y] Hin.
    apply elem_of_zip_l in Hin as Hinx. apply elem_of_zip_r in Hin as Hiny.
    rewrite Forall_forall in Hx. rewrite Forall_forall in Hy. apply Hf; auto. }
  exists zs. split; [done|]. split; [|done].
  rewrite Hlz, length_zip. lia.
Qed.

Lemma LayerNorm_vec_length ln d v :
  LayerNorm_wf d ln → length v = d →
  ∃ w, LayerNorm_vec ln v = Ok w ∧ length w = d.
Proof.
  intros (Hn & Hw & Hb) Hv. unfold LayerNorm_vec.
  rewrite Hn, Hv, Z.eqb_refl. eexists. split; [done|].
  rewrite !length_zip_with, !length_map. lia.
Qed.

Lemma LayerNorm_forward_shape ln b n d x :
  LayerNorm_wf d ln → has_shape b n d x →
  ∃ y, LayerNorm_forward ln x = Ok y ∧ has_shape b n d y.
Proof.
  intros Hln. apply mapM_has_shape. intros v. by apply LayerNorm_vec_length.
Qed.

Lemma Linear_vec_length l i o v :
  Linear_wf i o l → length v = i → ∃ y, Linear_vec l v = Ok y ∧ length y = o.
Proof.
  intros (Hi & [Ho Hrows] & Hb) Hv. unfold Linear_vec. rewrite Hi, Hv, Z.eqb_refl.
  destruct (mapM_total (λ w, dot v w) (λ _, True) (weight l)) as (y & Hy & Hl & _).
  { eapply Forall_impl; [exact Hrows|]. intros w Hw. unfold dot.
    rewrite Hv, Hw, Nat.eqb_refl. eauto. }
  rewrite Hy. cbn. eexists. split; [done|].
  unfold vec in *. destruct (bias l) as [bv|] eqn:E; [|lia].
  rewrite length_zip_with, (Hb _ eq_refl). lia.
Qed.

Lemma Linear_forward_shape l i o b n x :
  Linear_wf i o l → has_shape b n i x →
  ∃ y, Linear_forward l x = Ok y ∧ has_shape b n o y.
Proof.
  intros Hl. apply mapM_has_shape. intros v. by apply Linear_vec_length.
Qed.

(** ** GEGLU and FeedForward *)

Lemma half_of_double m : (m * 2 + 1) / 2 = m.
Proof. rewrite Nat.add_comm, Nat.div_add by lia. done. Qed.

Lemma chunk2_halves v m :
  length v = m * 2 →
  ∃ x gates, chunk2 v = Ok (x, gates) ∧ length x = m ∧ length gates = m
             ∧ x ++ gates = v.
Proof.
  intros Hv. unfold chunk2. rewrite Hv.
  destruct (Nat.eqb_spec (m * 2) 1) as [|_]; [lia|]. cbv zeta.
  rewrite half_of_double. do 2 eexists. split; [done|].
  rewrite length_take, length_drop, take_drop. split_and!; [lia | lia | done].
Qed.

Lemma GEGLU_vec_length v m :
  length v = m * 2 → ∃ w, GEGLU_vec v = Ok w ∧ length w = m.
Proof.
  intros Hv. destruct (chunk2_halves v m Hv) as (x & g & Hc & Hx & Hg & _).
  unfold GEGLU_vec. rewrite Hc. cbn. unfold broadcast2.
  rewrite length_map, Hx, Hg, Nat.eqb_refl. eexists. split; [done|].
  rewrite length_zip_with, length_map. lia.
Qed.

Lemma FeedForward_forward_shape f d b n x :
  FeedForward_wf d f → has_shape b n d x →
  ∃ y, FeedForward_forward f x = Ok y ∧ has_shape b n d y.
Proof.
  intros (m & H0 & H3) Hx. unfold FeedForward_forward, Dropout_forward.
  destruct (Linear_forward_shape _ _ _ _ _ _ H0 Hx) as (y0 & E0 & S0).
  destruct (mapM_has_shape GEGLU_vec b n (m * 2) m y0) as (y1 & E1 & S1);
    [intros v; apply GEGLU_vec_length | done |].
  destruct (Linear_forward_shape _ _ _ _ _ _ H3 S1) as (y2 & E2 & S2).
  exists y2. split; [|done].
  apply bind_Ok. exists y0. split; [done|]. apply bind_Ok. by exists y1.
Qed.

End Shapes.

(** the names of the tensor types, unfolded everywhere *)
Ltac unalias := repeat progress (unfold T3, mat, vec in * ).

Section HeadShapes.
Context {rt : Runtime}.

(** ** Heads: split and merge *)

Lemma cells_length {A} n d (l : list A) : length (cells n d l) = n.
Proof. unfold cells. by rewrite length_map, length_seq. Qed.

Lemma cells_Forall_length {A} n d (l : list A) :
  n * d ≤ length l → Forall (λ c, length c = d) (cells n d l).
Proof.
  intros Hl. unfold cells. apply Forall_forall. intros c Hc.
  apply list_elem_of_fmap in Hc as (i & -> & Hi). apply elem_of_seq in Hi.
  rewrite length_take, length_drop. nia.
Qed.

Lemma cells_S {A} n d (l : list A) :
  cells (S n) d l = take d l :: cells n d (drop d l).
Proof.
  unfold cells. simpl. f_equal. rewrite <- fmap_S_seq, <- list_fmap_compose.
  apply list_fmap_ext. intros _ i _. simpl. by rewrite drop_drop.
Qed.

Lemma concat_cells {A} n d (l : list A) : length l = n * d → concat (cells n d l) = l.
Proof.
  revert l. induction n as [|n IH]; intros l Hl.
  - destruct l; [done | simpl in Hl; lia].
  - rewrite cells_S. simpl. rewrite IH; [apply take_drop|].
    rewrite length_drop. lia.
Qed.

Lemma cells_concat {A} h (ls : list (list A)) :
  Forall (λ l, length l = h) ls → cells (length ls) h (concat ls) = ls.
Proof.
  induction 1 as [|l ls Hl _ IH]; [done|]. simpl. rewrite cells_S.
  rewrite take_app_length' by done. rewrite drop_app_length' by done. by rewrite IH.
Qed.

Lemma split_vec_shape h d v :
  0 < h → length v = d * h →
  split_vec h v = Ok (cells h d v) ∧ mat_shape h d (cells h d v).
Proof.
  intros Hh Hv. unfold split_vec. rewrite Hv, Nat.Div0.mod_mul, Nat.div_mul by lia.
  simpl. split; [done|]. split; [apply cells_length|].
  apply cells_Forall_length. lia.
Qed.

Lemma mapM_Forall_Ok {A B} (f : A → result B) (g : A → B) l :
  Forall (λ x, f x = Ok (g x)) l → mapM f l = Ok (map g l).
Proof. intros H. apply mapM_Ok. induction H; constructor; auto. Qed.

Lemma map_seq_lookup {A} (g : nat → A) (m : list A) :
  (∀ i v, m !! i = Some v → g i = v) → map g (seq 0 (length m)) = m.
Proof.
  intros Hg. apply list_eq. intros i. rewrite list_lookup_fmap.
  destruct (m !! i) as [v|] eqn:E.
  - rewrite lookup_seq_lt by (by eapply lookup_lt_Some). simpl. f_equal. by apply Hg.
  - rewrite lookup_seq_ge; [done|]. by apply lookup_ge_None.
Qed.

Lemma length_concat_const {A} d (ls : list (list A)) :
  Forall (λ l, length l = d) ls → length (concat ls) = length ls * d.
Proof.
  induction 1 as [|l ls Hl _ IH]; [done|]. simpl. rewrite length_app, IH, Hl. done.
Qed.

(** the [h] heads of one example: the head [k] holds, for every position,
    the [k]-th block of [d] features *)
Lemma split_heads_eq h d (m : mat) :
  0 < h → Forall (λ v, length v = d * h) m →
  split_heads (Z.of_nat h) m
  = Ok (map (λ k, map (λ v, take d (drop (k * d) v)) m) (seq 0 h)).
Proof.
  intros Hh Hm. unfold split_heads.
  destruct (Z.leb_spec (Z.of_nat h) 0) as [|_]; [lia|]. rewrite Nat2Z.id.
  apply bind_Ok. exists (map (cells h d) m). split.
  { apply mapM_Forall_Ok. eapply Forall_impl; [exact Hm|].
    intros v Hv. by apply split_vec_shape. }
  f_equal. apply list_fmap_ext. intros i k Hk.
  apply lookup_seq in Hk as [Hki Hk]. simpl in Hki. subst k. simpl.
  rewrite <- list_fmap_compose. apply list_fmap_ext. intros _ v _. simpl.
  unfold vec. by rewrite cells_lookup.
Qed.

Lemma split_heads_shape h d n (m : mat) :
  mat_shape n (d * h) m →
  mat_shape h n (map (λ k, map (λ v, take d (drop (k * d) v)) m) (seq 0 h))
  ∧ Forall (mat_shape n d)
      (map (λ k, map (λ v, take d (drop (k * d) v)) m) (seq 0 h)).
Proof.
  intros [Hn Hm]. split.
  - split; [by rewrite length_map, length_seq|].
    apply Forall_forall. intros g (k & -> & _)%list_elem_of_fmap. by rewrite length_map.
  - apply Forall_forall. intros g (k & -> & Hk)%list_elem_of_fmap.
    apply elem_of_seq in Hk. split; [by rewrite length_map|].
    apply Forall_forall. intros w (v & -> & Hv)%list_elem_of_fmap.
    rewrite Forall_forall in Hm. specialize (Hm _ Hv).
    rewrite length_take, length_drop. nia.
Qed.

Lemma rearrange_split_eq h d (t : T3) :
  0 < h → Forall (Forall (λ v, length v = d * h)) t →
  rearrange_split (Z.of_nat h) t
  = Ok (concat (map (λ m, map (λ k, map (λ v, take d (drop (k * d) v)) m) (seq 0 h)) t)).
Proof.
  intros Hh Ht. unfold rearrange_split.
  apply bind_Ok. eexists. split; [|done].
  apply (mapM_Forall_Ok _
           (λ m, map (λ k, map (λ v, take d (drop (k * d) v)) m) (seq 0 h))).
  eapply Forall_impl; [exact Ht|]. intros m Hm. by apply split_heads_eq.
Qed.

Lemma rearrange_split_shape h d b n (t : T3) :
  0 < h → has_shape b n (d * h) t →
  ∃ y, rearrange_split (Z.of_nat h) t = Ok y ∧ has_shape (b * h) n d y.
Proof.
  intros Hh [Hb Ht]. eexists. split.
  - apply rearrange_split_eq; [done|]. eapply Forall_impl; [exact Ht|]. by intros m [_ ?].
  - split.
    + rewrite (length_concat_const h), length_map, Hb; [done|].
      apply Forall_forall. intros g (m & -> & _)%list_elem_of_fmap.
      by rewrite length_map, length_seq.
    + apply Forall_concat, Forall_forall. intros g (m & -> & Hm)%list_elem_of_fmap.
      rewrite Forall_forall in Ht. by apply split_heads_shape, Ht.
Qed.

Lemma merge_group_heads h d (m : mat) :
  0 < h → Forall (λ v, length v = d * h) m →
  merge_group (map (λ k, map (λ v, take d (drop (k * d) v)) m) (seq 0 h)) = m.
Proof.
  intros Hh Hm. unfold merge_group.
  set (G := map _ (seq 0 h)).
  match goal with |- map _ (seq 0 ?N) = _ => assert (N = length m) as -> end.
  { subst G. destruct h as [|h]; [lia|]. simpl. by rewrite length_map. }
  apply map_seq_lookup. intros i v Hv. subst G.
  rewrite <- list_fmap_compose.
  rewrite <- (concat_cells h d v).
  2:{ rewrite Forall_forall in Hm. rewrite (Hm v) by (by eapply list_elem_of_lookup_2). lia. }
  f_equal. unfold cells, mat, vec in *. apply list_fmap_ext. intros _ k _. simpl.
  by rewrite list_lookup_fmap, Hv.
Qed.

Lemma merge_group_shape h d n (g : list mat) :
  0 < h → mat_shape h n g → Forall (mat_shape n d) g → mat_shape n (h * d) (merge_group g).
Proof.
  intros Hh [Hl Hn] Hg. unfold merge_group, mat, vec in *.
  match goal with |- mat_shape _ _ (map _ (seq 0 ?N)) => assert (N = n) as -> end.
  { destruct g as [|m0 g]; [simpl in Hl; lia|]. by inversion Hn. }
  split; [by rewrite length_map, length_seq|].
  apply Forall_forall. intros w (i & -> & Hi)%list_elem_of_fmap.
  apply elem_of_seq in Hi.
  rewrite (length_concat_const d), length_map, Hl; [done|].
  apply Forall_forall. intros v (m & -> & Hm)%list_elem_of_fmap.
  rewrite Forall_forall in Hg. destruct (Hg _ Hm) as [Hmn Hmd].
  destruct (lookup_lt_is_Some_2 m i) as [u Hu]; [lia|]. rewrite Hu. simpl.
  rewrite Forall_forall in Hmd. apply Hmd. by eapply list_elem_of_lookup_2.
Qed.

Lemma rearrange_merge_shape h d b n (t : T3) :
  0 < h → has_shape (b * h) n d t →
  ∃ y, rearrange_merge (Z.of_nat h) t = Ok y ∧ has_shape b n (h * d) y.
Proof.
  intros Hh [Hb Ht]. unfold rearrange_merge, T3, mat, vec in *.
  destruct (Z.leb_spec (Z.of_nat h) 0) as [|_]; [lia|]. cbv zeta. rewrite Nat2Z.id.
  rewrite Hb, Nat.Div0.mod_mul, Nat.div_mul by lia. simpl.
  eexists. split; [done|]. split; [by rewrite length_map, cells_length|].
  apply Forall_forall. intros y (g & -> & Hg)%list_elem_of_fmap.
  unfold cells in Hg. apply list_elem_of_fmap in Hg as (i & -> & Hi).
  apply elem_of_seq in Hi. apply merge_group_shape; [done| |].
  - assert (i * h + h ≤ b * h) by nia.
    unalias. split; [rewrite length_take, length_drop; lia|].
    apply Forall_take, Forall_drop. eapply Forall_impl; [exact Ht|]. by intros m [? _].
  - by apply Forall_take, Forall_drop.
Qed.

Lemma rearrange_merge_split h d (t : T3) :
  0 < h → Forall (Forall (λ v, length v = d * h)) t →
  rearrange_merge (Z.of_nat h)
    (concat (map (λ m, map (λ k, map (λ v, take d (drop (k * d) v)) m) (seq 0 h)) t))
  = Ok t.
Proof.
  intros Hh Ht. unfold rearrange_merge.
  destruct (Z.leb_spec (Z.of_nat h) 0) as [|_]; [lia|]. cbv zeta. rewrite Nat2Z.id.
  set (hs := map (λ m : mat, map (λ k, map (λ v : vec, take d (drop (k * d) v)) m)
                             (seq 0 h)) t).
  assert (Forall (λ g, length g = h) hs) as Hhs.
  { subst hs. apply Forall_forall. intros g (m & -> & _)%list_elem_of_fmap.
    by rewrite length_map, length_seq. }
  unalias. rewrite (length_concat_const h) by done.
  rewrite Nat.Div0.mod_mul, Nat.div_mul by lia. simpl.
  rewrite cells_concat by done. subst hs. f_equal.
  rewrite <- list_fmap_compose. rewrite <- (list_fmap_id t) at 2.
  apply list_fmap_ext. intros i m Hm. simpl. apply merge_group_heads; [done|].
  rewrite Forall_forall in Ht. apply Ht. by eapply list_elem_of_lookup_2.
Qed.

(** X1: folding the heads into the batch axis and back loses nothing:
    for [h >= 1] heads and vectors of [d * h] features,
    [rearrange(t, "b n (h d) -> (b h) n d")] followed by
    [rearrange(_, "(b h) n d -> b n (h d)")] returns [t]. *)
Theorem heads_round_trip (h : Z) (d : nat) (t : T3) :
  (0 < h)%Z → Forall (Forall (λ v, length v = d * Z.to_nat h)) t →
  rearrange_split h t ≫= rearrange_merge h = Ok t.
Proof.
  intros Hh Ht. rewrite <- (Z2Nat.id h) at 1 2 by lia.
  apply bind_Ok. eexists. split.
  - apply rearrange_split_eq; [lia | exact Ht].
  - apply rearrange_merge_split; [lia | exact Ht].
Qed.

End HeadShapes.

Section AttentionShapes.
Context {rt : Runtime} {rot : Rotary}.

(** ** The shapes inside Attention *)

Lemma has_shape_map {A B} (g : list A → list B) b n d d' (x : list (list (list A))) :
  (∀ v, length v = d → length (g v) = d') →
  has_shape b n d x → has_shape b n d' (map (map g) x).
Proof.
  intros Hg [Hb Hx]. split; [by rewrite length_map|].
  apply Forall_forall. intros m' (m & -> & Hm)%list_elem_of_fmap.
  rewrite Forall_forall in Hx. destruct (Hx _ Hm) as [Hn Hd].
  split; [by rewrite length_map|].
  apply Forall_forall. intros w (v & -> & Hv)%list_elem_of_fmap.
  rewrite Forall_forall in Hd. by apply Hg, Hd.
Qed.

Lemma has_shape_comm {A} b n d h (x : list (list (list A))) :
  has_shape b n (h * d) x → has_shape b n (d * h) x.
Proof. by rewrite (Nat.mul_comm h d). Qed.

Lemma einsum_qk_shape B n j d (q k : T3) :
  has_shape B n d q → has_shape B j d k →
  ∃ sim, einsum_qk q k = Ok sim ∧ has_shape B n j sim.
Proof.
  intros [Hq HQ] [Hk HK]. unfold einsum_qk.
  destruct (zip_exact_total (mat_shape n d) (mat_shape j d) (mat_shape n j)
              (λ Q K, mapM (λ qi, mapM (λ kj, dot qi kj) K) Q) q k)
    as (sim & Hs & Hl & HP); [unalias; lia | done | done | |].
  - intros Q K HQ' [Hj HK']. eapply mapM_mat_shape; [|exact HQ'].
    intros qi Hqi.
    destruct (mapM_total (λ kj, dot qi kj) (λ _, True) K) as (w & Hw & Hlw & _).
    { eapply Forall_impl; [exact HK'|]. intros kj Hkj. unfold dot.
      rewrite Hqi, Hkj, Nat.eqb_refl. eauto. }
    exists w. split; [done|]. unalias. lia.
  - exists sim. split; [done|]. split; [unalias; lia | done].
Qed.

Lemma repeat_mask_shape h b j (fm : list (list bool)) :
  mat_shape b j fm →
  ∃ rm, repeat_mask (Z.of_nat h) fm = Ok rm ∧ length rm = b * h
        ∧ Forall (λ m, ∃ row, m = [row] ∧ length row = j) rm.
Proof.
  intros [Hb Hj]. unfold repeat_mask.
  destruct (Z.ltb_spec (Z.of_nat h) 0) as [|_]; [lia|]. rewrite Nat2Z.id.
  eexists. split; [done|]. split.
  - rewrite (length_concat_const h), length_map, Hb; [done|].
    apply Forall_forall. intros g (row & -> & _)%list_elem_of_fmap.
    apply length_replicate.
  - apply Forall_concat, Forall_forall. intros g (row & -> & Hrow)%list_elem_of_fmap.
    apply Forall_forall. intros m [-> _]%elem_of_replicate.
    exists row. split; [done|]. rewrite Forall_forall in Hj. by apply Hj.
Qed.

Lemma masked_fill_shape B n j (sim : T3) rm value :
  has_shape B n j sim → length rm = B →
  Forall (λ m : list (list bool), ∃ row, m = [row] ∧ length row = j) rm →
  ∃ r, masked_fill sim rm value = Ok r ∧ has_shape B n j r.
Proof.
  intros [HB Hsim] Hl Hrm. unfold masked_fill. unalias.
  assert (expand_to (length sim) rm = Ok rm) as Hexp.
  { unfold expand_to. by rewrite Hl, HB, Nat.eqb_refl. }
  destruct (mapM_total
    (λ p : list (list scalar) * list (list bool),
       mrows ← expand_to (length p.1) p.2;
       mapM (λ q : list scalar * list bool,
               mrow ← expand_to (length q.1) q.2;
               Ok (zip_with (λ s (keep : bool), if keep then s else value) q.1 mrow))
            (zip p.1 mrows))
    (mat_shape n j) (zip sim rm)) as (r & Hr & Hlr & HP).
  - apply Forall_forall. intros [Sm M] Hin.
    apply elem_of_zip_l in Hin as HinS. apply elem_of_zip_r in Hin as HinM.
    rewrite Forall_forall in Hsim. rewrite Forall_forall in Hrm.
    destruct (Hsim _ HinS) as [Hn Hrows]. destruct (Hrm _ HinM) as (row & -> & Hrow).
    simpl.
    assert (∃ mrows, expand_to (length Sm) [row] = Ok mrows ∧ length mrows = length Sm
                     ∧ Forall (λ r, r = row) mrows) as (mrows & Hmrows & Hlm & Hall).
    { unfold expand_to. destruct (Nat.eqb_spec (length [row]) (length Sm)) as [E|_].
      - exists [row]. split; [done|]. split; [done|]. by constructor.
      - eexists. split; [done|]. split; [apply length_replicate|].
        apply Forall_forall. by intros r [-> _]%elem_of_replicate. }
    destruct (mapM_total
      (λ q : list scalar * list bool,
         mrow ← expand_to (length q.1) q.2;
         Ok (zip_with (λ s (keep : bool), if keep then s else value) q.1 mrow))
      (λ w, length w = j) (zip Sm mrows)) as (m & Hm & Hlm' & HPm).
    + apply Forall_forall. intros [srow mr] Hin'.
      apply elem_of_zip_l in Hin' as HinS'. apply elem_of_zip_r in Hin' as HinM'.
      rewrite Forall_forall in Hrows. rewrite Forall_forall in Hall.
      rewrite (Hall _ HinM'). simpl. unfold expand_to.
      rewrite Hrow, (Hrows _ HinS'), Nat.eqb_refl. cbn.
      eexists. split; [done|]. rewrite length_zip_with, Hrow, (Hrows _ HinS'). lia.
    + exists m. split.
      * apply bind_Ok. exists mrows. by split.
      * split; [|done]. rewrite Hlm', length_zip. lia.
  - exists r. split.
    + apply bind_Ok. exists rm. by split.
    + split; [|done]. rewrite Hlr, length_zip. lia.
Qed.

Lemma length_sum_rows d (m : mat) :
  m ≠ [] → Forall (λ v, length v = d) m → length (sum_rows m) = d.
Proof.
  intros Hne Hm. unfold sum_rows.
  assert (length (default [] (head m)) = d) as Hh.
  { destruct m as [|v m]; [done|]. by inversion Hm. }
  unalias. rewrite Hh. clear Hne Hh.
  induction Hm as [|v m Hv _ IH]; simpl; [apply length_replicate|].
  rewrite length_zip_with, IH, Hv. lia.
Qed.

Lemma weighted_sum_length j d a (V : mat) :
  0 < j → length a = j → mat_shape j d V →
  ∃ w, weighted_sum a V = Ok w ∧ length w = d.
Proof.
  intros Hj Ha [Hl HV]. unfold weighted_sum. unalias. rewrite Ha, Hl, Nat.eqb_refl.
  eexists. split; [done|]. apply length_sum_rows.
  - destruct a, V; simpl in *; try lia. done.
  - apply Forall_forall. intros w Hw.
    apply elem_of_lookup_zip_with in Hw as (i & x & row & -> & _ & Hrow).
    rewrite length_map. rewrite Forall_forall in HV. apply HV.
    by eapply list_elem_of_lookup_2.
Qed.

Lemma einsum_av_shape B n j d (attn v : T3) :
  0 < j → has_shape B n j attn → has_shape B j d v →
  ∃ out, einsum_av attn v = Ok out ∧ has_shape B n d out.
Proof.
  intros Hj [Ha HA] [Hv HV]. unfold einsum_av.
  destruct (zip_exact_total (mat_shape n j) (mat_shape j d) (mat_shape n d)
              (λ A V, mapM (λ a, weighted_sum a V) A) attn v)
    as (out & Ho & Hl & HP); [unalias; lia | done | done | |].
  - intros A V HA' HV'. eapply mapM_mat_shape; [|exact HA'].
    intros a Hla. by eapply weighted_sum_length.
  - exists out. split; [done|]. split; [unalias; lia | done].
Qed.

End AttentionShapes.

Section AttentionTotal.
Context {rt : Runtime} {rot : Rotary}.

(** ** Attention.forward on arrays of the sizes it was built for *)

Lemma chunk2_last_shape b j m (kv : T3) :
  has_shape b j (m * 2) kv →
  ∃ k v, chunk2_last kv = Ok (k, v) ∧ has_shape b j m k ∧ has_shape b j m v.
Proof.
  intros [Hb Hkv]. unfold chunk2_last.
  set (P := λ p : vec * vec, length p.1 = m ∧ length p.2 = m).
  destruct (mapM_total (mapM chunk2)
              (λ ps, length ps = j ∧ Forall P ps) kv) as (ps & Hps & Hl & HP).
  { eapply Forall_impl; [exact Hkv|]. intros rows [Hj Hrows].
    destruct (mapM_total chunk2 P rows) as (r & Hr & Hlr & HPr).
    - eapply Forall_impl; [exact Hrows|]. intros v Hv.
      destruct (chunk2_halves v m Hv) as (x & g & Hc & Hx & Hg & _).
      exists (x, g). by split.
    - exists r. split; [done|]. split; [unalias; lia | done]. }
  exists (map (map fst) ps), (map (map snd) ps). split.
  { apply bind_Ok. exists ps. by split. }
  split; (split; [rewrite length_map; unalias; lia|]);
    apply Forall_forall; intros r (rows & -> & Hin)%list_elem_of_fmap;
    rewrite Forall_forall in HP; destruct (HP _ Hin) as [Hlj Hall];
    (split; [by rewrite length_map|]);
    apply Forall_forall; intros w (p & -> & Hp)%list_elem_of_fmap;
    rewrite Forall_forall in Hall; by destruct (Hall _ Hp).
Qed.

Lemma qkv_heads_shape a h d qd cd b n j (x : T3) context :
  heads a = Z.of_nat h → 0 < h →
  Linear_wf qd (d * h) (to_q a) → Linear_wf cd (d * h * 2) (to_kv a) →
  has_shape b n qd x → has_shape b j cd (default x context) →
  ∃ q k v, qkv_heads a x context = Ok (q, k, v)
           ∧ has_shape (b * h) n d q ∧ has_shape (b * h) j d k
           ∧ has_shape (b * h) j d v.
Proof.
  intros Hh Hpos Hq Hkv Hx Hc. unfold qkv_heads. cbv zeta. rewrite Hh.
  destruct (Linear_forward_shape _ _ _ _ _ _ Hq Hx) as (q0 & Eq0 & Sq0).
  destruct (Linear_forward_shape _ _ _ _ _ _ Hkv Hc) as (kv & Ekv & Skv).
  destruct (chunk2_last_shape _ _ _ _ Skv) as (k0 & v0 & Ec & Sk0 & Sv0).
  destruct (rearrange_split_shape _ _ _ _ _ Hpos Sq0) as (q & Eq & Sq).
  destruct (rearrange_split_shape _ _ _ _ _ Hpos Sk0) as (k & Ek & Sk).
  destruct (rearrange_split_shape _ _ _ _ _ Hpos Sv0) as (v & Ev & Sv).
  exists q, k, v. split; [|done].
  apply bind_Ok. exists q0. split; [done|].
  apply bind_Ok. exists kv. split; [done|].
  apply bind_Ok. exists (k0, v0). split; [done|]. simpl.
  apply bind_Ok. exists q. split; [done|].
  apply bind_Ok. exists k. split; [done|].
  apply bind_Ok. exists v. by split.
Qed.

Lemma rotated_shape pe B n d (t : T3) :
  rotary_keeps_length → has_shape B n d t → has_shape B n d (rotated pe t).
Proof.
  intros Hrot [HB Ht]. destruct pe as [tbl|]; [|done]. simpl.
  split; [by rewrite length_map|].
  apply Forall_forall. intros m' (m & -> & Hm)%list_elem_of_fmap.
  rewrite Forall_forall in Ht. destruct (Ht _ Hm) as [Hn Hd].
  split; [by rewrite length_imap|].
  apply Forall_lookup. intros i w Hw. rewrite list_lookup_imap in Hw.
  destruct (m !! i) as [v|] eqn:E; [|done]. injection Hw as <-.
  rewrite Hrot. rewrite Forall_forall in Hd. apply Hd. by eapply list_elem_of_lookup_2.
Qed.

Lemma Attention_sim_shape a h b n j d (q k : T3) mask :
  heads a = Z.of_nat h →
  has_shape (b * h) n d q → has_shape (b * h) j d k → mask_fits b j mask →
  ∃ sim, Attention_sim a q k mask = Ok sim ∧ has_shape (b * h) n j sim.
Proof.
  intros Hh Hq Hk Hm. unfold Attention_sim. cbv zeta. rewrite Hh.
  destruct (einsum_qk_shape _ _ _ _ _ _ Hq Hk) as (sim & Es & Ss).
  apply (has_shape_map (map (λ s, fmul s (scale a))) _ _ j j) in Ss;
    [|by intros v; rewrite length_map].
  destruct mask as [mask|].
  - destruct (repeat_mask_shape h _ _ _ Hm) as (rm & Er & Hl & Hrm).
    destruct (masked_fill_shape _ _ _ _ rm max_neg_value Ss Hl Hrm) as (r & Efill & Sr).
    exists r. split; [|done].
    apply bind_Ok. exists sim. split; [done|].
    apply bind_Ok. exists rm. by split.
  - eexists. split; [|exact Ss]. apply bind_Ok. exists sim. by split.
Qed.

Lemma attend_shape a h d qd b n j (q k v : T3) mask :
  heads a = Z.of_nat h → 0 < h → Linear_wf (d * h) qd (to_out a).1 → 0 < j →
  has_shape (b * h) n d q → has_shape (b * h) j d k → has_shape (b * h) j d v →
  mask_fits b j mask →
  ∃ y, attend a q k v mask = Ok y ∧ has_shape b n qd y.
Proof.
  intros Hh Hpos Hout Hj Hq Hk Hv Hm. unfold attend, Attention_attn, Dropout_forward.
  cbv zeta.
  destruct (Attention_sim_shape _ _ _ _ _ _ _ _ _ Hh Hq Hk Hm) as (sim & Es & Ss).
  apply (has_shape_map softmax _ _ j j) in Ss;
    [|by intros w; rewrite length_softmax].
  destruct (einsum_av_shape _ _ _ _ _ _ Hj Ss Hv) as (o1 & E1 & S1).
  rewrite Hh.
  destruct (rearrange_merge_shape _ _ _ _ _ Hpos S1) as (o2 & E2 & S2).
  apply has_shape_comm in S2.
  destruct (Linear_forward_shape _ _ _ _ _ _ Hout S2) as (y & Ey & Sy).
  exists y. split; [|done].
  apply bind_Ok. eexists. split.
  { apply bind_Ok. exists sim. by split. }
  apply bind_Ok. exists o1. split; [done|].
  apply bind_Ok. exists o2. split; [done|].
  apply bind_Ok. exists y. by split.
Qed.

Lemma Attention_forward_ok a x ctx mask pe st q k v y :
  qkv_heads a x ctx = Ok (q, k, v) →
  attend a (rotated pe q) (rotated pe k) v mask = Ok y →
  ∃ st', run (Attention_forward a x ctx mask pe) st = Ok (y, st')
         ∧ heap st' = heap st.
Proof.
  intros Hqkv Hatt. unfold Attention_forward.
  destruct pe as [tbl|]; simpl in Hatt.
  - eexists. split.
    + apply run_bind. exists (). eexists. split; [by apply run_emit|].
      apply run_bind. exists (q, k, v). eexists. split; [by apply run_lift|].
      apply run_bind. eexists (_, _). eexists. split.
      { unfold apply_rotary_emb. apply run_bind. exists (). eexists.
        split; [by apply run_emit|]. by apply run_ret. }
      by apply run_lift.
    + done.
  - eexists. split.
    + apply run_bind. exists (). eexists. split; [by apply run_emit|].
      apply run_bind. exists (q, k, v). eexists. split; [by apply run_lift|].
      apply run_bind. eexists (_, _). eexists. split; [by apply run_ret|].
      by apply run_lift.
    + done.
Qed.

Lemma Attention_forward_shape a qd cd b n j (x : T3) context mask pe st :
  Attention_wf qd cd a → rotary_keeps_length → 0 < j →
  has_shape b n qd x → has_shape b j cd (default x context) → mask_fits b j mask →
  ∃ y st', run (Attention_forward a x context mask pe) st = Ok (y, st')
           ∧ has_shape b n qd y ∧ heap st' = heap st.
Proof.
  intros (h & d & Hh & Hpos & Hq & Hkv & Hout) Hrot Hj Hx Hc Hm.
  destruct (qkv_heads_shape _ _ _ _ _ _ _ _ _ _ Hh Hpos Hq Hkv Hx Hc)
    as (q & k & v & Eqkv & Sq & Sk & Sv).
  destruct (attend_shape a h d qd b n j (rotated pe q) (rotated pe k) v mask)
    as (y & Ey & Sy); auto using rotated_shape.
  destruct (Attention_forward_ok _ _ _ _ _ st _ _ _ _ Eqkv Ey) as (st' & Hrun & Hheap).
  by exists y, st'.
Qed.

End AttentionTotal.

Section BuiltModules.
Context {rt : Runtime} {rot : Rotary}.

(** ** The modules that the constructors build *)

Lemma sizes_ok_inv2 a b : sizes_ok [a; b] = true → (0 ≤ a)%Z ∧ (0 ≤ b)%Z.
Proof. unfold sizes_ok. simpl. lia. Qed.

Lemma draw_mat_shape rows cols st w st' :
  run (draw_mat rows cols) st = Ok (w, st') → mat_shape rows cols w.
Proof.
  intros [= <- _]. split; [by rewrite length_map, length_seq|].
  apply Forall_forall. intros v (i & -> & _)%list_elem_of_fmap.
  by rewrite length_map, length_seq.
Qed.

Lemma draw_vec_length n st v st' : run (draw_vec n) st = Ok (v, st') → length v = n.
Proof. intros [= <- _]. by rewrite length_map, length_seq. Qed.

Lemma Linear_init_wf i o b st l st' :
  run (Linear_init i o b) st = Ok (l, st') →
  (0 ≤ i)%Z ∧ (0 ≤ o)%Z ∧ Linear_wf (Z.to_nat i) (Z.to_nat o) l.
Proof.
  unfold Linear_init. intros H.
  destruct (sizes_ok [o; i]) eqn:Hs; [|done].
  apply sizes_ok_inv2 in Hs as [Ho Hi].
  apply run_bind in H as (w & st1 & Hw & H). apply draw_mat_shape in Hw.
  apply run_bind in H as (bv & st2 & Hb & H). apply run_ret in H as [<- _].
  split; [done|]. split; [done|]. split; [simpl; lia|]. split; [done|]. simpl.
  intros v ->. destruct b; [|by apply run_ret in Hb as [? _]].
  apply run_bind in Hb as (v' & st3 & Hv & Hb). apply run_ret in Hb as [[= <-] _].
  by eapply draw_vec_length.
Qed.

Lemma LayerNorm_init_wf d st ln st' :
  run (LayerNorm_init d) st = Ok (ln, st') →
  (0 ≤ d)%Z ∧ LayerNorm_wf (Z.to_nat d) ln.
Proof.
  unfold LayerNorm_init. intros H. destruct (sizes_ok [d]) eqn:Hs; [|done].
  apply run_ret in H as [<- _]. unfold sizes_ok in Hs. simpl in Hs.
  split; [lia|]. split; [simpl; lia|]. simpl. by rewrite !length_replicate.
Qed.

Lemma Attention_init_wf qd cd h dh p st a st' :
  run (Attention_init qd cd h dh p) st = Ok (a, st') → (0 < h)%Z →
  Attention_wf (Z.to_nat qd) (Z.to_nat (default qd cd)) a.
Proof.
  unfold Attention_init. cbv zeta. intros H Hh.
  destruct (dh =? 0)%Z; [done|].
  apply run_bind in H as (lq & st1 & Hq & H). apply Linear_init_wf in Hq as (_ & Hi & Hq).
  apply run_bind in H as (lkv & st2 & Hkv & H). apply Linear_init_wf in Hkv as (_ & _ & Hkv).
  apply run_bind in H as (lo & st3 & Ho & H). apply Linear_init_wf in Ho as (_ & _ & Ho).
  apply run_bind in H as (q & st4 & _ & H). apply run_ret in H as [<- _].
  assert (0 ≤ dh)%Z by nia.
  exists (Z.to_nat h), (Z.to_nat dh). simpl.
  replace (Z.to_nat dh * Z.to_nat h) with (Z.to_nat (dh * h)) by nia.
  replace (Z.to_nat (dh * h) * 2) with (Z.to_nat (dh * h * 2)) by nia.
  split; [lia|]. split; [lia|]. done.
Qed.

Lemma FeedForward_init_wf d mult p st f st' :
  run (FeedForward_init d mult p) st = Ok (f, st') →
  FeedForward_wf (Z.to_nat d) f.
Proof.
  unfold FeedForward_init. intros H.
  apply run_bind in H as (l0 & st1 & H0 & H). apply Linear_init_wf in H0 as (_ & Hm & H0).
  apply run_bind in H as (q & st2 & _ & H).
  apply run_bind in H as (l3 & st3 & H3 & H). apply Linear_init_wf in H3 as (_ & _ & H3).
  apply run_ret in H as [<- _].
  exists (Z.to_nat (d * mult)). simpl.
  replace (Z.to_nat (d * mult) * 2) with (Z.to_nat (d * mult * 2)) by lia. done.
Qed.

Lemma PreNorm_init_wf d f cd st p st' :
  run (PreNorm_init d f cd) st = Ok (p, st') →
  fn p = f ∧ LayerNorm_wf (Z.to_nat d) (norm p)
  ∧ match cd with
    | Some c => ∃ nc, norm_context p = Some nc ∧ LayerNorm_wf (Z.to_nat c) nc
    | None => norm_context p = None
    end.
Proof.
  unfold PreNorm_init. intros H.
  apply run_bind in H as (n & st1 & Hn & H). apply LayerNorm_init_wf in Hn as [_ Hn].
  apply run_bind in H as (nc & st2 & Hnc & H). apply run_ret in H as [<- _]. simpl.
  split; [done|]. split; [done|]. destruct cd as [c|].
  - apply run_bind in Hnc as (l & st3 & Hl & Hnc). apply run_ret in Hnc as [<- _].
    apply LayerNorm_init_wf in Hl as [_ Hl]. eauto.
  - by apply run_ret in Hnc as [<- _].
Qed.

End BuiltModules.

Section Roles.
Context {rt : Runtime} {rot : Rotary}.

(** ** A property of the sublayers that every factory establishes *)

Section Generic.
Variables (c : Config) (d : Z).
Variables Pca Pcf Pla Plf : list Obj → nat → Prop.

Hypothesis Mca : role_mono Pca.
Hypothesis Mcf : role_mono Pcf.
Hypothesis Mla : role_mono Pla.
Hypothesis Mlf : role_mono Plf.
Hypothesis Fca : role_factory Pca (get_cross_attn c d).
Hypothesis Fcf : role_factory Pcf (get_cross_ff c).
Hypothesis Fla : role_factory Pla (get_latent_attn c).
Hypothesis Flf : role_factory Plf (get_latent_ff c).

Lemma cache_fn_role P f b cache st a cache' st' :
  role_mono P → role_factory P f →
  run (cache_fn f b cache) st = Ok ((a, cache'), st') →
  (∀ r, cache = Some r → P (heap st) r) →
  heap st `prefix_of` heap st' ∧ P (heap st') a
  ∧ (∀ r, cache' = Some r → P (heap st') r).
Proof.
  intros HM Hf H Hc. apply cache_fn_run in H as [(_ & -> & -> & ->)|(H & -> & Hn)].
  - split; [done|]. split; [by apply Hc | done].
  - destruct (Hf _ _ _ H) as [Hp Hk]. split; [done|]. split; [done|].
    intros r Hr. destruct b; [by injection Hr as <-|].
    eapply HM; [exact Hp | by apply Hc].
Qed.

Lemma self_attns_roles b idxs acc st acc' st' :
  let ok h (blk : nat * nat) := Pla h blk.1 ∧ Plf h blk.2 in
  run (foldlM (build_self_attn c b) acc idxs) st = Ok (acc', st') →
  roles_caches Pca Pcf Pla Plf (heap st) acc.2 → Forall (ok (heap st)) acc.1 →
  heap st `prefix_of` heap st' ∧ roles_caches Pca Pcf Pla Plf (heap st') acc'.2
  ∧ Forall (ok (heap st')) acc'.1.
Proof using Mca Mcf Mla Mlf Fla Flf.
  intros ok. revert acc st.
  induction idxs as [|i idxs IH]; intros acc st H Hc Hall; simpl in H.
  - by apply run_ret in H as [<- <-].
  - apply run_bind in H as (acc1 & st1 & H1 & H).
    apply build_self_attn_run in H1 as (la & cla & st0 & lf & clf & H1 & H2 & ->).
    destruct Hc as (C1 & C2 & C3 & C4).
    eapply (cache_fn_role Pla) in H1 as (Hp1 & Hk1 & Hc1); [|done|done|exact C3].
    eapply (cache_fn_role Plf) in H2 as (Hp2 & Hk2 & Hc2); [|done|done|].
    2:{ intros r Hr. eapply Mlf; [exact Hp1 | by apply C4]. }
    assert (Hp : heap st `prefix_of` heap st1) by by etrans.
    apply IH in H as (Hp' & Hc' & Hall'); simpl.
    + split; [by etrans | done].
    + split; [|split; [|split]]; simpl.
      * intros r Hr. eapply Mca; [exact Hp | by apply C1].
      * intros r Hr. eapply Mcf; [exact Hp | by apply C2].
      * intros r Hr. eapply Mla; [exact Hp2 | by apply Hc1].
      * done.
    + apply Forall_app. split.
      * eapply Forall_impl; [exact Hall|]. intros blk [? ?].
        split; [by apply (Mla _ _ _ Hp) | by apply (Mlf _ _ _ Hp)].
      * constructor; [|constructor].
        split; simpl; [by apply (Mla _ _ _ Hp2) | done].
Qed.

Lemma roles_layer_mono h h' l : h `prefix_of` h' → roles_layer Pca Pcf Pla Plf h l → roles_layer Pca Pcf Pla Plf h' l.
Proof using Mca Mcf Mla Mlf.
  intros Hp (K1 & K2 & K3).
  split; [by apply (Mca _ _ _ Hp)|]. split; [by apply (Mcf _ _ _ Hp)|].
  eapply Forall_impl; [exact K3|]. intros blk [? ?].
  split; [by apply (Mla _ _ _ Hp) | by apply (Mlf _ _ _ Hp)].
Qed.

Lemma layers_roles idxs acc st acc' st' :
  run (foldlM (build_layer c d) acc idxs) st = Ok (acc', st') →
  roles_caches Pca Pcf Pla Plf (heap st) acc.2 → Forall (roles_layer Pca Pcf Pla Plf (heap st)) acc.1 →
  heap st `prefix_of` heap st' ∧ roles_caches Pca Pcf Pla Plf (heap st') acc'.2
  ∧ Forall (roles_layer Pca Pcf Pla Plf (heap st')) acc'.1.
Proof using Mca Mcf Mla Mlf Fca Fcf Fla Flf.
  revert acc st. induction idxs as [|i idxs IH]; intros acc st H Hc Hall; simpl in H.
  - by apply run_ret in H as [<- <-].
  - apply run_bind in H as (acc1 & st1 & H1 & H).
    apply build_layer_run in H1. simpl in H1.
    destruct H1 as (blocks & cs & st0 & ca & cca & st2 & cf & ccf & H1 & H2 & H3 & ->).
    apply self_attns_roles in H1 as (Hp1 & (C1 & C2 & C3 & C4) & Hb); [|done|constructor].
    simpl in *.
    eapply (cache_fn_role Pca) in H2 as (Hp2 & Hk2 & Hc2); [|done|done|exact C1].
    eapply (cache_fn_role Pcf) in H3 as (Hp3 & Hk3 & Hc3); [|done|done|].
    2:{ intros r Hr. eapply Mcf; [exact Hp2 | by apply C2]. }
    assert (Hp02 : heap st0 `prefix_of` heap st1) by by etrans.
    assert (Hp : heap st `prefix_of` heap st1) by by etrans.
    apply IH in H as (Hp' & Hc' & Hall'); simpl.
    + split; [by etrans | done].
    + split; [|split; [|split]]; simpl.
      * intros r Hr. eapply Mca; [exact Hp3 | by apply Hc2].
      * done.
      * intros r Hr. eapply Mla; [exact Hp02 | by apply C3].
      * intros r Hr. eapply Mlf; [exact Hp02 | by apply C4].
    + apply Forall_app. split.
      * eapply Forall_impl; [exact Hall|]. intros l. by apply roles_layer_mono.
      * constructor; [|constructor]. split; [|split]; simpl.
        -- by apply (Mca _ _ _ Hp3).
        -- done.
        -- eapply Forall_impl; [exact Hb|]. intros blk [? ?].
           split; [by apply (Mla _ _ _ Hp02) | by apply (Mlf _ _ _ Hp02)].
Qed.

End Generic.

(** ** The sublayers of a built model have the sizes of the configuration *)

Lemma attn_sublayer_mono qd cd : role_mono (attn_sublayer qd cd).
Proof.
  intros h h' r Hp (p & a & Hr & Ha & Hrest). exists p, a.
  split; [by eapply prefix_lookup_Some|]. split; [by eapply prefix_lookup_Some | done].
Qed.

Lemma ff_sublayer_mono d : role_mono (ff_sublayer d).
Proof.
  intros h h' r Hp (p & f & Hr & Hf & Hrest). exists p, f.
  split; [by eapply prefix_lookup_Some|]. split; [by eapply prefix_lookup_Some | done].
Qed.

Lemma sublayer_alloc st st0 o p st1 st2 fnr r :
  heap st0 = heap st → run (alloc o) st0 = Ok (fnr, st1) →
  run (alloc (OPreNorm p)) st1 = Ok (r, st2) → fn p = fnr →
  heap st `prefix_of` heap st2
  ∧ heap st2 !! r = Some (OPreNorm p) ∧ heap st2 !! fn p = Some o.
Proof.
  intros H0 [-> ->]%run_alloc [-> ->]%run_alloc Hfn. simpl. rewrite H0 in *.
  split; [by do 2 apply prefix_app_r|]. split.
  - rewrite lookup_app_r by done. by rewrite Nat.sub_diag.
  - rewrite Hfn, lookup_app_l by (rewrite length_app; simpl; lia).
    rewrite lookup_app_r by done. by rewrite Nat.sub_diag.
Qed.

Lemma get_cross_attn_wf c d :
  (0 < cross_heads c)%Z →
  role_factory (attn_sublayer (Z.to_nat (latent_dim c)) (Some (Z.to_nat d)))
    (get_cross_attn c d).
Proof.
  intros Hh st r st' H. unfold get_cross_attn in H.
  apply run_bind in H as (a & st0 & Ha & H).
  apply run_bind in H as (fnr & st1 & Hfn & H).
  apply run_bind in H as (p & st2 & Hp & H).
  pose proof (Attention_init_heap _ _ _ _ _ _ _ _ Ha) as Hheap.
  apply Attention_init_wf in Ha; [|done].
  pose proof (PreNorm_init_wf _ _ _ _ _ _ Hp) as (Hf & Hn & Hnc).
  apply PreNorm_init_heap in Hp as [-> _].
  destruct (sublayer_alloc _ _ _ _ _ _ _ _ Hheap Hfn H Hf) as (Hpre & Hr & Hfnp).
  split; [done|]. exists p, a.
  split; [done|]. split; [done|]. split; [done|]. split; [exact Hnc | exact Ha].
Qed.

Lemma get_latent_attn_wf c :
  (0 < latent_heads c)%Z →
  role_factory (attn_sublayer (Z.to_nat (latent_dim c)) None) (get_latent_attn c).
Proof.
  intros Hh st r st' H. unfold get_latent_attn in H.
  apply run_bind in H as (a & st0 & Ha & H).
  apply run_bind in H as (fnr & st1 & Hfn & H).
  apply run_bind in H as (p & st2 & Hp & H).
  pose proof (Attention_init_heap _ _ _ _ _ _ _ _ Ha) as Hheap.
  apply Attention_init_wf in Ha; [|done].
  pose proof (PreNorm_init_wf _ _ _ _ _ _ Hp) as (Hf & Hn & Hnc).
  apply PreNorm_init_heap in Hp as [-> _].
  destruct (sublayer_alloc _ _ _ _ _ _ _ _ Hheap Hfn H Hf) as (Hpre & Hr & Hfnp).
  split; [done|]. exists p, a.
  split; [done|]. split; [done|]. split; [done|]. split; [exact Hnc | exact Ha].
Qed.

Lemma get_ff_wf c (f : M nat) :
  f = get_cross_ff c ∨ f = get_latent_ff c →
  role_factory (ff_sublayer (Z.to_nat (latent_dim c))) f.
Proof.
  intros Hf st r st' H.
  assert (run (get_cross_ff c) st = Ok (r, st')) as H' by (by destruct Hf as [->| ->]).
  clear H Hf. unfold get_cross_ff in H'.
  apply run_bind in H' as (ff & st0 & Ha & H).
  apply run_bind in H as (fnr & st1 & Hfn & H).
  apply run_bind in H as (p & st2 & Hp & H).
  pose proof (FeedForward_init_heap _ _ _ _ _ _ Ha) as Hheap.
  apply FeedForward_init_wf in Ha.
  pose proof (PreNorm_init_wf _ _ _ _ _ _ Hp) as (Hf & Hn & Hnc).
  apply PreNorm_init_heap in Hp as [-> _].
  destruct (sublayer_alloc _ _ _ _ _ _ _ _ Hheap Hfn H Hf) as (Hpre & Hr & Hfnp).
  split; [done|]. exists p, ff.
  split; [done|]. split; [done|]. split; [done|]. split; [exact Hnc | exact Ha].
Qed.

Lemma Perceiver_init_wf c st self st' :
  run (Perceiver_init c) st = Ok (self, st') →
  (0 < cross_heads c)%Z → (0 < latent_heads c)%Z →
  Perceiver_wf (Z.to_nat (num_latents c)) (Z.to_nat (latent_dim c))
    (Z.to_nat (input_dim c)) (Z.to_nat (num_classes c)) (heap st') self.
Proof.
  intros H Hch Hlh. unfold Perceiver_init in H. cbv zeta in H.
  fold (input_dim c) in H.
  apply run_bind in H as (w & st1 & Hw & H).
  apply run_bind in H as (lat & st2 & Hlat & H).
  apply run_bind in H as ([ls cs] & st3 & Hls & H).
  apply run_bind in H as (ln & st4 & Hln & H).
  apply run_bind in H as (lin & st5 & Hlin & H).
  apply run_bind in H as (tl & st6 & Htl & H).
  apply run_ret in H as [<- <-]. simpl.
  assert (mat_shape (Z.to_nat (num_latents c)) (Z.to_nat (latent_dim c)) w) as Sw.
  { unfold randn in Hw. destruct (sizes_ok _); [|done]. by eapply draw_mat_shape. }
  apply randn_heap in Hw.
  apply run_alloc in Hlat as [-> ->].
  eapply (layers_roles c (input_dim c)
            (attn_sublayer (Z.to_nat (latent_dim c)) (Some (Z.to_nat (input_dim c))))
            (ff_sublayer (Z.to_nat (latent_dim c)))
            (attn_sublayer (Z.to_nat (latent_dim c)) None)
            (ff_sublayer (Z.to_nat (latent_dim c))))
    in Hls as (Hpre & _ & Hall);
    [ | apply attn_sublayer_mono | apply ff_sublayer_mono | apply attn_sublayer_mono
      | apply ff_sublayer_mono | by apply get_cross_attn_wf | apply get_ff_wf; by left
      | by apply get_latent_attn_wf | apply get_ff_wf; by right
      | by repeat split | constructor ].
  simpl in *.
  pose proof (LayerNorm_init_wf _ _ _ _ Hln) as [_ Wln].
  apply LayerNorm_init_heap in Hln as ->.
  pose proof (Linear_init_wf _ _ _ _ _ _ Hlin) as (_ & _ & Wlin).
  apply Linear_init_heap in Hlin.
  apply run_alloc in Htl as [-> ->]. simpl. rewrite Hlin.
  assert (heap st3 `prefix_of` heap st3 ++ [OSequential ln lin]) as Hp3
    by (by apply prefix_app_r).
  split; [|split].
  - exists w. split; [|done]. eapply prefix_lookup_Some; [|exact Hp3].
    eapply prefix_lookup_Some; [|exact Hpre]. simpl. rewrite Hw.
    rewrite lookup_app_r by done. by rewrite Nat.sub_diag.
  - eapply Forall_impl; [exact Hall|]. intros l (K1 & K2 & K3).
    split; [by apply (attn_sublayer_mono _ _ _ _ _ Hp3)|].
    split; [by apply (ff_sublayer_mono _ _ _ _ Hp3)|].
    eapply Forall_impl; [exact K3|]. intros blk [? ?].
    split; [by apply (attn_sublayer_mono _ _ _ _ _ Hp3)
           | by apply (ff_sublayer_mono _ _ _ _ Hp3)].
  - exists ln, lin. split; [|done].
    rewrite lookup_app_r by done. by rewrite Nat.sub_diag.
Qed.

End Roles.

Section LayersTotal.
Context {rt : Runtime} {rot : Rotary}.

(** ** The layers on a latent array of the sizes of the model *)

Lemma call_ff_total d h r b n :
  ff_sublayer d h r → shape_step b n d h (λ x, call r x no_kwargs).
Proof.
  intros (p & f & Hr & Hf & Hn & Hnc & Wf) x st Hst Hx. subst h.
  destruct (LayerNorm_forward_shape _ _ _ _ _ Hn Hx) as (x1 & E1 & S1).
  destruct (FeedForward_forward_shape _ _ _ _ _ Wf S1) as (y & Ey & Sy).
  exists y, st. split; [|done]. unfold call.
  apply run_bind. exists (OPreNorm p), st. split; [by apply run_deref|].
  unfold PreNorm_forward. apply run_bind. exists x1, st. split; [by apply run_lift|].
  rewrite Hnc. apply run_bind. exists no_kwargs, st. split; [by apply run_ret|].
  unfold call_fn. apply run_bind. exists (OFeedForward f), st.
  split; [by apply run_deref|]. simpl. by apply run_lift.
Qed.

Lemma call_self_attn_total d h r b n pe :
  attn_sublayer d None h r → rotary_keeps_length → 0 < n →
  shape_step b n d h
    (λ x, call r x {| kw_context := None; kw_mask := None; kw_pos_emb := pe |}).
Proof.
  intros (p & a & Hr & Ha & Hn & Hnc & Wa) Hrot Hpos x st Hst Hx. subst h.
  destruct (LayerNorm_forward_shape _ _ _ _ _ Hn Hx) as (x1 & E1 & S1).
  destruct (Attention_forward_shape a d d b n n x1 None None pe st)
    as (y & st' & Hrun & Sy & Hheap); try done.
  exists y, st'. split; [|done]. unfold call.
  apply run_bind. exists (OPreNorm p), st. split; [by apply run_deref|].
  unfold PreNorm_forward. apply run_bind. exists x1, st. split; [by apply run_lift|].
  rewrite Hnc. apply run_bind. eexists _, st. split; [by apply run_ret|].
  unfold call_fn. apply run_bind. exists (OAttention a), st.
  split; [by apply run_deref|]. done.
Qed.

Lemma call_cross_attn_total d cd h r b n j (data : T3) mask :
  attn_sublayer d (Some cd) h r → rotary_keeps_length → 0 < j →
  has_shape b j cd data → mask_fits b j mask →
  shape_step b n d h
    (λ x, call r x {| kw_context := Some data; kw_mask := mask; kw_pos_emb := None |}).
Proof.
  intros (p & a & Hr & Ha & Hn & [(nc & Hnc & Wnc) Wa]) Hrot Hpos Hd Hm x st Hst Hx.
  subst h.
  destruct (LayerNorm_forward_shape _ _ _ _ _ Hn Hx) as (x1 & E1 & S1).
  destruct (LayerNorm_forward_shape _ _ _ _ _ Wnc Hd) as (c1 & Ec & Sc).
  destruct (Attention_forward_shape a d cd b n j x1 (Some c1) mask None st)
    as (y & st' & Hrun & Sy & Hheap); try done.
  exists y, st'. split; [|done]. unfold call.
  apply run_bind. exists (OPreNorm p), st. split; [by apply run_deref|].
  unfold PreNorm_forward. apply run_bind. exists x1, st. split; [by apply run_lift|].
  rewrite Hnc. simpl. apply run_bind. eexists _, st. split.
  { apply run_bind. exists c1, st. split; [by apply run_lift | by apply run_ret]. }
  unfold call_fn. apply run_bind. exists (OAttention a), st.
  split; [by apply run_deref|]. done.
Qed.

Lemma add3_shape b n d (y x : T3) :
  has_shape b n d y → has_shape b n d x →
  ∃ z, add3 y x = Ok z ∧ has_shape b n d z.
Proof.
  intros [Hy HY] [Hx HX]. unfold add3.
  destruct (zip_exact_total (mat_shape n d) (mat_shape n d) (mat_shape n d)
              (zip_exact (zip_exact (λ a b, Ok (fadd a b)))) y x)
    as (z & Hz & Hl & HP); [unalias; lia | done | done | |].
  - intros m1 m2 [H1 M1] [H2 M2].
    destruct (zip_exact_total (λ v : vec, length v = d) (λ v : vec, length v = d)
                (λ v : vec, length v = d) (zip_exact (λ a b, Ok (fadd a b))) m1 m2)
      as (m & Hm & Hlm & HPm); [unalias; lia | done | done | |].
    + intros v1 v2 L1 L2.
      destruct (zip_exact_total (λ _ : scalar, True) (λ _ : scalar, True)
                  (λ _ : scalar, True) (λ a b, Ok (fadd a b)) v1 v2)
        as (v & Hv & Hlv & _); [unalias; lia | by apply Forall_true
                                | by apply Forall_true | by eauto |].
      exists v. split; [done|]. unalias. lia.
    + exists m. split; [done|]. split; [unalias; lia | done].
  - exists z. split; [done|]. split; [unalias; lia | done].
Qed.

Lemma shape_step_residual b n d h F :
  shape_step b n d h F → shape_step b n d h (residual F).
Proof.
  intros HF x st Hst Hx. destruct (HF x st Hst Hx) as (y & st' & Hrun & Sy & Hh).
  destruct (add3_shape _ _ _ _ _ Sy Hx) as (z & Ez & Sz).
  exists z, st'. split; [|done]. apply residual_run. by exists y.
Qed.

Lemma shape_step_bind b n d h F G :
  shape_step b n d h F → shape_step b n d h G →
  shape_step b n d h (λ x, F x ≫= G).
Proof.
  intros HF HG x st Hst Hx. destruct (HF x st Hst Hx) as (y & st1 & Hrun & Sy & Hh).
  destruct (HG y st1 Hh Sy) as (z & st2 & Hrun2 & Sz & Hh2).
  exists z, st2. split; [|done]. apply run_bind. by exists y, st1.
Qed.

Lemma shape_step_foldlM {B} b n d h (f : T3 → B → M T3) (ls : list B) :
  Forall (λ l, shape_step b n d h (λ x, f x l)) ls →
  shape_step b n d h (λ x, foldlM f x ls).
Proof.
  induction 1 as [|l ls Hl _ IH]; intros x st Hst Hx.
  - exists x, st. split; [by apply run_ret | done].
  - destruct (Hl x st Hst Hx) as (y & st1 & Hrun & Sy & Hh).
    destruct (IH y st1 Hh Sy) as (z & st2 & Hrun2 & Sz & Hh2).
    exists z, st2. split; [|done]. simpl. apply run_bind. by exists y, st1.
Qed.

Lemma layer_group_total ld cd h l b j (data : T3) mask pe nl :
  layer_wf ld cd h l → rotary_keeps_length → 0 < j → 0 < nl →
  has_shape b j cd data → mask_fits b j mask →
  shape_step b nl ld h (λ x, layer_group data mask pe x l).
Proof.
  intros (Wca & Wcf & Wb) Hrot Hj Hnl Hd Hm. unfold layer_group.
  apply (shape_step_bind _ _ _ _ (residual _)).
  { apply shape_step_residual.
    by apply (call_cross_attn_total ld cd h _ b nl j data mask). }
  apply (shape_step_bind _ _ _ _ (residual _)).
  { apply shape_step_residual. by apply call_ff_total. }
  apply shape_step_foldlM. eapply Forall_impl; [exact Wb|].
  intros blk [Wa Wf]. unfold self_block.
  apply (shape_step_bind _ _ _ _ (residual _) (residual _)).
  - apply shape_step_residual. by apply call_self_attn_total.
  - apply shape_step_residual. by apply call_ff_total.
Qed.

End LayersTotal.

Section DataShapes.
Context {rt : Runtime} {rot : Rotary}.

(** ** The shape of the data that forward prepares *)

Lemma shape_of_shaped_ex {A} r (t : tensor A (S r)) sh :
  shape_of (S r) t = Some sh →
  ∃ s c, sh = s ++ [c] ∧ length s = r ∧ shaped r s c t.
Proof.
  revert t sh. induction r as [|r IH]; intros t sh H.
  - destruct t as [|x xs]; simpl in H.
    + injection H as <-. by exists [], 0.
    + match type of H with context [forallb ?f ?l] => destruct (forallb f l) end;
        [|done].
      injection H as <-. by exists [], (S (length xs)).
  - destruct t as [|x xs].
    + injection H as <-. exists (0 :: replicate r 0), 0.
      split; [|split; [simpl; by rewrite length_replicate | by split]].
      simpl. f_equal. clear. induction r; simpl; [done | by f_equal].
    + change (shape_of (S (S r)) (x :: xs))
        with (s ← shape_of (S r) x;
              if forallb (λ y, bool_decide (shape_of (S r) y = Some s)) xs
              then Some (length (x :: xs) :: s) else None) in H.
      apply bind_Some in H as (sx & Ex & H).
      match type of H with context [forallb ?f ?l] => destruct (forallb f l) eqn:Ef end;
        [|done].
      injection H as <-.
      destruct (IH _ _ Ex) as (s & c & -> & Hl & Hx).
      exists (S (length xs) :: s), c. split; [done|]. split; [simpl; lia|].
      split; [done|]. constructor; [done|].
      apply Forall_forall. intros y Hy. rewrite forallb_forall in Ef.
      apply list_elem_of_In, Ef, bool_decide_eq_true in Hy.
      destruct (IH _ _ Hy) as (s' & c' & E & _ & Hy').
      apply app_inj_tail in E as [-> ->]. done.
Qed.

Lemma shape_of_shaped {A} r (t : tensor A (S r)) s c :
  shape_of (S r) t = Some (s ++ [c]) → shaped r s c t.
Proof.
  intros H. destruct (shape_of_shaped_ex _ _ _ H) as (s' & c' & E & _ & Hs).
  by apply app_inj_tail in E as [-> ->].
Qed.

Lemma shape_of_length {A} r (t : tensor A (S r)) s c :
  shape_of (S r) t = Some (s ++ [c]) → length s = r.
Proof.
  intros H. destruct (shape_of_shaped_ex _ _ _ H) as (s' & c' & E & Hl & _).
  by apply app_inj_tail in E as [-> ->].
Qed.

Lemma axis_positions (axis : list nat) a b :
  ∃ axis_pos, mapM (λ size, linspace a b (Z.of_nat size)) axis = Ok axis_pos
              ∧ Forall2 (λ n (v : vec), length v = n) axis axis_pos.
Proof.
  induction axis as [|n axis (ap & E & F)].
  - by exists [].
  - exists (linspace_values a b (Z.of_nat n) :: ap). split.
    + apply mapM_Ok. constructor; [|by apply mapM_Ok]. unfold linspace.
      by destruct (Z.ltb_spec (Z.of_nat n) 0) as [|_]; [lia|].
    + constructor; [|done]. rewrite length_linspace_values by lia. lia.
Qed.

Lemma meshgrid_stack_shaped r s (axis_pos : list vec) coords :
  Forall2 (λ n (v : vec), length v = n) s axis_pos → length s = r →
  shaped r s (length coords + r) (meshgrid_stack r axis_pos coords).
Proof.
  revert s axis_pos coords. induction r as [|r IH]; intros s axis_pos coords HF Hl.
  - destruct s; [|done]. simpl. split; [done | lia].
  - destruct HF as [|n v s axis_pos Hv HF]; [done|]. simpl in Hl. simpl.
    split; [by rewrite length_map|].
    apply Forall_forall. intros t (c & -> & _)%list_elem_of_fmap.
    replace (length coords + S r) with (length (coords ++ [c]) + r)
      by (rewrite length_app; simpl; lia).
    apply IH; [done | lia].
Qed.

Lemma texpand_shaped {A B} (f : A → list B) c' r s k (t : tensor A (S r)) :
  (∀ a, length (f a) = c') → shaped r s k t →
  shaped (S r) (s ++ [k]) c' (texpand f (S r) t).
Proof.
  intros Hf. revert s t. induction r as [|r IH]; intros s t Ht.
  - destruct Ht as [-> Hk]. simpl. split; [by rewrite length_map|].
    apply Forall_forall. intros v (a & -> & _)%list_elem_of_fmap. by split.
  - destruct s as [|n s]; [done|]. destruct Ht as [Hn Ht].
    change (texpand f (S (S r)) t) with (map (texpand f (S r)) t).
    change (shaped (S (S r)) ((n :: s) ++ [k]) c' (map (texpand f (S r)) t))
      with (length (map (texpand f (S r)) t) = n
            ∧ Forall (shaped (S r) (s ++ [k]) c') (map (texpand f (S r)) t)).
    split; [by rewrite length_map|].
    apply Forall_forall. intros v (u & -> & Hu)%list_elem_of_fmap.
    rewrite Forall_forall in Ht. by apply IH, Ht.
Qed.

Lemma merge_last2_shaped {A} r s k c (t : tensor A (S (S r))) :
  length s = r → shaped (S r) (s ++ [k]) c t → shaped r s (k * c) (merge_last2 r t).
Proof.
  revert s t. induction r as [|r IH]; intros s t Hl Ht.
  - destruct s; [|done]. destruct Ht as [Hk Ht]. simpl. split; [done|].
    rewrite (length_concat_const c), Hk; [done|].
    eapply Forall_impl; [exact Ht|]. by intros v [_ ?].
  - destruct s as [|n s]; [done|]. simpl in Hl. destruct Ht as [Hn Ht].
    change (merge_last2 (S r) t) with (map (merge_last2 r) t).
    change (shaped (S r) (n :: s) (k * c) (map (merge_last2 r) t))
      with (length (map (merge_last2 r) t) = n
            ∧ Forall (shaped r s (k * c)) (map (merge_last2 r) t)).
    split; [by rewrite length_map|].
    apply Forall_forall. intros v (u & -> & Hu)%list_elem_of_fmap.
    rewrite Forall_forall in Ht. apply IH; [lia | by apply Ht].
Qed.

Lemma cat_last_shaped {A} r s c c' (x y : tensor A (S r)) :
  shaped r s c x → shaped r s c' y →
  ∃ z, cat_last r x y = Ok z ∧ shaped r s (c + c') z.
Proof.
  revert s x y. induction r as [|r IH]; intros s x y Hx Hy.
  - destruct Hx as [-> Hx]. destruct Hy as [_ Hy]. exists (x ++ y).
    split; [done|]. split; [done|]. rewrite length_app. lia.
  - destruct s as [|n s]; [done|]. destruct Hx as [Hnx Hx]. destruct Hy as [Hny Hy].
    change (cat_last (S r) x y) with (zip_exact (cat_last r) x y).
    destruct (zip_exact_total (shaped r s c) (shaped r s c') (shaped r s (c + c'))
                (cat_last r) x y) as (z & Hz & Hlz & HP);
      [exact (eq_trans Hnx (eq_sym Hny)) | done | done | by intros; apply IH |].
    exists z. split; [done|]. split; [exact (eq_trans Hlz Hnx) | done].
Qed.

Lemma numel_cons n s : numel (n :: s) = n * numel s.
Proof. done. Qed.

Lemma flatten_lead_shape {A} r s c (x : tensor A (S r)) :
  shaped r s c x → mat_shape (numel s) c (flatten_lead r x).
Proof.
  revert s x. induction r as [|r IH]; intros s x Hx.
  - destruct Hx as [-> Hx]. split; [done|]. by constructor.
  - destruct s as [|n s]; [done|]. destruct Hx as [Hn Hx].
    change (flatten_lead (S r) x) with (concat (map (flatten_lead r) x)).
    rewrite numel_cons.
    assert (Forall (mat_shape (numel s) c) (map (flatten_lead r) x)) as Hall.
    { apply Forall_forall. intros m (u & -> & Hu)%list_elem_of_fmap.
      rewrite Forall_forall in Hx. by apply IH, Hx. }
    split.
    + rewrite (length_concat_const (numel s)).
      * rewrite length_map. f_equal. exact Hn.
      * eapply Forall_impl; [exact Hall|]. by intros m [? _].
    + apply Forall_concat. eapply Forall_impl; [exact Hall|]. by intros m [_ ?].
Qed.

End DataShapes.

Section ForwardTotal.
Context {rt : Runtime} {rot : Rotary}.

(** ** Perceiver.forward on data of the sizes of the model *)

Lemma length_fourier_scales max_freq num_bands base :
  (0 ≤ num_bands)%Z →
  length (fourier_scales max_freq num_bands base) = Z.to_nat num_bands.
Proof.
  intros H. unfold fourier_scales. by rewrite length_map, length_linspace_values.
Qed.

Lemma encode_positions_shaped r self b (axis : list nat) c
    (data : tensor scalar (S (S r))) :
  0 < r → length axis = r →
  (0 < self_max_freq self / 2)%Q → (0 < self_freq_base self)%Q →
  fis_zero (flog (self_freq_base self)) = false → (0 ≤ self_num_freq_bands self)%Z →
  shaped (S r) (b :: axis) c data →
  ∃ y, encode_positions self axis data = Ok y
       ∧ shaped (S r) (b :: axis)
           (c + r * (2 * Z.to_nat (self_num_freq_bands self) + 1)) y.
Proof.
  intros Hr Hl Hmf Hb Hlog Hnb Hd. unfold encode_positions.
  destruct (axis_positions axis (fof_Q (-1)) (fof_Q 1)) as (ap & Eap & Fap).
  pose proof (meshgrid_stack_shaped r axis ap [] Fap Hl) as Hpos. simpl in Hpos.
  set (scales := fourier_scales (self_max_freq self) (self_num_freq_bands self)
                   (self_freq_base self)).
  pose proof (texpand_shaped (fourier_features scales)
                (2 * Z.to_nat (self_num_freq_bands self) + 1) r axis r _
                (λ a, eq_trans (fourier_features_length scales a)
                        (f_equal (λ n, 2 * n + 1)
                           (length_fourier_scales _ _ _ Hnb))) Hpos) as Henc.
  apply merge_last2_shaped in Henc; [|done].
  destruct Hd as [Hlen Hd0].
  destruct (cat_last_shaped (S r) (b :: axis) c
              (r * (2 * Z.to_nat (self_num_freq_bands self) + 1)) data
              (replicate (length data)
                 (merge_last2 r (texpand (fourier_features scales) (S r)
                                   (meshgrid_stack r ap [])))))
    as (y & Ey & Sy).
  { by split. }
  { split; [rewrite length_replicate; exact Hlen|]. by apply Forall_replicate. }
  exists y. split; [|done].
  apply bind_Ok. exists ap. split; [done|].
  apply bind_Ok. exists (meshgrid_stack r ap []). split.
  { unfold stack_meshgrid. by destruct r; [lia|]. }
  apply bind_Ok. eexists. split; [|exact Ey].
  rewrite fourier_encode_eq.
  apply Qle_bool_false in Hmf, Hb. rewrite Hmf, Hb, Hlog. simpl.
  by destruct (Z.ltb_spec (self_num_freq_bands self) 0) as [|_]; [lia|].
Qed.

Lemma shaped_flatten r b (axis : list nat) c (data : tensor scalar (S (S r))) :
  shaped (S r) (b :: axis) c data →
  has_shape b (numel axis) c (map (flatten_lead r) data).
Proof.
  intros [Hb Hd]. split; [rewrite length_map; exact Hb|].
  apply Forall_forall. intros m (u & -> & Hu)%list_elem_of_fmap.
  rewrite Forall_forall in Hd. by apply flatten_lead_shape, Hd.
Qed.

Lemma Perceiver_latents_total r nl ld cd nc self (data : tensor scalar (S (S r)))
    mask st b axis c :
  Perceiver_wf nl ld cd nc (heap st) self → rotary_keeps_length → 0 < nl →
  shape_of (S (S r)) data = Some (b :: axis ++ [c]) →
  Z.of_nat r = self_input_axis self →
  (if self_fourier_encode_data self
   then 0 < r ∧ (0 < self_max_freq self / 2)%Q ∧ (0 < self_freq_base self)%Q
        ∧ fis_zero (flog (self_freq_base self)) = false
        ∧ (0 ≤ self_num_freq_bands self)%Z
        ∧ cd = c + r * (2 * Z.to_nat (self_num_freq_bands self) + 1)
   else cd = c) →
  0 < numel axis → mask_fits b (numel axis) mask →
  ∃ x st', run (Perceiver_latents self data mask) st = Ok (x, st')
           ∧ has_shape b nl ld x ∧ heap st' = heap st.
Proof.
  intros ((w & Hw & Sw) & Hlayers & _) Hrot Hnl Hshape Haxis Hcd Hj Hm.
  pose proof (shape_of_length (S r) data (b :: axis) c Hshape) as Hl.
  pose proof (shape_of_shaped (S r) data (b :: axis) c Hshape) as Hd.
  simpl in Hl. injection Hl as Hl.
  unfold Perceiver_latents. rewrite Hshape. cbv zeta.
  assert (take r (drop 1 (b :: axis ++ [c])) = axis) as ->.
  { simpl. rewrite drop_0. by rewrite take_app_length'. }
  rewrite Hl, Haxis, Z.eqb_refl. simpl negb. cbv iota.
  assert (∃ d', run (if self_fourier_encode_data self
                     then lift (encode_positions self axis data) else mret data) st
                = Ok (d', st) ∧ shaped (S r) (b :: axis) cd d') as (d' & Ed & Sd).
  { destruct (self_fourier_encode_data self).
    - destruct Hcd as (Hr & Hmf & Hb & Hlog & Hnb & ->).
      destruct (encode_positions_shaped r self b axis c data) as (y & Ey & Sy); try done.
      exists y. split; [by apply run_lift | done].
    - subst cd. exists data. split; [by apply run_ret | done]. }
  apply shaped_flatten in Sd.
  set (st1 := match sinu_emb self with
              | Some e => {| heap := heap st; rng := rng st;
                             trace := trace st ++
                               [EvSinuEmb (length (default [] (head (replicate (length data) w))))
                                  (make_table
                                     (length (default [] (head (replicate (length data) w))))
                                     (se_dim e))] |}
              | None => st
              end).
  assert (heap st1 = heap st) as Hst1 by (subst st1; by destruct (sinu_emb self)).
  assert (has_shape b nl ld (replicate (length data) w)) as Sx.
  { destruct Hd as [Hb _]. split; [rewrite length_replicate; exact Hb|].
    by apply Forall_replicate. }
  destruct (shape_step_foldlM b nl ld (heap st)
              (layer_group (map (flatten_lead r) d') mask
                 (match sinu_emb self with
                  | Some e => Some (make_table
                                (length (default [] (head (replicate (length data) w))))
                                (se_dim e))
                  | None => None
                  end))
              (layers self)) with (x := replicate (length data) w) (st := st1)
    as (x & st' & Hrun & Sx' & Hheap); [|done|done|].
  { eapply Forall_impl; [exact Hlayers|]. intros l Wl.
    by apply (layer_group_total ld cd _ l b (numel axis)). }
  exists x, st'. split; [|done].
  apply run_bind. exists d', st. split; [done|].
  apply run_bind. exists (OParameter w), st. split; [by apply run_deref|].
  apply run_bind. eexists _, st1. split; [|exact Hrun].
  subst st1. destruct (sinu_emb self) as [e|]; [|by apply run_ret].
  apply run_bind. eexists _, _. split; [|by apply run_ret].
  unfold SinusoidalEmbeddings_forward. cbv zeta.
  apply run_bind. exists (). eexists. split; [by apply run_emit | by apply run_ret].
Qed.

Lemma mean_rows_length n d (m : mat) : 0 < n → mat_shape n d m → length (mean_rows m) = d.
Proof.
  intros Hn [Hl Hm]. unfold mean_rows. rewrite length_map.
  apply length_sum_rows; [|done]. intros ->. simpl in Hl. lia.
Qed.

Lemma Perceiver_forward_total r nl ld cd nc self (data : tensor scalar (S (S r)))
    mask st b axis c :
  Perceiver_wf nl ld cd nc (heap st) self → rotary_keeps_length → 0 < nl →
  shape_of (S (S r)) data = Some (b :: axis ++ [c]) →
  Z.of_nat r = self_input_axis self →
  (if self_fourier_encode_data self
   then 0 < r ∧ (0 < self_max_freq self / 2)%Q ∧ (0 < self_freq_base self)%Q
        ∧ fis_zero (flog (self_freq_base self)) = false
        ∧ (0 ≤ self_num_freq_bands self)%Z
        ∧ cd = c + r * (2 * Z.to_nat (self_num_freq_bands self) + 1)
   else cd = c) →
  0 < numel axis → mask_fits b (numel axis) mask →
  ∃ logits st', run (Perceiver_forward self data mask) st = Ok (logits, st')
                ∧ mat_shape b nc logits ∧ heap st' = heap st.
Proof.
  intros Hwf Hrot Hnl Hshape Haxis Hcd Hj Hm.
  destruct (Perceiver_latents_total _ _ _ _ _ _ _ _ _ _ _ _
              Hwf Hrot Hnl Hshape Haxis Hcd Hj Hm) as (x & st' & Hrun & [Hb Sx] & Hheap).
  destruct Hwf as (_ & _ & ln & lin & Hlog & Wln & Wlin).
  assert (mat_shape b ld (map mean_rows x)) as Sm.
  { split; [by rewrite length_map|].
    apply Forall_forall. intros v (m & -> & Hin)%list_elem_of_fmap.
    rewrite Forall_forall in Sx. by eapply mean_rows_length, Sx. }
  destruct (mapM_mat_shape (LayerNorm_vec ln) b ld ld (map mean_rows x))
    as (x1 & E1 & S1); [intros v; by apply LayerNorm_vec_length | done |].
  destruct (mapM_mat_shape (Linear_vec lin) b ld nc x1)
    as (o & E2 & S2); [intros v; by apply Linear_vec_length | done |].
  exists o, st'. split; [|done]. unfold Perceiver_forward.
  apply run_bind. exists x, st'. split; [done|]. cbv zeta.
  apply run_bind. exists (OSequential ln lin), st'.
  split; [apply run_deref; by rewrite Hheap|].
  apply run_bind. exists x1, st'. split; [by apply run_lift|]. by apply run_lift.
Qed.

End ForwardTotal.

Section BuiltModel.
Context {rt : Runtime} {rot : Rotary}.

(** ** Built modules on arrays of their sizes *)

(** X2: a [FeedForward] that [__init__] built for [dim] maps every array of
    shape [b, n, dim] to an array of the same shape; it does not fail. *)
Theorem FeedForward_keeps_shape dim mult p st f st' b n (x : T3) :
  run (FeedForward_init dim mult p) st = Ok (f, st') →
  has_shape b n (Z.to_nat dim) x →
  ∃ y, FeedForward_forward f x = Ok y ∧ has_shape b n (Z.to_nat dim) y.
Proof.
  intros H Hx. apply FeedForward_init_wf in H. by eapply FeedForward_forward_shape.
Qed.

(** X3: an [Attention] that [__init__] built with [heads >= 1], called on
    queries of shape [b, n, query_dim], with a context (the queries when
    there is none) of shape [b, j, context_dim], [j >= 1], and a mask that
    is absent or flattens to [b, j], returns an array of the shape of the
    queries; it does not fail. *)
Theorem Attention_forward_total query_dim context_dim h dim_head p st0 a st1
    b n j (x : T3) context mask pos_emb st :
  run (Attention_init query_dim context_dim h dim_head p) st0 = Ok (a, st1) →
  (0 < h)%Z → rotary_keeps_length → 0 < j →
  has_shape b n (Z.to_nat query_dim) x →
  has_shape b j (Z.to_nat (default query_dim context_dim)) (default x context) →
  mask_fits b j mask →
  ∃ y st', run (Attention_forward a x context mask pos_emb) st = Ok (y, st')
           ∧ has_shape b n (Z.to_nat query_dim) y.
Proof.
  intros H Hh Hrot Hj Hx Hc Hm. apply Attention_init_wf in H; [|done].
  destruct (Attention_forward_shape a _ _ b n j x context mask pos_emb st
              H Hrot Hj Hx Hc Hm) as (y & st' & Hrun & Sy & _).
  by exists y, st'.
Qed.

Lemma Perceiver_init_fields c st self st' :
  run (Perceiver_init c) st = Ok (self, st') →
  self_input_axis self = input_axis c ∧ self_max_freq self = max_freq c
  ∧ self_num_freq_bands self = num_freq_bands c ∧ self_freq_base self = freq_base c
  ∧ self_fourier_encode_data self = fourier_encode_data c.
Proof.
  unfold Perceiver_init. cbv zeta. intros H.
  apply run_bind in H as (w & st1 & _ & H).
  apply run_bind in H as (lat & st2 & _ & H).
  apply run_bind in H as ([ls cs] & st3 & _ & H).
  apply run_bind in H as (ln & st4 & _ & H).
  apply run_bind in H as (lin & st5 & _ & H).
  apply run_bind in H as (tl & st6 & _ & H).
  by apply run_ret in H as [<- _].
Qed.

(** X4: the data that [forward] hands to the cross-attention has the size
    that [__init__] built the cross-attention for: with
    [fourier_encode_data], data of shape [b, *axis, input_channels] and
    [input_axis = len(axis) >= 1] become, once the encoded positions are
    concatenated and the axes flattened, an array of shape
    [b, prod(axis), input_axis * (2 * num_freq_bands + 1) + input_channels]. *)
Theorem encoded_context_size r c st0 self st1 (data : tensor scalar (S (S r))) b axis :
  run (Perceiver_init c) st0 = Ok (self, st1) →
  fourier_encode_data c = true → Z.of_nat r = input_axis c → 0 < r →
  (0 < max_freq c / 2)%Q → (0 < freq_base c)%Q → fis_zero (flog (freq_base c)) = false →
  (0 ≤ num_freq_bands c)%Z → (0 ≤ input_channels c)%Z →
  shape_of (S (S r)) data = Some (b :: axis ++ [Z.to_nat (input_channels c)]) →
  ∃ y, encode_positions self axis data = Ok y
       ∧ has_shape b (numel axis) (Z.to_nat (input_dim c)) (map (flatten_lead r) y).
Proof.
  intros H Hf Hr Hpos Hmf Hb Hlog Hnb Hic Hshape.
  apply Perceiver_init_fields in H as (_ & Emf & Enb & Eb & _).
  pose proof (shape_of_length (S r) data (b :: axis) _ Hshape) as Hl.
  pose proof (shape_of_shaped (S r) data (b :: axis) _ Hshape) as Hd.
  simpl in Hl. injection Hl as Hl.
  destruct (encode_positions_shaped r self b axis (Z.to_nat (input_channels c)) data)
    as (y & Ey & Sy);
    [done | done | by rewrite Emf | by rewrite Eb | by rewrite Eb | by rewrite Enb
     | exact Hd |].
  exists y. split; [done|]. apply shaped_flatten in Sy.
  replace (Z.to_nat (input_dim c))
    with (Z.to_nat (input_channels c)
          + r * (2 * Z.to_nat (self_num_freq_bands self) + 1)); [done|].
  unfold input_dim. rewrite Hf, Enb, <- Hr. nia.
Qed.



End BuiltModel.

Section Edges.
Context {rt : Runtime} {rot : Rotary}.

(** ** GEGLU on every size of the last axis *)

(** X7: [GEGLU] splits a vector of even size [2 m] into its two halves
    and returns [x * gelu(gates)], of size [m]; a vector of size 1 gives a
    single chunk, which does not unpack ([ValueError]); a vector of size 3
    gives chunks of sizes 2 and 1, and the one [gates] value is broadcast; a vector of
    odd size [2 m + 1 >= 5] gives chunks of sizes [m + 1] and [m], which do
    not multiply ([RuntimeError]). *)
Theorem GEGLU_by_size (v : vec) :
  (∀ m, length v = m * 2 →
        GEGLU_vec v = Ok (zip_with fmul (take m v) (map fgelu (drop m v))))
  ∧ (length v = 1 → GEGLU_vec v = Err ValueError)
  ∧ (∀ a b c, v = [a; b; c] →
        GEGLU_vec v = Ok [fmul a (fgelu c); fmul b (fgelu c)])
  ∧ (∀ m, 2 ≤ m → length v = m * 2 + 1 → GEGLU_vec v = Err RuntimeError).
Proof.
  split; [|split; [|split]].
  - intros m Hv. destruct (chunk2_halves v m Hv) as (x & g & Hc & Hx & Hg & E).
    unfold GEGLU_vec. rewrite Hc. cbn. unfold broadcast2.
    rewrite length_map, Hx, Hg, Nat.eqb_refl. subst v.
    by rewrite take_app_length', drop_app_length'.
  - intros Hv. unfold GEGLU_vec, chunk2. by rewrite Hv.
  - by intros a b c ->.
  - intros m Hm Hv. unfold GEGLU_vec.
    assert (chunk2 v = Ok (take (S m) v, drop (S m) v)) as ->.
    { unfold chunk2. rewrite Hv.
      destruct (Nat.eqb_spec (m * 2 + 1) 1) as [|_]; [lia|]. cbv zeta.
      replace (m * 2 + 1 + 1) with (S m * 2) by lia. by rewrite Nat.div_mul. }
    change (broadcast2 fmul (take (S m) v) (map fgelu (drop (S m) v))
            = Err RuntimeError).
    assert (length (take (S m) v) = S m) as Hx by (rewrite length_take; lia).
    assert (length (map fgelu (drop (S m) v)) = m) as Hg
      by (rewrite length_map, length_drop; lia).
    unfold broadcast2. rewrite Hx, Hg.
    destruct (Nat.eqb_spec (S m) m) as [|_]; [lia|].
    destruct (take (S m) v) as [|a [|b x]]; simpl in Hx; try lia.
    destruct (map fgelu (drop (S m) v)) as [|c [|d g]]; simpl in Hg; try lia. done.
Qed.

(** ** Masks that hide nothing, masks of the wrong size *)

Lemma expand_to_Forall {A} (P : A → Prop) n (l k : list A) :
  Forall P l → expand_to n l = Ok k → Forall P k.
Proof.
  intros Hl. unfold expand_to. destruct (length l =? n); [by intros [= <-]|].
  destruct l as [|a [|]]; try done. intros [= <-].
  apply Forall_replicate. by inversion Hl.
Qed.

Lemma mapM_zip_left {A B} (f : A * B → result A) xs ys r :
  length ys = length xs → mapM f (zip xs ys) = Ok r →
  (∀ x y z, y ∈ ys → f (x, y) = Ok z → z = x) → r = xs.
Proof.
  revert ys r. induction xs as [|x xs IH]; intros [|y ys] r Hl H Hf;
    simpl in Hl; try lia.
  - by injection H as <-.
  - apply mapM_Ok in H. inversion H as [|? z ? r' Hz Hr]; subst.
    f_equal.
    + eapply Hf; [|exact Hz]. apply list_elem_of_here.
    + apply (IH ys); [lia | by apply mapM_Ok |].
      intros x' y' z' Hy'. apply Hf. by apply list_elem_of_further.
Qed.

Lemma keep_all (srow : vec) (mrow : list bool) value :
  length mrow = length srow → Forall (λ b, b = true) mrow →
  zip_with (λ s (keep : bool), if keep then s else value) srow mrow = srow.
Proof.
  revert mrow. induction srow as [|s srow IH]; intros [|b mrow] Hl Hm;
    simpl in Hl; try lia; [done|].
  inversion Hm; subst. simpl. f_equal. apply IH; [lia | done].
Qed.

Lemma masked_fill_all_true (sim : T3) mk value r :
  Forall (Forall (Forall (λ b : bool, b = true))) mk →
  masked_fill sim mk value = Ok r → r = sim.
Proof.
  intros Hmk. unfold masked_fill. intros (mk' & He & H)%bind_Ok.
  pose proof (expand_to_length _ _ _ He) as Hl.
  pose proof (expand_to_Forall _ _ _ _ Hmk He) as Hmk'.
  eapply mapM_zip_left; [exact Hl | exact H |].
  intros Sm M m HM (mrows & Hrows & Hm)%bind_Ok. simpl in *.
  rewrite Forall_forall in Hmk'. specialize (Hmk' _ HM).
  pose proof (expand_to_length _ _ _ Hrows) as Hlr.
  pose proof (expand_to_Forall _ _ _ _ Hmk' Hrows) as Hall.
  eapply mapM_zip_left; [exact Hlr | exact Hm |].
  intros srow mr w Hmr (mrow & Hrow & [= <-])%bind_Ok. simpl in *.
  rewrite Forall_forall in Hall. specialize (Hall _ Hmr).
  apply keep_all; [by eapply expand_to_length | by eapply expand_to_Forall].
Qed.

Lemma repeat_mask_all_true h fm rm :
  Forall (Forall (λ b : bool, b = true)) fm → repeat_mask h fm = Ok rm →
  Forall (Forall (Forall (λ b : bool, b = true))) rm.
Proof.
  intros Hfm. unfold repeat_mask. destruct (h <? 0)%Z; [done|]. intros [= <-].
  apply Forall_concat, Forall_forall. intros g (row & -> & Hrow)%list_elem_of_fmap.
  apply Forall_replicate. constructor; [|done].
  rewrite Forall_forall in Hfm. by apply Hfm.
Qed.

Lemma Attention_sim_all_true a q k mask sim :
  Forall (Forall (λ b : bool, b = true)) (flatten_mask mask) →
  Attention_sim a q k (Some mask) = Ok sim → Attention_sim a q k None = Ok sim.
Proof.
  intros Hall. unfold Attention_sim. cbv zeta.
  intros (sim0 & Es & (rm & Er & Hfill)%bind_Ok)%bind_Ok.
  apply bind_Ok. exists sim0. split; [done|]. f_equal. symmetry.
  eapply masked_fill_all_true; [|exact Hfill]. by eapply repeat_mask_all_true.
Qed.

(** X8: a mask that is true everywhere changes nothing: when
    [Attention.forward] returns with such a mask, it returns the same
    array, and leaves the same state, without the mask. *)
Theorem all_true_mask_is_no_mask a (x : T3) context mask pos_emb st y st' :
  Forall (Forall (λ b : bool, b = true)) (flatten_mask mask) →
  run (Attention_forward a x context (Some mask) pos_emb) st = Ok (y, st') →
  run (Attention_forward a x context None pos_emb) st = Ok (y, st').
Proof.
  intros Hall H. unfold Attention_forward in *.
  apply run_bind in H as (u & st1 & H1 & H). apply run_bind. exists u, st1.
  split; [done|].
  apply run_bind in H as ([[q k] v] & st2 & H2 & H). apply run_bind.
  exists (q, k, v), st2. split; [done|].
  apply run_bind in H as ([q' k'] & st3 & H3 & H). apply run_bind.
  exists (q', k'), st3. split; [done|].
  apply run_lift in H as [H <-]. apply run_lift. split; [|done].
  unfold attend, Attention_attn in *. cbv zeta in *.
  apply bind_Ok in H as (attn & (sim & Es & [= <-])%bind_Ok & H).
  apply bind_Ok. eexists. split; [|exact H].
  apply bind_Ok. exists sim. split; [|done].
  by apply (Attention_sim_all_true _ _ _ mask).
Qed.

(** X9: a mask whose batch size does not fit is refused: when the scores
    [sim] have [B] rows (batch times heads) and the mask, repeated for the
    [h >= 0] heads, has neither [B] rows nor a single one, filling the
    scores raises [RuntimeError]. *)
Theorem mask_batch_mismatch a (q k sim : T3) mask :
  einsum_qk q k = Ok sim → (0 ≤ heads a)%Z →
  length (flatten_mask mask) * Z.to_nat (heads a) ≠ length sim →
  length (flatten_mask mask) * Z.to_nat (heads a) ≠ 1 →
  Attention_sim a q k (Some mask) = Err RuntimeError.
Proof.
  intros Es Hh Hne Hne1. unfold Attention_sim. cbv zeta. rewrite Es. cbn.
  unfold repeat_mask. destruct (Z.ltb_spec (heads a) 0) as [|_]; [lia|]. cbn.
  set (rm := concat _).
  assert (length rm = length (flatten_mask mask) * Z.to_nat (heads a)) as Hl.
  { subst rm. rewrite (length_concat_const (Z.to_nat (heads a))), length_map; [done|].
    apply Forall_forall. intros g (row & -> & _)%list_elem_of_fmap.
    apply length_replicate. }
  clearbody rm. unfold masked_fill, expand_to. rewrite Hl.
  match goal with |- context [Nat.eqb ?n ?m] => destruct (Nat.eqb_spec n m) as [E|_] end.
  { rewrite length_map in E. done. }
  destruct rm as [|m [|]]; simpl in Hl; first [done | lia].
Qed.

(** ** PreNorm and its context *)

(** X10: a [PreNorm] built with a context dimension needs the keyword
    [context]: without it the call never returns, and once [x] is
    normalised the failure is the [KeyError] of [kwargs["context"]]. *)
Theorem PreNorm_context_required p nc (x : T3) kw st :
  norm_context p = Some nc → kw_context kw = None →
  (∀ y st', run (PreNorm_forward p x kw) st ≠ Ok (y, st'))
  ∧ (is_ok (LayerNorm_forward (norm p) x) →
     run (PreNorm_forward p x kw) st = Err KeyError).
Proof.
  intros Hnc Hkw. unfold PreNorm_forward. rewrite Hnc, Hkw. split.
  - intros y st' H. apply run_bind in H as (x1 & st1 & _ & H).
    by apply run_bind in H as (kw' & st2 & H & _).
  - intros [x1 E]. unfold run, mbind, M_bind, lift. by rewrite E.
Qed.

End Edges.

Ltac builds_two_tac :=
  let H := fresh "H" in
  intros ? ? ? H; inv_run;
  repeat match goal with
  | H : run (Attention_init _ _ _ _ _) _ = Ok _ |- _ => apply Attention_init_heap in H
  | H : run (FeedForward_init _ _ _) _ = Ok _ |- _ => apply FeedForward_init_heap in H
  | H : run (PreNorm_init _ _ _) _ = Ok _ |- _ => apply PreNorm_init_heap in H as [-> ?]
  end;
  subst; simpl; rewrite !length_app; simpl;
  match goal with H : heap _ = heap _ |- _ => rewrite H end; lia.

Section Counting.
Context {rt : Runtime} {rot : Rotary}.

(** ** How many modules [Perceiver.__init__] builds *)

Lemma get_cross_attn_two c d : builds_two (get_cross_attn c d).
Proof. unfold get_cross_attn. builds_two_tac. Qed.

Lemma get_cross_ff_two c : builds_two (get_cross_ff c).
Proof. unfold get_cross_ff. builds_two_tac. Qed.

Lemma get_latent_attn_two c : builds_two (get_latent_attn c).
Proof. unfold get_latent_attn. builds_two_tac. Qed.

Lemma get_latent_ff_two c : builds_two (get_latent_ff c).
Proof. unfold get_latent_ff. builds_two_tac. Qed.

Lemma cache_fn_count f b cache st a cache' st' :
  builds_two f → run (cache_fn f b cache) st = Ok ((a, cache'), st') →
  length (heap st')
  = length (heap st) + (if b && bool_decide (is_Some cache) then 0 else 2)
  ∧ cache' = (if b then Some a else cache).
Proof.
  intros Hf H. apply cache_fn_run in H as [(-> & -> & -> & ->)|(H & -> & Hn)].
  - simpl. split; [lia | done].
  - apply Hf in H. destruct b; [|done]. by rewrite (Hn eq_refl).
Qed.

Lemma self_attns_length c b idxs acc st acc' st' :
  run (foldlM (build_self_attn c b) acc idxs) st = Ok (acc', st') →
  length acc'.1 = length acc.1 + length idxs.
Proof.
  revert acc st. induction idxs as [|i idxs IH]; intros acc st H; simpl in H.
  - apply run_ret in H as [<- _]. simpl. lia.
  - apply run_bind in H as (acc1 & st1 & H1 & H).
    apply build_self_attn_run in H1 as (la & cla & st0 & lf & clf & _ & _ & ->).
    apply IH in H. simpl in *. rewrite H, length_app. simpl. lia.
Qed.

Lemma self_attns_count_untied c idxs acc st acc' st' :
  run (foldlM (build_self_attn c false) acc idxs) st = Ok (acc', st') →
  acc'.2 = acc.2 ∧ length (heap st') = length (heap st) + 4 * length idxs.
Proof.
  revert acc st. induction idxs as [|i idxs IH]; intros acc st H; simpl in H.
  - apply run_ret in H as [<- <-]. split; [done | simpl; lia].
  - apply run_bind in H as (acc1 & st1 & H1 & H).
    apply build_self_attn_run in H1 as (la & cla & st0 & lf & clf & H1 & H2 & ->).
    apply cache_fn_count in H1 as [L1 ->]; [|apply get_latent_attn_two].
    apply cache_fn_count in H2 as [L2 ->]; [|apply get_latent_ff_two].
    apply IH in H as [Hc L]. simpl in *. split; [|lia].
    rewrite Hc. by destruct acc as [? []].
Qed.

Lemma self_attns_count_tied c idxs acc st acc' st' :
  run (foldlM (build_self_attn c true) acc idxs) st = Ok (acc', st') →
  latent_caches_paired acc.2 →
  latent_caches_paired acc'.2
  ∧ cache_cross_attn acc'.2 = cache_cross_attn acc.2
  ∧ cache_cross_ff acc'.2 = cache_cross_ff acc.2
  ∧ (is_Some (cache_latent_attn acc'.2)
     ↔ is_Some (cache_latent_attn acc.2) ∨ 0 < length idxs)
  ∧ length (heap st')
    = length (heap st)
      + (if bool_decide (is_Some (cache_latent_attn acc.2)) then 0
         else 4 * min 1 (length idxs)).
Proof.
  revert acc st. induction idxs as [|i idxs IH]; intros acc st H Hp; simpl in H.
  - apply run_ret in H as [<- <-]. split; [done|]. split; [done|]. split; [done|].
    split; [simpl; intuition lia|]. simpl. destruct (bool_decide _); lia.
  - apply run_bind in H as (acc1 & st1 & H1 & H).
    apply build_self_attn_run in H1 as (la & cla & st0 & lf & clf & H1 & H2 & ->).
    apply cache_fn_count in H1 as [L1 ->]; [|apply get_latent_attn_two].
    apply cache_fn_count in H2 as [L2 ->]; [|apply get_latent_ff_two].
    apply IH in H as (Hp' & Ha & Hf & Hs & L); [|by split; intros _; eexists].
    cbn [fst snd cache_cross_attn cache_cross_ff cache_latent_attn cache_latent_ff
         length] in *.
    split; [done|]. split; [done|]. split; [done|].
    split; [split; [intros _; right; lia | intros _; apply Hs; left; by eexists]|].
    rewrite L, L2, L1. rewrite (bool_decide_eq_true_2 (is_Some (Some la))) by by eexists.
    destruct (cache_latent_attn acc.2) as [x|] eqn:E.
    + destruct (proj1 Hp) as [y ->]; [by eexists|].
      rewrite !bool_decide_eq_true_2 by by eexists. cbn [andb]. lia.
    + assert (cache_latent_ff acc.2 = None) as ->.
      { destruct (cache_latent_ff acc.2) eqn:E'; [|done].
        destruct (proj2 Hp) as [? ?]; [by eexists | congruence]. }
      rewrite !bool_decide_eq_false_2 by (by intros [? ?]). cbn [andb]. lia.
Qed.

Lemma build_layer_shape c d acc i st acc' st' :
  run (build_layer c d acc i) st = Ok (acc', st') →
  ∃ l, acc'.1 = acc.1 ++ [l]
       ∧ length (self_attns l) = Z.to_nat (self_per_cross_attn c).
Proof.
  intros H.
  apply build_layer_run in H as (bl & cs & st0 & ca & cca & st2 & cf & ccf
                                   & H1 & _ & _ & ->).
  apply self_attns_length in H1. simpl in *. eexists. split; [done|].
  simpl. by rewrite H1, length_py_range.
Qed.

Lemma layers_shape c d idxs acc st acc' st' :
  run (foldlM (build_layer c d) acc idxs) st = Ok (acc', st') →
  ∃ new, acc'.1 = acc.1 ++ new ∧ length new = length idxs
         ∧ Forall (λ l, length (self_attns l) = Z.to_nat (self_per_cross_attn c)) new.
Proof.
  revert acc st. induction idxs as [|i idxs IH]; intros acc st H; simpl in H.
  - apply run_ret in H as [<- _]. exists []. by rewrite app_nil_r.
  - apply run_bind in H as (acc1 & st1 & H1 & H).
    apply build_layer_shape in H1 as (l & E1 & Hl).
    apply IH in H as (new & E & Hn & Hall). exists (l :: new).
    rewrite E, E1, <- app_assoc. split; [done|]. split; [simpl; lia|].
    by constructor.
Qed.

Lemma build_layer_count_untied c d acc i st acc' st' :
  run (build_layer c d acc i) st = Ok (acc', st') →
  (0 <? i)%Z && weight_tie_layers c = false →
  acc'.2 = acc.2
  ∧ length (heap st')
    = length (heap st) + (4 + 4 * Z.to_nat (self_per_cross_attn c)).
Proof.
  intros H Hb.
  apply build_layer_run in H as (bl & cs & st0 & ca & cca & st2 & cf & ccf
                                   & H1 & H2 & H3 & ->).
  cbv zeta in *. rewrite Hb in *.
  apply self_attns_count_untied in H1 as [Hc L1]. rewrite length_py_range in L1.
  apply cache_fn_count in H2 as [L2 ->]; [|apply get_cross_attn_two].
  apply cache_fn_count in H3 as [L3 ->]; [|apply get_cross_ff_two].
  simpl in *. subst cs. split; [by destruct acc as [? []] | lia].
Qed.

Lemma layers_count_untied c d idxs acc st acc' st' :
  run (foldlM (build_layer c d) acc idxs) st = Ok (acc', st') →
  Forall (λ i, (0 <? i)%Z && weight_tie_layers c = false) idxs →
  acc'.2 = acc.2
  ∧ length (heap st')
    = length (heap st) + length idxs * (4 + 4 * Z.to_nat (self_per_cross_attn c)).
Proof.
  revert acc st. induction idxs as [|i idxs IH]; intros acc st H Hall; simpl in H.
  - apply run_ret in H as [<- <-]. split; [done | simpl; lia].
  - inversion Hall as [|? ? Hi Hall']; subst.
    apply run_bind in H as (acc1 & st1 & H1 & H).
    apply build_layer_count_untied in H1 as [Hc L1]; [|done].
    apply IH in H as [Hc' L]; [|done]. split; [congruence | simpl; lia].
Qed.

Lemma build_layer_count_tied c d acc i st acc' st' :
  run (build_layer c d acc i) st = Ok (acc', st') →
  (0 <? i)%Z && weight_tie_layers c = true → latent_caches_paired acc.2 →
  latent_caches_paired acc'.2
  ∧ caches_full (Z.to_nat (self_per_cross_attn c)) acc'.2
  ∧ length (heap st')
    = length (heap st)
      + (if bool_decide (is_Some (cache_latent_attn acc.2)) then 0
         else 4 * min 1 (Z.to_nat (self_per_cross_attn c)))
      + (if bool_decide (is_Some (cache_cross_attn acc.2)) then 0 else 2)
      + (if bool_decide (is_Some (cache_cross_ff acc.2)) then 0 else 2).
Proof.
  intros H Hb Hp.
  apply build_layer_run in H as (bl & cs & st0 & ca & cca & st2 & cf & ccf
                                   & H1 & H2 & H3 & ->).
  cbv zeta in *. rewrite Hb in *.
  apply self_attns_count_tied in H1 as (Hp' & Ea & Ef & Hs & L1); [|done].
  rewrite length_py_range in L1, Hs.
  apply cache_fn_count in H2 as [L2 ->]; [|apply get_cross_attn_two].
  apply cache_fn_count in H3 as [L3 ->]; [|apply get_cross_ff_two].
  cbn [fst snd andb cache_cross_attn cache_cross_ff cache_latent_attn cache_latent_ff]
    in *.
  rewrite Ea in L2. rewrite Ef in L3.
  split; [done|]. split; [|lia].
  split; [by eexists|]. split; [by eexists|]. intros Hn.
  assert (is_Some (cache_latent_attn cs)) as Hla by (apply Hs; by right).
  split; [done | by apply Hp'].
Qed.

Lemma layers_count_full c d idxs acc st acc' st' :
  run (foldlM (build_layer c d) acc idxs) st = Ok (acc', st') →
  Forall (λ i, (0 <? i)%Z && weight_tie_layers c = true) idxs →
  latent_caches_paired acc.2 →
  caches_full (Z.to_nat (self_per_cross_attn c)) acc.2 →
  length (heap st') = length (heap st).
Proof.
  revert acc st. induction idxs as [|i idxs IH]; intros acc st H Hall Hp Hfull;
    simpl in H.
  - by apply run_ret in H as [<- <-].
  - inversion Hall as [|? ? Hi Hall']; subst.
    apply run_bind in H as (acc1 & st1 & H1 & H).
    apply build_layer_count_tied in H1 as (Hp1 & Hf1 & L1); [|done|done].
    apply IH in H; [|done|done|done]. rewrite H, L1.
    destruct Hfull as (Hca & Hcf & Hl).
    rewrite (bool_decide_eq_true_2 _ Hca), (bool_decide_eq_true_2 _ Hcf).
    destruct (Z.to_nat (self_per_cross_attn c)) as [|n] eqn:En.
    + destruct (bool_decide _); simpl; lia.
    + destruct Hl as [Hla _]; [lia|]. rewrite (bool_decide_eq_true_2 _ Hla). lia.
Qed.

Lemma py_range_tail n :
  (2 ≤ n)%Z →
  ∃ rest, py_range n = 0%Z :: 1%Z :: rest ∧ Forall (λ i, (0 <? i)%Z = true) rest.
Proof.
  intros Hn. unfold py_range.
  destruct (Z.to_nat n) as [|[|m]] eqn:E; [lia | lia |].
  exists (map Z.of_nat (seq 2 m)). split; [done|].
  apply Forall_forall. intros i (k & -> & Hk)%list_elem_of_fmap.
  apply list_elem_of_In, in_seq in Hk. apply Z.ltb_lt. lia.
Qed.

Lemma Perceiver_init_layers c st self st' :
  run (Perceiver_init c) st = Ok (self, st') →
  ∃ st1 cs st2,
    length (heap st1) = length (heap st) + 1
    ∧ run (foldlM (build_layer c (input_dim c)) ([], no_caches) (py_range (depth c))) st1
      = Ok ((layers self, cs), st2)
    ∧ length (heap st') = length (heap st2) + 1.
Proof.
  unfold Perceiver_init. cbv zeta. intros H.
  apply run_bind in H as (w & st1 & Hw & H). apply randn_heap in Hw.
  apply run_bind in H as (lat & st2 & Hl & H). apply run_alloc in Hl as [_ Hl].
  apply run_bind in H as ([ls cs] & st3 & Hls & H).
  apply run_bind in H as (ln & st4 & Hln & H). apply LayerNorm_init_heap in Hln.
  apply run_bind in H as (lin & st5 & Hlin & H). apply Linear_init_heap in Hlin.
  apply run_bind in H as (tl & st6 & Htl & H). apply run_alloc in Htl as [_ Htl].
  apply run_ret in H as [<- <-]. simpl.
  exists st2, cs, st3. split; [|split; [exact Hls|]].
  - subst st2. simpl. rewrite length_app, Hw. simpl. lia.
  - subst st6. simpl. rewrite length_app. simpl. subst st4. by rewrite Hlin.
Qed.

(** X11: [self.layers] has [depth] entries, and every entry has
    [self_per_cross_attn] pairs of a latent attention and a feed-forward
    block, whatever [weight_tie_layers] is. *)
Theorem layers_count c st self st' :
  run (Perceiver_init c) st = Ok (self, st') →
  length (layers self) = Z.to_nat (depth c)
  ∧ Forall (λ l, length (self_attns l) = Z.to_nat (self_per_cross_attn c))
      (layers self).
Proof.
  intros H. apply Perceiver_init_layers in H as (st1 & cs & st2 & _ & H & _).
  apply layers_shape in H as (new & E & Hn & Hall). simpl in E. subst new.
  by rewrite Hn, length_py_range.
Qed.

(** X12: what weight tying saves. Every sublayer is two objects, the module
    and the [PreNorm] around it, and the model holds two more, the latents
    and [to_logits]. Without [weight_tie_layers], or with [depth <= 1],
    [__init__] builds [depth * (2 + 2 * self_per_cross_attn)] sublayers.
    With [weight_tie_layers] and [depth >= 2] it builds those of the first
    layer and, once more, one cross attention, one cross feed-forward and,
    when [self_per_cross_attn >= 1], one latent attention and one latent
    feed-forward: the number no longer grows with [depth]. *)
Theorem module_count c st self st' :
  run (Perceiver_init c) st = Ok (self, st') →
  (weight_tie_layers c = false ∨ (depth c ≤ 1)%Z →
     length (heap st')
     = length (heap st) + 2
       + Z.to_nat (depth c) * (4 + 4 * Z.to_nat (self_per_cross_attn c)))
  ∧ (weight_tie_layers c = true → (2 ≤ depth c)%Z →
     length (heap st')
     = length (heap st) + 2
       + (4 + 4 * Z.to_nat (self_per_cross_attn c))
       + (4 + 4 * min 1 (Z.to_nat (self_per_cross_attn c)))).
Proof.
  intros H. apply Perceiver_init_layers in H as (st1 & cs & st2 & L1 & H & L2).
  split.
  - intros Hu. apply layers_count_untied in H as [_ L].
    + rewrite length_py_range in L. lia.
    + destruct Hu as [->|Hd]; [apply Forall_forall; intros; apply andb_false_r|].
      unfold py_range. destruct (Z.to_nat (depth c)) as [|[|n]] eqn:E; [done| |lia].
      by repeat constructor.
  - intros Ht Hd. destruct (py_range_tail _ Hd) as (rest & E & Hrest).
    rewrite E in H. simpl in H.
    apply run_bind in H as (acc0 & s0 & H0 & H).
    apply run_bind in H as (acc1 & s1 & H1 & H).
    apply build_layer_count_untied in H0 as [Hc0 L0]; [|done]. simpl in Hc0.
    apply build_layer_count_tied in H1 as (Hp1 & Hf1 & L1');
      [|by rewrite Ht|by rewrite Hc0].
    apply layers_count_full in H; [| |done|done].
    + rewrite Hc0 in L1'. unfold no_caches in L1'.
      cbn [cache_cross_attn cache_cross_ff cache_latent_attn] in L1'.
      rewrite !bool_decide_eq_false_2 in L1' by (by intros [? ?]). lia.
    + eapply Forall_impl; [exact Hrest|]. intros i Hi. simpl in Hi. by rewrite Hi, Ht.
Qed.

End Counting.

(** * Witnesses and counterexamples, on the integer runtime *)

#[local] Existing Instance Zruntime.
#[local] Existing Instance Zrotary.




Lemma built_tied_eq :
  run (Perceiver_init (small_config 3 true)) empty_state = built_tied.
Proof. vm_cast_no_check (eq_refl built_tied). Qed.

Lemma built_untied_eq :
  run (Perceiver_init (small_config 3 false)) empty_state = built_untied.
Proof. vm_cast_no_check (eq_refl built_untied). Qed.

(** C1, as stated, fails: with tied layers the instances at depth index 1
    are not those of index 0. *)
Lemma weight_tie_counterexample :
  ∃ self st' l0 l1,
    run (Perceiver_init (small_config 3 true)) empty_state = Ok (self, st')
    ∧ weight_tie_layers (small_config 3 true) = true
    ∧ layers self !! 0 = Some l0 ∧ layers self !! 1 = Some l1
    ∧ cross_attn l1 ≠ cross_attn l0 ∧ cross_ff l1 ≠ cross_ff l0
    ∧ self_attns l1 ≠ self_attns l0.
Proof.
  pose proof built_tied_eq as E. unfold built_tied in E.
  do 4 eexists. split; [exact E|].
  split; [done|]. split; [reflexivity|]. split; [reflexivity|]. simpl.
  split; [|split]; discriminate.
Qed.

Lemma latent_attention_sharing_witness :
  ∃ self st' a1 a2,
    run (Perceiver_init (small_config 3 true)) empty_state = Ok (self, st')
    ∧ (1 < depth (small_config 3 true))%Z
    ∧ (∃ l1 l2, layers self !! 1 = Some l1 ∧ layers self !! 2 = Some l2
                ∧ (10, 12) ∈ self_attns l1 ∧ (10, 12) ∈ self_attns l2)
    ∧ instance_of (heap st') 10 = Some a1 ∧ instance_of (heap st') 10 = Some a2
    ∧ a1 = a2.
Proof.
  pose proof built_tied_eq as E. unfold built_tied in E.
  destruct (latent_attention_sharing _ _ _ _
              {| cross_attn := 14; cross_ff := 16; self_attns := [(10, 12)] |}
              {| cross_attn := 14; cross_ff := 16; self_attns := [(10, 12)] |}
              (10, 12) (10, 12) E eq_refl eq_refl eq_refl
              (list_elem_of_here _ _) (list_elem_of_here _ _))
    as (a1 & a2 & H1 & H2 & _ & _ & Ht & _).
  do 2 eexists. exists a1, a2. split; [exact E|]. split; [done|].
  split; [do 2 eexists; repeat split; apply list_elem_of_here|].
  split; [exact H1|]. split; [exact H2|]. exact (proj1 (proj2 (Ht eq_refl))).
Defined.

Lemma weight_tie_reuses_second_position_witness :
  ∃ self st' l1 l2,
    run (Perceiver_init (small_config 3 true)) empty_state = Ok (self, st')
    ∧ weight_tie_layers (small_config 3 true) = true
    ∧ 1 ≤ 2 ∧ layers self !! 2 = Some l2 ∧ layers self !! 1 = Some l1
    ∧ cross_attn l2 = cross_attn l1 ∧ cross_ff l2 = cross_ff l1.
Proof.
  pose proof built_tied_eq as E. unfold built_tied in E.
  pose proof (proj1 (weight_tie_reuses_second_position _ _ _ _ E eq_refl 2 _
                       (le_S _ _ (le_n 1)) eq_refl) _ eq_refl) as (H1 & H2 & _).
  do 4 eexists. split; [exact E|]. split; [done|]. split; [lia|].
  split; [reflexivity|]. split; [reflexivity|]. split; [exact H1 | exact H2].
Defined.

Lemma built_degenerate_eq :
  run (Perceiver_init degenerate_config) empty_state = built_degenerate.
Proof. vm_cast_no_check (eq_refl built_degenerate). Qed.

(** C2, as stated, fails: the constructor accepts [depth = 0],
    [num_latents = 0] and [num_freq_bands = 0] together. *)
Lemma constructor_validation_counterexample :
  ∃ self st',
    (depth degenerate_config ≤ 0)%Z ∧ (num_latents degenerate_config ≤ 0)%Z
    ∧ (num_freq_bands degenerate_config ≤ 0)%Z
    ∧ run (Perceiver_init degenerate_config) empty_state = Ok (self, st')
    ∧ layers self = [].
Proof.
  pose proof built_degenerate_eq as E. unfold built_degenerate in E.
  do 2 eexists. split; [done|]. split; [done|]. split; [done|].
  split; [exact E | reflexivity].
Qed.

Lemma allocatable_degenerate : allocatable degenerate_config.
Proof.
  unfold allocatable, degenerate_config. simpl.
  split; [lia|]. split; [lia|]. split; [lia|]. intros ?. lia.
Qed.

Lemma constructor_validation_witness :
  allocatable degenerate_config
  ∧ ∃ self st',
      run (Perceiver_init degenerate_config) empty_state = Ok (self, st')
      ∧ length (layers self) = Z.to_nat (depth degenerate_config).
Proof.
  split; [exact allocatable_degenerate|].
  exact (proj1 (constructor_validation degenerate_config empty_state
                  allocatable_degenerate)).
Defined.

Lemma forward_tied_eq :
  run (self ← Perceiver_init (small_config 3 true);
       Perceiver_forward (r := 1) self small_data None) empty_state
  = forward_tied.
Proof. vm_cast_no_check (eq_refl forward_tied). Qed.



Lemma forward_other_eq :
  run (self ← Perceiver_init (small_config 3 true);
       Perceiver_forward (r := 1) self other_data None) empty_state
  = forward_other.
Proof. vm_cast_no_check (eq_refl forward_other). Qed.


Lemma zero_map_zero (v : list Z) : zero_vec (map (λ _, 0%Z) v).
Proof. induction v; constructor; done. Qed.

Lemma zero_Linear_zero l : zero_linear (zero_Linear l).
Proof.
  split; simpl.
  - induction (weight l) as [|w ws IH]; constructor; [apply zero_map_zero | done].
  - destruct (bias l) as [b0|]; simpl; [|done]. intros b [= <-]. apply zero_map_zero.
Qed.

Lemma zero_projections_zeroed h : Forall zeroed (map zero_projections h).
Proof.
  induction h as [|o h IH]; constructor; [|done].
  destruct o; simpl; auto using zero_Linear_zero.
Qed.

Lemma latents_zeroed_eq :
  run (self ← Perceiver_init (small_config 3 true);
       _ ← zero_all_projections;
       Perceiver_latents (r := 1) self small_data None) empty_state
  = latents_zeroed.
Proof. vm_cast_no_check (eq_refl latents_zeroed). Qed.


(** ** The attention weights, on the rational runtime *)

Lemma Qc_exact_division : exact_division (rt := Qcruntime).
Proof.
  split; [|split]; simpl.
  - intros a b s. unfold Qcdiv. ring.
  - intros s. unfold Qcdiv. ring.
  - intros s Hs. by apply Qcmult_inv_r.
Qed.

Lemma sim_partial_eq :
  Attention_sim (rt := Qcruntime) probe_attention probe_q probe_k (Some partial_mask)
  = sim_partial.
Proof. vm_cast_no_check (eq_refl sim_partial). Qed.

Lemma attn_partial_eq :
  Attention_attn (rt := Qcruntime) probe_attention probe_q probe_k (Some partial_mask)
  = attn_partial.
Proof. vm_cast_no_check (eq_refl attn_partial). Qed.

Lemma attn_full_eq :
  Attention_attn (rt := Qcruntime) probe_attention probe_q probe_k (Some full_mask)
  = attn_full.
Proof. vm_cast_no_check (eq_refl attn_full). Qed.



(** ** Witnesses of the properties of the built modules *)

Lemma Zrotary_keeps_length : rotary_keeps_length.
Proof. intros tbl n v. apply length_rotate. Qed.

Lemma built_ff_eq : run (FeedForward_init 2 4 0) empty_state = built_ff.
Proof. vm_cast_no_check (eq_refl built_ff). Qed.

Lemma built_attention_eq : run (Attention_init 2 None 2 1 0) empty_state = built_attention.
Proof. vm_cast_no_check (eq_refl built_attention). Qed.

Lemma built_prenorm_eq : run (PreNorm_init 2 0 (Some 3%Z)) empty_state = built_prenorm.
Proof. vm_cast_no_check (eq_refl built_prenorm). Qed.

Lemma two_positions_shape : has_shape 1 2 2 two_positions.
Proof. by repeat constructor. Qed.

Lemma heads_round_trip_witness :
  (0 < 2)%Z
  ∧ Forall (Forall (λ v : list Z, length v = 1 * Z.to_nat 2)) two_positions
  ∧ rearrange_split 2 two_positions = Ok two_heads
  ∧ rearrange_split 2 two_positions ≫= rearrange_merge 2 = Ok two_positions.
Proof.
  assert (Forall (Forall (λ v : list Z, length v = 1 * Z.to_nat 2)) two_positions) as H
    by (by repeat constructor).
  split; [lia|]. split; [exact H|]. split; [reflexivity|].
  apply (heads_round_trip (rt := Zruntime) 2 1 two_positions); [lia | exact H].
Defined.

Lemma FeedForward_keeps_shape_witness :
  ∃ f st, run (FeedForward_init 2 4 0) empty_state = Ok (f, st)
    ∧ has_shape 1 2 2 two_positions
    ∧ ∃ y, FeedForward_forward f two_positions = Ok y ∧ has_shape 1 2 2 y.
Proof.
  pose proof built_ff_eq as E. unfold built_ff in E.
  eexists _, _. split; [exact E|]. split; [exact two_positions_shape|].
  exact (FeedForward_keeps_shape (rt := Zruntime) 2 4 0 _ _ _ 1 2 two_positions E two_positions_shape).
Defined.

Lemma Attention_forward_total_witness :
  ∃ a st1, run (Attention_init 2 None 2 1 0) empty_state = Ok (a, st1)
    ∧ (0 < 2)%Z ∧ 0 < 2
    ∧ has_shape 1 2 2 two_positions
    ∧ mask_fits 1 2 (Some open_mask)
    ∧ ∃ y st', run (Attention_forward a two_positions None (Some open_mask) None)
                 empty_state = Ok (y, st')
               ∧ has_shape 1 2 2 y.
Proof.
  pose proof built_attention_eq as E. unfold built_attention in E.
  assert (mask_fits 1 2 (Some open_mask)) as Hm by (by repeat constructor).
  eexists _, _. split; [exact E|]. split; [lia|]. split; [lia|].
  split; [exact two_positions_shape|]. split; [exact Hm|].
  apply (Attention_forward_total (rt := Zruntime) 2 None 2 1 0 empty_state _ _ 1 2 2 two_positions
           None (Some open_mask) None empty_state E);
    [lia | exact Zrotary_keeps_length | lia | exact two_positions_shape
     | exact two_positions_shape | exact Hm].
Defined.

Lemma encoded_context_size_witness :
  ∃ self st, run (Perceiver_init (small_config 3 true)) empty_state = Ok (self, st)
    ∧ shape_of 3 small_data = Some [2; 3; 1]
    ∧ input_dim (small_config 3 true) = 4%Z
    ∧ ∃ y, encode_positions (r := 1) self [3] small_data = Ok y
           ∧ has_shape 2 3 4 (map (flatten_lead 1) y).
Proof.
  pose proof built_tied_eq as E. unfold built_tied in E.
  eexists _, _. split; [exact E|]. split; [reflexivity|]. split; [reflexivity|].
  apply (encoded_context_size (rt := Zruntime) 1 (small_config 3 true) empty_state _ _ small_data 2 [3] E);
    try reflexivity; simpl; lia.
Defined.



(** ** Witnesses of the edge cases *)

Lemma GEGLU_by_size_witness :
  GEGLU_vec [1; 2; 3; -4]%Z = Ok [3; 0]%Z
  ∧ GEGLU_vec [1]%Z = Err ValueError
  ∧ GEGLU_vec [1; 2; 3]%Z = Ok [3; 6]%Z
  ∧ GEGLU_vec [1; 2; 3; 4; 5]%Z = Err RuntimeError.
Proof.
  split; [exact (proj1 (GEGLU_by_size (rt := Zruntime) [1; 2; 3; -4]%Z) 2 eq_refl)|].
  split; [exact (proj1 (proj2 (GEGLU_by_size (rt := Zruntime) [1]%Z)) eq_refl)|].
  split; [exact (proj1 (proj2 (proj2 (GEGLU_by_size (rt := Zruntime) [1; 2; 3]%Z))) _ _ _ eq_refl)|].
  apply (proj2 (proj2 (proj2 (GEGLU_by_size (rt := Zruntime) [1; 2; 3; 4; 5]%Z))) 2); [lia | reflexivity].
Defined.

Lemma all_true_mask_is_no_mask_witness :
  ∃ a st1 y st',
    run (Attention_init 2 None 2 1 0) empty_state = Ok (a, st1)
    ∧ Forall (Forall (λ b : bool, b = true)) (flatten_mask open_mask)
    ∧ run (Attention_forward a two_positions None (Some open_mask) None) empty_state
      = Ok (y, st')
    ∧ run (Attention_forward a two_positions None None None) empty_state = Ok (y, st').
Proof.
  pose proof built_attention_eq as E. unfold built_attention in E.
  assert (Forall (Forall (λ b : bool, b = true)) (flatten_mask open_mask)) as Hm
    by (by repeat constructor).
  eexists _, _, _, _. split; [exact E|]. split; [exact Hm|].
  match goal with
  | |- ?L = Ok (?y, ?s) ∧ _ =>
      let v := eval vm_compute in L in
      match v with
      | Ok (?y0, ?s0) =>
          assert (L = Ok (y0, s0)) as Hrun by (vm_cast_no_check (eq_refl v));
          split; [exact Hrun|];
          exact (all_true_mask_is_no_mask (rt := Zruntime) _ two_positions None open_mask None
                   empty_state y0 s0 Hm Hrun)
      end
  end.
Defined.

Lemma mask_batch_mismatch_witness :
  ∃ a st1 sim,
    run (Attention_init 2 None 2 1 0) empty_state = Ok (a, st1)
    ∧ einsum_qk two_heads two_heads = Ok sim ∧ length sim = 2
    ∧ length (flatten_mask wide_mask) * Z.to_nat (heads a) = 4
    ∧ Attention_sim a two_heads two_heads (Some wide_mask) = Err RuntimeError.
Proof.
  pose proof built_attention_eq as E. unfold built_attention in E.
  eexists _, _, _. split; [exact E|].
  assert (einsum_qk two_heads two_heads
          = Ok [[[1; 3]; [3; 9]]; [[4; 8]; [8; 16]]]%Z) as Es by reflexivity.
  split; [exact Es|]. split; [reflexivity|]. split; [reflexivity|].
  apply (mask_batch_mismatch (rt := Zruntime) _ two_heads two_heads _ wide_mask Es); simpl; lia.
Defined.

Lemma PreNorm_context_required_witness :
  ∃ p st nc, run (PreNorm_init 2 0 (Some 3%Z)) empty_state = Ok (p, st)
    ∧ norm_context p = Some nc ∧ kw_context no_kwargs = None
    ∧ is_ok (LayerNorm_forward (norm p) two_positions)
    ∧ run (PreNorm_forward p two_positions no_kwargs) st = Err KeyError.
Proof.
  pose proof built_prenorm_eq as E. unfold built_prenorm in E.
  eexists _, _, _. split; [exact E|]. split; [reflexivity|]. split; [reflexivity|].
  match goal with
  | |- is_ok (LayerNorm_forward (norm ?p) _) ∧ run _ ?st = _ =>
      assert (is_ok (LayerNorm_forward (norm p) two_positions)) as Hok
        by (eexists; reflexivity);
      split; [exact Hok|];
      exact (proj2 (PreNorm_context_required (rt := Zruntime) p _ two_positions
                      no_kwargs st eq_refl eq_refl) Hok)
  end.
Defined.

(** ** Witnesses of the counts of [Perceiver.__init__] *)

Lemma layers_count_witness :
  ∃ self st, run (Perceiver_init (small_config 3 true)) empty_state = Ok (self, st)
    ∧ length (layers self) = 3
    ∧ Forall (λ l, length (self_attns l) = 1) (layers self).
Proof.
  pose proof built_tied_eq as E. unfold built_tied in E.
  eexists _, _. split; [exact E|].
  exact (layers_count (rt := Zruntime) _ _ _ _ E).
Defined.

Lemma module_count_witness :
  (∃ self st, run (Perceiver_init (small_config 3 false)) empty_state = Ok (self, st)
     ∧ weight_tie_layers (small_config 3 false) = false
     ∧ length (heap st) = 0 + 2 + 3 * (4 + 4 * 1))
  ∧ (∃ self st, run (Perceiver_init (small_config 3 true)) empty_state = Ok (self, st)
       ∧ weight_tie_layers (small_config 3 true) = true ∧ (2 ≤ 3)%Z
       ∧ length (heap st) = 0 + 2 + (4 + 4 * 1) + (4 + 4 * 1)).
Proof.
  pose proof built_untied_eq as Eu. unfold built_untied in Eu.
  pose proof built_tied_eq as Et. unfold built_tied in Et.
  split; eexists _, _.
  - split; [exact Eu|]. split; [reflexivity|].
    exact (proj1 (module_count (rt := Zruntime) _ _ _ _ Eu) (or_introl eq_refl)).
  - split; [exact Et|]. split; [reflexivity|]. split; [lia|].
    apply (proj2 (module_count (rt := Zruntime) _ _ _ _ Et)); [reflexivity | simpl; lia].
Defined.
